(** * HV_Dashboard: volatility engine, options pricer and provider fallback

    A shallow embedding of [hv_collector.py] and [hv_screener_enhanced.py].

    Numeric model.  A NumPy/pandas [float64] cell is an [option R]: [Some x]
    is the finite value [x] computed in exact real arithmetic, [None] is the
    missing-value sentinel NaN.  Operations whose IEEE result is not finite
    (a division by zero, the logarithm of a non-positive number, the square
    root of a negative number) give [None]; on positive finite prices, which
    is what the providers deliver, none of them occurs.  These modules do
    not round.  Module [Rounded] repeats the pricer and the estimators with
    a rounding after every operation and the library functions as they are
    shipped, for the properties that depend on it; module [Binary64] holds
    binary64 computations themselves. *)

From Stdlib Require Floats.
From Stdlib Require Import String.
From Stdlib Require Import Reals Lra Lia Arith ZArith Bool List Sorted.
From ExtLib Require Import Structures.Monad Structures.MonadState Data.Monads.StateMonad.
Import ListNotations.

(* ===================================================================== *)
(** ** pandas / NumPy primitives *)
(* ===================================================================== *)

Module Pandas.

Definition float := option R.

Definition NaN : float := None.

Definition fin (x : R) : float := Some x.

(** [a / b] *)
Definition fdiv (a b : float) : float :=
  match a, b with
  | Some x, Some y => if Req_dec_T y 0 then None else Some (x / y)%R
  | _, _ => None
  end.

(** [a * b] *)
Definition fmul (a b : float) : float :=
  match a, b with
  | Some x, Some y => Some (x * y)%R
  | _, _ => None
  end.

(** [a + b] *)
Definition fadd (a b : float) : float :=
  match a, b with
  | Some x, Some y => Some (x + y)%R
  | _, _ => None
  end.

(** [a ** 2] *)
Definition fsq (a : float) : float := fmul a a.

(** [np.log] *)
Definition flog (a : float) : float :=
  match a with
  | Some x => if Rlt_dec 0 x then Some (ln x) else None
  | None => None
  end.

(** [np.sqrt] *)
Definition fsqrt (a : float) : float :=
  match a with
  | Some x => if Rle_dec 0 x then Some (sqrt x) else None
  | None => None
  end.

Definition isna (a : float) : bool :=
  match a with Some _ => false | None => true end.

(** A [Series] of floats, by position. *)
Definition series := list float.

(** Element-wise binary operation on two aligned series. *)
Definition zip_with (f : float -> float -> float) (a b : series) : series :=
  map (fun p => f (fst p) (snd p)) (combine a b).

(** [s.shift(1)]: every value moves one position down, the first becomes
    NaN, the length is kept. *)
Definition shift (s : series) : series := firstn (length s) (NaN :: s).

(** [s.tail(n)] / [df.tail(n)] *)
Definition tail {A : Type} (n : nat) (l : list A) : list A :=
  skipn (length l - n) l.

(** The non-missing values of a series ([skipna=True]). *)
Fixpoint dropna (s : series) : list R :=
  match s with
  | [] => []
  | Some x :: t => x :: dropna t
  | None :: t => dropna t
  end.

Definition sum (l : list R) : R := fold_right Rplus 0%R l.

Definition mean (l : list R) : R := (sum l / INR (length l))%R.

(** Sum of squared deviations from the mean. *)
Definition sqdev (l : list R) : R :=
  sum (map (fun x => ((x - mean l) * (x - mean l))%R) l).

(** [Series.std()]: sample standard deviation ([ddof=1]) of the non-missing
    values; NaN when fewer than two remain. *)
Definition std (s : series) : float :=
  let v := dropna s in
  if (length v <=? 1)%nat then NaN
  else Some (sqrt (sqdev v / (INR (length v) - 1)))%R.

(** [Series.mean()]: mean of the non-missing values; NaN when none. *)
Definition smean (s : series) : float :=
  let v := dropna s in
  if (length v =? 0)%nat then NaN else Some (mean v).

(** [s.rolling(window=w).std()]: at position [i] the window is the last [w]
    cells ending at [i]; the result is NaN unless the window holds [w]
    non-missing observations ([min_periods] defaults to the window size). *)
Definition rolling_std_at (w : nat) (s : series) (i : nat) : float :=
  let win := tail w (firstn (S i) s) in
  if (length (dropna win) <? w)%nat then NaN else std win.

Definition rolling_std (w : nat) (s : series) : series :=
  map (rolling_std_at w s) (seq 0 (length s)).

(** [np.log(s / s.shift(1))] *)
Definition log_returns (s : series) : series :=
  map flog (zip_with fdiv s (shift s)).

End Pandas.

(* ===================================================================== *)
(** ** hv_collector.py *)
(* ===================================================================== *)

Module Collector.
Import Pandas.

(** One row of the price DataFrame.  Columns a provider does not deliver are
    recorded as absent in [frame]; their cells are then never read. *)
Record row := mkRow {
  date : Z;
  price : float;
  volume : float;
  quote_volume : float;
  trades : float;
  funding_rate : float;
  open_interest : float;
  open_interest_value : float;
  high : float;
  low : float
}.

Record frame := mkFrame {
  has_volume : bool;
  has_funding : bool;
  has_oi : bool;
  has_high : bool;
  has_low : bool;
  rows : list row
}.

(** [calculate_historical_volatility(prices, window)] *)
Definition calculate_historical_volatility (prices : series) (window : nat) : float :=
  if (length prices <? 2)%nat then NaN
  else
    let log_returns := log_returns prices in
    let volatility := std log_returns in
    fmul volatility (fin (sqrt 365)).

(** [calculate_parkinson_volatility(data)] *)
Definition calculate_parkinson_volatility (f : frame) (data : list row) : float :=
  if negb (has_high f && has_low f) then NaN
  else
    let hl_ratio := map (fun x => fsq (flog x)) (zip_with fdiv (map high data) (map low data)) in
    let variance := fdiv (smean hl_ratio) (fin (4 * ln 2)) in
    fsqrt (fmul variance (fin 365)).

(** [sort_values('date')], as a stable insertion sort. *)
Fixpoint insert_by_date (r : row) (l : list row) : list row :=
  match l with
  | [] => [r]
  | x :: t => if (date r <=? date x)%Z then r :: l else x :: insert_by_date r t
  end.

Definition sort_values (l : list row) : list row := fold_right insert_by_date [] l.

(** [dropna(subset=['price'])] *)
Definition dropna_price (l : list row) : list row :=
  filter (fun r => negb (isna (price r))) l.

Definition windows : list nat := [7; 14; 30; 60; 90]%nat.

(** [price_data[price_data['date'] <= date].tail(window)] *)
Definition historical_data (price_data : list row) (d : Z) (window : nat) : list row :=
  tail window (filter (fun r => (date r <=? d)%Z) price_data).

(** One round of the [for window in windows] loop: the value stored under
    [hv_{window}d] and, when the key is written, the one stored under
    [parkinson_vol_{window}d]. *)
Definition window_metrics (f : frame) (price_data : list row) (d : Z) (window : nat)
  : float * option float :=
  let h := historical_data price_data d window in
  if (Nat.max 2 (window / 2) <=? length h)%nat then
    (calculate_historical_volatility (map price h) window,
     if has_high f && has_low f then Some (calculate_parkinson_volatility f h) else None)
  else
    (NaN, if has_volume f then Some NaN else None).

(** The dictionary built for one row.  A key that is only written under a
    condition is an [option]; [hv] and [parkinson_vol] are keyed by window. *)
Record hv_record := mkRecord {
  r_symbol : string;
  r_date : Z;
  close_price : float;
  r_volume : option (float * float * float);
  r_funding_rate : option float;
  annualized_funding_rate : option R;
  r_open_interest : option (float * float);
  hv : list (nat * float);
  parkinson_vol : list (nat * float)
}.

Definition hv_of (f : frame) (price_data : list row) (d : Z) (w : nat) : float :=
  fst (window_metrics f price_data d w).

Definition parkinson_of (f : frame) (price_data : list row) (d : Z) (w : nat)
  : list (nat * float) :=
  match snd (window_metrics f price_data d w) with
  | Some v => [(w, v)]
  | None => []
  end.

Definition record_of (f : frame) (symbol : string) (ws : list nat)
  (price_data : list row) (r : row) : hv_record :=
  {| r_symbol := symbol;
     r_date := date r;
     close_price := price r;
     r_volume := if has_volume f then Some (volume r, quote_volume r, trades r) else None;
     r_funding_rate := if has_funding f then Some (funding_rate r) else None;
     annualized_funding_rate :=
       if has_funding f then
         match funding_rate r with Some x => Some (x * 3 * 365)%R | None => None end
       else None;
     r_open_interest := if has_oi f then Some (open_interest r, open_interest_value r) else None;
     hv := map (fun w => (w, hv_of f price_data (date r) w)) ws;
     parkinson_vol := flat_map (parkinson_of f price_data (date r)) ws |}.

(** The body of [calculate_hv_metrics] with the window list as an argument.
    Prices are floats already, so [pd.to_numeric(..., errors='coerce')]
    changes nothing; the [log_return] column the method adds is never read
    and is left out. *)
Definition hv_metrics_for (ws : list nat) (price_data : option frame) (symbol : string)
  : list hv_record :=
  match price_data with
  | None => []
  | Some f =>
      if (length (rows f) <? 2)%nat then []
      else
        let pd := dropna_price (sort_values (rows f)) in
        map (record_of f symbol ws pd) pd
  end.

(** [calculate_hv_metrics(price_data, symbol)] *)
Definition calculate_hv_metrics (price_data : option frame) (symbol : string)
  : list hv_record :=
  hv_metrics_for windows price_data symbol.

(** A frame that carries only [date] and [price], as CoinGecko and Kraken
    deliver it. *)
Definition price_row (d : Z) (p : R) : row :=
  mkRow d (fin p) NaN NaN NaN NaN NaN NaN NaN NaN.

Definition price_frame (l : list row) : frame :=
  mkFrame false false false false false l.

(** Rows dated 0, 1, 2, ... carrying the given prices. *)
Definition daily (prices : list R) : list row :=
  map (fun p => price_row (Z.of_nat (fst p)) (snd p))
      (combine (seq 0 (length prices)) prices).

End Collector.

(* ===================================================================== *)
(** ** hv_collector.py: provider fallback *)
(* ===================================================================== *)

Module Fallback.
Import Collector.
Import MonadNotation.
Local Open Scope monad_scope.

Inductive provider := CoinGecko | Binance | Kraken.

(** The name appended to [data_sources]. *)
Definition tag (p : provider) : string :=
  match p with
  | CoinGecko => "coingecko"%string
  | Binance => "binance"%string
  | Kraken => "kraken"%string
  end.

(** A row of the asset list; a blank CSV cell is read as NaN ([None]). *)
Record asset := mkAsset {
  coin_symbol : string;
  cg_api_id : option string
}.

(** What the three fetch methods answer for this run.  They talk to the
    network, so their answers are given from outside. *)
Record fetchers := mkFetchers {
  fetch_coingecko_data : string -> string -> option frame;
  fetch_binance_futures_data : string -> option frame;
  fetch_kraken_options_iv : string -> option frame
}.

(** The [result] dictionary. *)
Record collected := mkCollected {
  symbol : string;
  coingecko_id : option string;
  data_sources : list string;
  price_data : option frame
}.

(** Calls run in a state monad whose state is the list of providers queried
    so far, oldest first. *)
Definition io := state (list provider).

Definition query {A : Type} (p : provider) (answer : A) : io A :=
  modify (fun t => t ++ [p]) ;; ret answer.

(** [not pd.isna(cg_id) and cg_id not in ['N/A', '']] *)
Definition has_cg_id (a : asset) : bool :=
  match cg_api_id a with
  | None => false
  | Some id => negb (String.eqb id "N/A"%string || String.eqb id EmptyString)
  end.

(** [data is not None and len(data) > 0] *)
Definition usable (d : option frame) : bool :=
  match d with
  | Some f => (0 <? length (rows f))%nat
  | None => false
  end.

Definition accept (res : collected) (d : option frame) (p : provider) : collected :=
  if usable d then
    {| symbol := symbol res;
       coingecko_id := coingecko_id res;
       data_sources := data_sources res ++ [tag p];
       price_data := d |}
  else res.

(** [collect_asset_data(row)].  The [time.sleep] calls after a successful
    fetch only pace the requests and are left out. *)
Definition collect_asset_data (F : fetchers) (a : asset) : io collected :=
  let result :=
    {| symbol := coin_symbol a;
       coingecko_id := cg_api_id a;
       data_sources := [];
       price_data := None |} in
  result <-
    (if has_cg_id a then
       cg_data <- query CoinGecko
                    (fetch_coingecko_data F
                       (match cg_api_id a with Some id => id | None => EmptyString end)
                       (coin_symbol a)) ;;
       ret (accept result cg_data CoinGecko)
     else ret result) ;;
  result <-
    (match price_data result with
     | None =>
         binance_data <- query Binance (fetch_binance_futures_data F (coin_symbol a)) ;;
         ret (accept result binance_data Binance)
     | Some _ => ret result
     end) ;;
  result <-
    (match price_data result with
     | None =>
         kraken_data <- query Kraken (fetch_kraken_options_iv F (coin_symbol a)) ;;
         ret (accept result kraken_data Kraken)
     | Some _ => ret result
     end) ;;
  ret result.

(** The priority order, and the providers an asset can use at all. *)
Definition priority : list provider := [CoinGecko; Binance; Kraken].

Definition eligible (a : asset) (p : provider) : bool :=
  match p with
  | CoinGecko => has_cg_id a
  | _ => true
  end.

(** What provider [p] answers for asset [a]. *)
Definition answer (F : fetchers) (a : asset) (p : provider) : option frame :=
  match p with
  | CoinGecko =>
      fetch_coingecko_data F
        (match cg_api_id a with Some id => id | None => EmptyString end) (coin_symbol a)
  | Binance => fetch_binance_futures_data F (coin_symbol a)
  | Kraken => fetch_kraken_options_iv F (coin_symbol a)
  end.

(** The elements of a list up to and including the first that satisfies
    [ok]; the whole list when none does. *)
Fixpoint up_to_first {A : Type} (ok : A -> bool) (l : list A) : list A :=
  match l with
  | [] => []
  | x :: t => if ok x then [x] else x :: up_to_first ok t
  end.

End Fallback.

(* ===================================================================== *)
(** ** hv_screener_enhanced.py: volatility metrics *)
(* ===================================================================== *)

Module Screener.
Import Pandas.

(** One row of the OHLCV DataFrame, indexed by its 08:00 UTC timestamp. *)
Record ohlcv := mkBar {
  timestamp : Z;
  open : float;
  high : float;
  low : float;
  close : float;
  volume : float
}.

(** One row of the returned DataFrame: the input columns and the computed
    ones.  [hv] holds the [hv_{w}] columns in the order of [vol_windows];
    an RMS column that was not created is [None]. *)
Record metrics_row := mkMetrics {
  bar : ohlcv;
  log_ret : float;
  hv : list (nat * float);
  rms_2_3 : option float;
  rms_7_14 : option float;
  rms_vol : float
}.

(** A call either returns or raises [ValueError] ([max] of an empty list). *)
Inductive outcome (A : Type) : Type :=
| Returns (a : A)
| ValueError.
Arguments Returns {A} a.
Arguments ValueError {A}.

Definition annual_factor : R := sqrt 365.

(** [df['log_ret']] *)
Definition log_ret_col (df : list ohlcv) : series := log_returns (map close df).

(** [df[f'hv_{w}']] *)
Definition hv_col (df : list ohlcv) (w : nat) : series :=
  map (fun x => fmul x (fin annual_factor)) (rolling_std w (log_ret_col df)).

(** [np.sqrt((a**2 + b**2) / 2)] *)
Definition rms (a b : float) : float :=
  fsqrt (fdiv (fadd (fsq a) (fsq b)) (fin 2)).

(** [w in vol_windows] *)
Definition has_window (w : nat) (vol_windows : list nat) : bool :=
  existsb (Nat.eqb w) vol_windows.

Definition cell (col : series) (i : nat) : float := nth i col NaN.

(** Row [i] of the frame once every column has been added. *)
Definition metrics_at (df : list ohlcv) (vol_windows : list nat) (i : nat) (b : ohlcv)
  : metrics_row :=
  let hv_ := fun w => cell (hv_col df w) i in
  let r_2_3 :=
    if has_window 2 vol_windows && has_window 3 vol_windows
    then Some (rms (hv_ 2%nat) (hv_ 3%nat)) else None in
  let r_7_14 :=
    if has_window 7 vol_windows && has_window 14 vol_windows
    then Some (rms (hv_ 7%nat) (hv_ 14%nat)) else None in
  {| bar := b;
     log_ret := cell (log_ret_col df) i;
     hv := map (fun w => (w, hv_ w)) vol_windows;
     rms_2_3 := r_2_3;
     rms_7_14 := r_7_14;
     rms_vol :=
       match r_7_14 with
       | Some v => v
       | None => match r_2_3 with Some v => v | None => NaN end
       end |}.

Definition all_rows (df : list ohlcv) (vol_windows : list nat) : list metrics_row :=
  map (fun p => metrics_at df vol_windows (fst p) (snd p))
      (combine (seq 0 (length df)) df).

Definition present (c : option float) : bool :=
  match c with Some v => negb (isna v) | None => true end.

(** The rows [dropna()] keeps: no NaN in any column. *)
Definition complete (m : metrics_row) : bool :=
  negb (isna (open (bar m))) && negb (isna (high (bar m))) &&
  negb (isna (low (bar m))) && negb (isna (close (bar m))) &&
  negb (isna (volume (bar m))) &&
  negb (isna (log_ret m)) &&
  forallb (fun c => negb (isna (snd c))) (hv m) &&
  present (rms_2_3 m) && present (rms_7_14 m) &&
  negb (isna (rms_vol m)).

(** [max(vol_windows)] of a non-empty list *)
Definition max_window (vol_windows : list nat) : nat := fold_right Nat.max 0%nat vol_windows.

(** [calculate_hv_metrics(df, vol_windows)]; [None] is a [df] of [None]. *)
Definition calculate_hv_metrics (df : option (list ohlcv)) (vol_windows : list nat)
  : outcome (list metrics_row) :=
  match df with
  | None | Some [] => Returns []
  | Some d =>
      match vol_windows with
      | [] => ValueError
      | _ =>
          if (length d <? max_window vol_windows + 1)%nat then Returns []
          else Returns (filter complete (all_rows d vol_windows))
      end
  end.

End Screener.

(* ===================================================================== *)
(** ** hv_screener_enhanced.py: Black-Scholes pricer *)
(* ===================================================================== *)

Module Options.
Local Open Scope R_scope.
Local Open Scope string_scope.

(** [scipy.stats.norm] is not part of the repository; its density and
    distribution function are taken by their definitions. *)
Definition gauss (t : R) : R := exp (- (t * t) / 2).

Definition gauss_continuous : continuity gauss.
Proof. unfold gauss. reg. Qed.

Definition gauss_integrable (a b : R) : Riemann_integrable gauss a b :=
  match Rle_dec a b with
  | left h => continuity_implies_RiemannInt h (fun x _ => gauss_continuous x)
  | right h =>
      RiemannInt_P1
        (continuity_implies_RiemannInt (Rlt_le _ _ (Rnot_le_lt _ _ h))
           (fun x _ => gauss_continuous x))
  end.

(** [norm.pdf] *)
Definition norm_pdf (x : R) : R := gauss x / sqrt (2 * PI).

(** [norm.cdf] *)
Definition norm_cdf (x : R) : R :=
  1 / 2 + RiemannInt (gauss_integrable 0 x) / sqrt (2 * PI).

(** The returned tuple. *)
Record greeks := mkGreeks {
  price : R;
  delta : R;
  gamma : R;
  theta : R;
  vega : R
}.

(** [black_scholes(S, K, T, r, sigma, option_type)].  The closed form is
    meant for [S > 0] and [K > 0]. *)
Definition black_scholes (S K T r sigma : R) (option_type : string) : greeks :=
  if Rle_dec T 0 then mkGreeks 0 0 0 0 0
  else if Rle_dec sigma 0 then mkGreeks 0 0 0 0 0
  else
    let d1 := (ln (S / K) + (r + 0.5 * sigma ^ 2) * T) / (sigma * sqrt T) in
    let d2 := d1 - sigma * sqrt T in
    let price :=
      if String.eqb option_type "call"
      then S * norm_cdf d1 - K * exp (- r * T) * norm_cdf d2
      else K * exp (- r * T) * norm_cdf (- d2) - S * norm_cdf (- d1) in
    let delta :=
      if String.eqb option_type "call" then norm_cdf d1 else - norm_cdf (- d1) in
    let gamma := norm_pdf d1 / (S * sigma * sqrt T) in
    let vega := S * norm_pdf d1 * sqrt T / 100 in
    let theta := - (S * norm_pdf d1 * sigma / (2 * sqrt T)) / 365 in
    let theta :=
      if String.eqb option_type "put"
      then theta - r * K * exp (- r * T) * norm_cdf (- d2) / 365
      else theta - r * K * exp (- r * T) * norm_cdf d2 / 365 in
    mkGreeks price delta gamma theta vega.

End Options.

(* ===================================================================== *)
(** ** Notions used to state the properties *)
(* ===================================================================== *)

Module LogReturns.
Import Pandas.

(** Log returns with the previous price carried along: the recursion behind
    [log_returns]. *)
Fixpoint rets (prev : float) (s : series) : series :=
  match s with
  | [] => []
  | x :: t => flog (fdiv x prev) :: rets x t
  end.

(** The real log returns [ln (p_k / p_(k-1))] of a price list after [p]. *)
Fixpoint ln_rets (p : R) (l : list R) : list R :=
  match l with
  | [] => []
  | x :: t => ln (x / p) :: ln_rets x t
  end.

(** A cell that holds a positive number. *)
Definition positive (x : float) : Prop :=
  match x with Some v => (0 < v)%R | None => False end.

(** A cell that is missing or exactly zero. *)
Definition nan_or_zero (x : float) : Prop := x = NaN \/ x = fin 0.

End LogReturns.

(** Definitions that follow the words of the specification, to compare the
    code with. *)
Module Spec.
Import Pandas.
Local Open Scope R_scope.

(** Log return at date [t]: [ln(price[t] / price[t-1])]. *)
Definition log_return (prices : list R) (t : nat) : R :=
  ln (nth t prices 0 / nth (t - 1) prices 0).

(** The trailing [w] log returns ending at date [t]. *)
Definition trailing_log_returns (prices : list R) (w t : nat) : list R :=
  map (log_return prices) (seq (t + 1 - w) w).

(** Historical volatility over window [w] ending at date [t]: the standard
    deviation of the trailing [w] log returns, times [sqrt(365)]. *)
Definition hv_trailing (prices : list R) (w t : nat) : float :=
  fmul (std (map fin (trailing_log_returns prices w t))) (fin (sqrt 365)).

End Spec.

Module CollectorNotions.
Import Pandas LogReturns Collector.
Local Open Scope R_scope.

(** Every row carries a positive finite price. *)
Definition positive_prices (l : list row) : Prop :=
  Forall (fun r => positive (price r)) l.

Definition prices_of (l : list row) : list R := dropna (map price l).

(** The value [calculate_historical_volatility] returns on positive prices. *)
Definition hv_value (p : R) (l : list R) : R :=
  sqrt (sqdev (ln_rets p l) / (INR (length l) - 1)) * sqrt 365.

Definition by_date (x y : row) : Prop := (date x <= date y)%Z.

(** The rows dated [t] or earlier. *)
Definition upto (t : Z) (r : row) : bool := (date r <=? t)%Z.

(** The frame [calculate_hv_metrics] iterates over. *)
Definition prepared (l : list row) : list row := dropna_price (sort_values l).

End CollectorNotions.

Module ScreenerNotions.
Import Pandas Screener.

(** The rows of an outcome; none when the call raised. *)
Definition returned {A} (o : outcome (list A)) : list A :=
  match o with Returns l => l | ValueError => [] end.

(** The bars stamped [t] or earlier. *)
Definition until (t : Z) (b : ohlcv) : bool := (timestamp b <=? t)%Z.

(** Bars in date order, as the resampling in [get_crypto_data_coingecko]
    delivers them. *)
Definition ascending (df : list ohlcv) : Prop :=
  StronglySorted (fun x y => (timestamp x <= timestamp y)%Z) df.

End ScreenerNotions.

Module Scaling.
Import Pandas.

(** Every price of a bar multiplied by [c]; volume is not a price. *)
Definition scale_bar (c : R) (b : Screener.ohlcv) : Screener.ohlcv :=
  Screener.mkBar (Screener.timestamp b)
    (fmul (fin c) (Screener.open b)) (fmul (fin c) (Screener.high b))
    (fmul (fin c) (Screener.low b)) (fmul (fin c) (Screener.close b))
    (Screener.volume b).

(** A returned row with its input columns scaled and its computed columns
    left as they are. *)
Definition scale_input (c : R) (m : Screener.metrics_row) : Screener.metrics_row :=
  Screener.mkMetrics (scale_bar c (Screener.bar m)) (Screener.log_ret m)
    (Screener.hv m) (Screener.rms_2_3 m) (Screener.rms_7_14 m) (Screener.rms_vol m).

Definition outcome_map {A B : Type} (g : A -> B) (o : Screener.outcome A) : Screener.outcome B :=
  match o with
  | Screener.Returns a => Screener.Returns (g a)
  | Screener.ValueError => Screener.ValueError
  end.

(** High and low of a collector row multiplied by [c]. *)
Definition scale_high_low (c : R) (r : Collector.row) : Collector.row :=
  Collector.mkRow (Collector.date r) (Collector.price r) (Collector.volume r)
    (Collector.quote_volume r) (Collector.trades r) (Collector.funding_rate r)
    (Collector.open_interest r) (Collector.open_interest_value r)
    (fmul (fin c) (Collector.high r)) (fmul (fin c) (Collector.low r)).

End Scaling.

Module Bars.
Import Pandas Screener.

(** Bars dated 0, 1, 2, ... as [get_crypto_data_coingecko] builds them from
    closing prices: open, high and low repeat the close. *)
Definition daily_bars (closes : list R) : list ohlcv :=
  map (fun p => mkBar (Z.of_nat (fst p)) (fin (snd p)) (fin (snd p)) (fin (snd p))
                  (fin (snd p)) (fin 0))
      (combine (seq 0 (length closes)) closes).

End Bars.

Module MetricNotions.
Import Pandas LogReturns.

(** A cell that is missing or not negative. *)
Definition nonneg_or_nan (x : float) : Prop :=
  match x with Some v => (0 <= v)%R | None => True end.

(** A bar with a positive close and no missing input cell. *)
Definition clean (b : Screener.ohlcv) : Prop :=
  positive (Screener.close b) /\
  isna (Screener.open b) = false /\ isna (Screener.high b) = false /\
  isna (Screener.low b) = false /\ isna (Screener.volume b) = false.

(** One of the two window pairs that give an RMS column is configured. *)
Definition has_rms_pair (vol_windows : list nat) : bool :=
  (Screener.has_window 7 vol_windows && Screener.has_window 14 vol_windows) ||
  (Screener.has_window 2 vol_windows && Screener.has_window 3 vol_windows).

End MetricNotions.

(* ===================================================================== *)
(** ** hv_screener_enhanced.py: the window list typed in the sidebar *)
(* ===================================================================== *)

Module Sidebar.
Import Ascii.

(** ASCII text, character by character.  The model covers ASCII input: for
    it [int] never raises, so the [except] branch is not taken. *)
Definition chars := list ascii.

(** [str.isspace] on an ASCII character: tab to carriage return, the four
    separators 28 to 31, and the space. *)
Definition is_space (c : ascii) : bool :=
  let n := nat_of_ascii c in
  ((9 <=? n) && (n <=? 13) || (28 <=? n) && (n <=? 32))%nat.

Fixpoint lstrip (s : chars) : chars :=
  match s with
  | [] => []
  | c :: t => if is_space c then lstrip t else s
  end.

(** [s.strip()] *)
Definition strip (s : chars) : chars := rev (lstrip (rev (lstrip s))).

(** [s.split(sep)] for a one-character separator *)
Fixpoint split (sep : ascii) (s : chars) : list chars :=
  match s with
  | [] => [[]]
  | c :: t =>
      if Ascii.eqb c sep then [] :: split sep t
      else
        match split sep t with
        | p :: ps => (c :: p) :: ps
        | [] => [[c]]
        end
  end.

Definition is_digit (c : ascii) : bool :=
  let n := nat_of_ascii c in ((48 <=? n) && (n <=? 57))%nat.

(** [s.isdigit()]: at least one character, all of them digits *)
Definition isdigit (s : chars) : bool :=
  match s with
  | [] => false
  | _ => forallb is_digit s
  end.

(** [int(s)] on a string of digits *)
Definition int (s : chars) : nat :=
  fold_left (fun acc c => (10 * acc + (nat_of_ascii c - 48))%nat) s 0%nat.

(** [sorted(list(set(l)))] *)
Fixpoint insert_unique (x : nat) (l : list nat) : list nat :=
  match l with
  | [] => [x]
  | y :: t =>
      if (x <? y)%nat then x :: l
      else if (x =? y)%nat then l
      else y :: insert_unique x t
  end.

Definition sorted_set (l : list nat) : list nat := fold_right insert_unique [] l.

(** The [vol_windows] the script computes from the text input. *)
Definition parse_windows (windows_input : string) : list nat :=
  let vol_windows :=
    sorted_set
      (map int
         (filter (fun x => isdigit x && (0 <? int x)%nat)
            (map strip (split ","%char (list_ascii_of_string windows_input))))) in
  match vol_windows with
  | [] => [7; 14; 30]%nat
  | _ => vol_windows
  end.

End Sidebar.

(* ===================================================================== *)
(** ** hv_collector.py: realized volatility of a price column *)
(* ===================================================================== *)

Module Realized.
Import Pandas Collector.

(** [calculate_realized_volatility(prices, windows)].  The dictionary is the
    list of its items in the order of [windows]. *)
Definition calculate_realized_volatility (prices : series) (windows : list nat)
  : list (nat * float) :=
  map (fun window =>
         (window,
          if (window <=? length prices)%nat
          then calculate_historical_volatility (tail window prices) window
          else NaN))
      windows.

End Realized.

(* ===================================================================== *)
(** ** hv_collector.py: paginated fetches *)
(* ===================================================================== *)

Module Paging.

(** What one [requests.get] call brings back: status 200 with its JSON list,
    status 429, or anything else (another status, or an exception, which the
    enclosing [try] turns into [None] as well). *)
Inductive response (A : Type) : Type :=
| Page (data : list A)
| RateLimited
| Failure.
Arguments Page {A} data.
Arguments RateLimited {A}.
Arguments Failure {A}.

(** The server's answers are given as a script, consumed one per request.  A
    fetch that runs out of script while its loop is still going is
    [Pending]. *)
Inductive run (R : Type) : Type :=
| Finished (r : R)
| Pending.
Arguments Finished {R} r.
Arguments Pending {R}.

Definition is_rate_limited {A} (r : response A) : bool :=
  match r with RateLimited => true | _ => false end.

Definition is_failure {A} (r : response A) : bool :=
  match r with Failure => true | _ => false end.

(** The rows of the pages among some responses, in order. *)
Definition pages {A} (l : list (response A)) : list A :=
  flat_map (fun r => match r with Page data => data | _ => [] end) l.

Definition last_error {A} (l : list A) : option A :=
  match rev l with
  | [] => None
  | x :: _ => Some x
  end.

(** [if not all: return None], else the accumulated rows *)
Definition finish {A} (all : list A) : option (list A) :=
  match all with
  | [] => None
  | _ => Some all
  end.

Section Loop.
Context {A : Type}.
Variable stamp : A -> Z.      (* the time field of a row *)
Variable limit : nat.         (* rows per page *)
Variable step : Z.            (* added to the last stamp for the next page *)
Variable end_time : Z.

(** The [while current_start < end_time] loop shared by the three Binance
    fetches.  Returns the outcome and the [startTime] of every request sent.
    The [time.sleep] calls are left out. *)
Fixpoint fetch_pages (script : list (response A)) (current_start : Z) (all : list A)
  : run (option (list A)) * list Z :=
  if (current_start <? end_time)%Z then
    match script with
    | [] => (Pending, [])
    | resp :: rest =>
        match resp with
        | Page data =>
            match last_error data with
            | None => (Finished (finish all), [current_start])
            | Some x =>
                if (length data <? limit)%nat
                then (Finished (finish (all ++ data)), [current_start])
                else
                  let (r, reqs) := fetch_pages rest (stamp x + step)%Z (all ++ data) in
                  (r, current_start :: reqs)
            end
        | RateLimited =>
            let (r, reqs) := fetch_pages rest current_start all in
            (r, current_start :: reqs)
        | Failure => (Finished None, [current_start])
        end
    end
  else (Finished (finish all), []).

End Loop.

End Paging.

(* ===================================================================== *)
(** ** hv_collector.py: the Binance frame *)
(* ===================================================================== *)

Module Binance.
Import Pandas Collector Paging.

(** One kline, with numbers already decoded.  Dates are millisecond
    timestamps throughout. *)
Record kline := mkKline {
  k_timestamp : Z;
  k_open : float;
  k_high : float;
  k_low : float;
  k_close : float;
  k_volume : float;
  k_close_time : Z;
  k_quote_volume : float;
  k_trades : float;
  k_taker_buy_base : float;
  k_taker_buy_quote : float;
  k_ignore : float
}.

Record funding_event := mkFunding {
  fundingTime : Z;
  fundingRate : float
}.

Record oi_entry := mkOi {
  oi_timestamp : Z;
  sumOpenInterest : float;
  sumOpenInterestValue : float
}.

Definition day_ms : Z := 86400000.

(** Midnight of the day a timestamp falls in: [date.dt.date] read back with
    [pd.to_datetime]. *)
Definition midnight (t : Z) : Z := (day_ms * (t / day_ms))%Z.

Fixpoint insert_day (d : Z) (l : list Z) : list Z :=
  match l with
  | [] => [d]
  | y :: t =>
      if (d <? y)%Z then d :: l
      else if (d =? y)%Z then l
      else y :: insert_day d t
  end.

(** The group keys of [groupby], ascending and without repetition. *)
Definition days (l : list funding_event) : list Z :=
  fold_right insert_day [] (map (fun e => midnight (fundingTime e)) l).

(** [df.groupby(df['date'].dt.date).agg({'funding_rate': 'mean'})]: one row
    per day, the mean of that day's rates. *)
Definition daily_funding (l : list funding_event) : list (Z * float) :=
  map (fun d =>
         (d, smean (map fundingRate
                      (filter (fun e => (midnight (fundingTime e) =? d)%Z) l))))
      (days l).

(** [left.merge(right, on='date', how='left')]: the left rows in their
    order, each once per matching right row, or once with missing cells
    when none matches. *)
Definition merge_left {B : Type} (set : row -> option B -> row)
  (left : list row) (right : list (Z * B)) : list row :=
  flat_map
    (fun r =>
       match filter (fun e => (fst e =? date r)%Z) right with
       | [] => [set r None]
       | ms => map (fun e => set r (Some (snd e))) ms
       end)
    left.

Definition set_funding (r : row) (v : option float) : row :=
  mkRow (date r) (price r) (volume r) (quote_volume r) (trades r)
    (match v with Some x => x | None => NaN end)
    (open_interest r) (open_interest_value r) (high r) (low r).

Definition set_oi (r : row) (v : option (float * float)) : row :=
  mkRow (date r) (price r) (volume r) (quote_volume r) (trades r) (funding_rate r)
    (match v with Some x => fst x | None => NaN end)
    (match v with Some x => snd x | None => NaN end)
    (high r) (low r).

(** [df[['date', 'price', 'volume', 'quote_volume', 'trades']]] *)
Definition kline_row (k : kline) : row :=
  mkRow (k_timestamp k) (k_close k) (k_volume k) (k_quote_volume k) (k_trades k)
    NaN NaN NaN NaN NaN.

(** The frame [fetch_binance_futures_data] returns once the three fetches
    are done. *)
Definition binance_frame (all_klines : list kline)
  (funding_rates : option (list (Z * float)))
  (open_interest : option (list (Z * (float * float)))) : frame :=
  let result := map kline_row all_klines in
  let result :=
    match funding_rates with
    | Some fr => merge_left set_funding result fr
    | None => result
    end in
  let result :=
    match open_interest with
    | Some oi => merge_left set_oi result oi
    | None => result
    end in
  mkFrame true
    (match funding_rates with Some _ => true | None => false end)
    (match open_interest with Some _ => true | None => false end)
    false false
    (sort_values result).

Section Fetch.
Variable start_time end_time : Z.

(** [fetch_binance_funding_rates(symbol)] *)
Definition fetch_binance_funding_rates (script : list (response funding_event))
  : run (option (list (Z * float))) :=
  match fst (fetch_pages fundingTime 1000 1 end_time script start_time []) with
  | Pending => Pending
  | Finished None => Finished None
  | Finished (Some all_funding) => Finished (Some (daily_funding all_funding))
  end.

(** [fetch_binance_open_interest(symbol)] *)
Definition fetch_binance_open_interest (script : list (response oi_entry))
  : run (option (list (Z * (float * float)))) :=
  match fst (fetch_pages oi_timestamp 500 day_ms end_time script start_time []) with
  | Pending => Pending
  | Finished None => Finished None
  | Finished (Some all_oi) =>
      Finished
        (Some (map (fun e => (oi_timestamp e, (sumOpenInterest e, sumOpenInterestValue e)))
                 all_oi))
  end.

(** [fetch_binance_futures_data(symbol)], each of its three fetches with its
    own script. *)
Definition fetch_binance_futures_data
  (klines : list (response kline))
  (funding : list (response funding_event))
  (oi : list (response oi_entry)) : run (option frame) :=
  match fst (fetch_pages k_timestamp 1500 1 end_time klines start_time []) with
  | Pending => Pending
  | Finished None => Finished None
  | Finished (Some all_klines) =>
      match fetch_binance_funding_rates funding with
      | Pending => Pending
      | Finished funding_rates =>
          match fetch_binance_open_interest oi with
          | Pending => Pending
          | Finished open_interest =>
              Finished (Some (binance_frame all_klines funding_rates open_interest))
          end
      end
  end.

End Fetch.

End Binance.

(* ===================================================================== *)
(** ** hv_collector.py: the CoinGecko and Kraken frames *)
(* ===================================================================== *)

Module Providers.
Import Pandas Collector Paging.

(** A frame with the columns [date] and [price] only. *)
Definition date_price_row (p : Z * float) : row :=
  mkRow (fst p) (snd p) NaN NaN NaN NaN NaN NaN NaN NaN.

(** [df[['date', 'price']].sort_values('date')] *)
Definition coingecko_frame (prices : list (Z * float)) : frame :=
  mkFrame false false false false false (sort_values (map date_price_row prices)).

(** [pd.isna(coin_id) or coin_id == 'N/A' or coin_id == ''] *)
Definition no_coin_id (coin_id : option string) : bool :=
  match coin_id with
  | None => true
  | Some id => String.eqb id "N/A"%string || String.eqb id EmptyString
  end.

(** [fetch_coingecko_data(coin_id, symbol)].  A page is the [prices] array of
    the answer, empty when the key is absent.  The method calls itself again
    after a 429 answer.  Returns the outcome and the number of requests. *)
Fixpoint fetch_coingecko_data (coin_id : option string)
  (script : list (response (Z * float))) : run (option frame) * nat :=
  if no_coin_id coin_id then (Finished None, 0%nat)
  else
    match script with
    | [] => (Pending, 0%nat)
    | resp :: rest =>
        match resp with
        | Page [] => (Finished None, 1%nat)
        | Page prices => (Finished (Some (coingecko_frame prices)), 1%nat)
        | RateLimited =>
            let (r, n) := fetch_coingecko_data coin_id rest in (r, S n)
        | Failure => (Finished None, 1%nat)
        end
    end.

(** One row of Kraken's OHLC array; the time is in seconds. *)
Record kraken_ohlc := mkOhlc {
  o_timestamp : Z;
  o_open : float;
  o_high : float;
  o_low : float;
  o_close : float;
  o_vwap : float;
  o_volume : float;
  o_count : float
}.

Definition kraken_pairs : list (string * string) :=
  [("BTC", "XXBTZUSD"); ("ETH", "XETHZUSD"); ("XRP", "XXRPZUSD"); ("SOL", "SOLUSD");
   ("DOGE", "XDGUSD"); ("ADA", "ADAUSD"); ("DOT", "DOTUSD"); ("MATIC", "MATICUSD");
   ("LINK", "LINKUSD"); ("AVAX", "AVAXUSD"); ("LTC", "LTCUSD")]%string.

(** [symbol in kraken_pairs] *)
Definition has_kraken_pair (symbol : string) : bool :=
  existsb (fun p => String.eqb (fst p) symbol) kraken_pairs.

(** What the single Kraken request brings back: status 200 with the OHLC
    array of the pair, [None] when [result] or the pair is absent from the
    answer; or anything else. *)
Inductive kraken_response : Type :=
| KrakenOk (result : option (list kraken_ohlc))
| KrakenOther.

Section Range.
(** [self.start_date] and [self.end_date], in milliseconds. *)
Variable start_date end_date : Z.

Definition in_range (r : row) : bool :=
  ((start_date <=? date r) && (date r <=? end_date))%Z.

(** The frame built from the OHLC array: close as price, sorted by date, cut
    to the date range. *)
Definition kraken_frame (ohlc_data : list kraken_ohlc) : frame :=
  mkFrame false false false false false
    (filter in_range
       (sort_values
          (map (fun o => date_price_row ((1000 * o_timestamp o)%Z, o_close o)) ohlc_data))).

(** [fetch_kraken_options_iv(symbol)]: the result and the number of requests
    sent. *)
Definition fetch_kraken_options_iv (symbol : string) (answer : kraken_response)
  : option frame * nat :=
  if negb (has_kraken_pair symbol) then (None, 0%nat)
  else
    match answer with
    | KrakenOk (Some ohlc_data) => (Some (kraken_frame ohlc_data), 1%nat)
    | KrakenOk None => (None, 1%nat)
    | KrakenOther => (None, 1%nat)
    end.

End Range.

End Providers.

Module ProviderNotions.
Import Pandas Collector Binance Providers.

(** A frame as one of the three fetches builds it. *)
Definition provider_frame (f : frame) : Prop :=
  (exists prices, f = coingecko_frame prices)
  \/ (exists all_klines funding_rates open_interest,
        f = binance_frame all_klines funding_rates open_interest)
  \/ (exists start_date end_date ohlc_data, f = kraken_frame start_date end_date ohlc_data).

(** The rates of the funding events that fall on the day starting at [d]. *)
Definition rates_of_day (l : list funding_event) (d : Z) : list float :=
  map fundingRate (filter (fun e => (midnight (fundingTime e) =? d)%Z) l).

(** No two entries carry the same date. *)
Definition distinct_dates {B : Type} (right : option (list (Z * B))) : Prop :=
  match right with
  | Some l => NoDup (map fst l)
  | None => True
  end.

(** The entry a left merge picks for a date when dates are distinct. *)
Definition lookup {B : Type} (right : list (Z * B)) (d : Z) : option B :=
  option_map snd (find (fun e => (fst e =? d)%Z) right).

(** [x is not None] *)
Definition present {B : Type} (x : option B) : bool :=
  match x with Some _ => true | None => false end.

End ProviderNotions.

(* ===================================================================== *)
(** ** Binary64 arithmetic: rounding and library calls *)
(* ===================================================================== *)

(** The modules above compute in exact real arithmetic.  In [Rounded] every
    arithmetic operation of the source rounds its result, and every call
    into NumPy, pandas or SciPy returns what the library returns: the
    rounding and the library functions are the fields of a [platform].
    Binary64's finite range is not modelled (no overflow, no underflow);
    NaN is [None] as before. *)
Module Rounded.
Import Pandas.
Local Open Scope R_scope.
Local Open Scope string_scope.

Record platform := mkPlatform {
  rnd : R -> R;                      (* an exact result rounded to binary64 *)
  lib_log : R -> R;                  (* np.log *)
  lib_exp : R -> R;                  (* np.exp *)
  lib_sqrt : R -> R;                 (* np.sqrt *)
  lib_square : R -> R;               (* x ** 2 *)
  lib_cdf : R -> R;                  (* norm.cdf *)
  lib_pdf : R -> R;                  (* norm.pdf *)
  lib_std : list R -> R;             (* Series.std() of at least two numbers *)
  lib_mean : list R -> R;            (* Series.mean() of at least one number *)
  lib_rolling_std : nat -> series -> R
    (* rolling(w).std() at the last row of a column whose last w cells are
       numbers; pandas updates a running sum, so the value may depend on the
       rows before the window *)
}.

(** The platform that never rounds: the arithmetic of the modules above. *)
Definition unrounded : platform :=
  {| rnd := fun x => x;
     lib_log := ln;
     lib_exp := exp;
     lib_sqrt := sqrt;
     lib_square := fun x => x ^ 2;
     lib_cdf := Options.norm_cdf;
     lib_pdf := Options.norm_pdf;
     lib_std := fun v => sqrt (sqdev v / (INR (length v) - 1));
     lib_mean := mean;
     lib_rolling_std :=
       fun w s => let v := dropna (tail w s) in sqrt (sqdev v / (INR (length v) - 1)) |}.

(** *** What is known of a platform *)

(** Every rounding has relative error at most [u] ([2^-53] for binary64). *)
Definition rounds_within (u : R) (P : platform) : Prop :=
  forall x, Rabs (rnd P x - x) <= u * Rabs x.

(** A binary64 number: rounding leaves it as it is. *)
Definition representable (P : platform) (x : R) : Prop := rnd P x = x.

(** A binary64 number times a power of two is a binary64 number: the
    product is computed without rounding. *)
Definition scales_exactly (P : platform) : Prop :=
  forall (k : Z) (x : R), representable P x -> rnd P (powerRZ 2 k * x) = powerRZ 2 k * x.

(** The contract of the arithmetic and of the library: roundings and the
    elementary functions are within relative error [u]; [exp(0)] is exactly
    1; [norm.cdf] returns a probability and is symmetric,
    [cdf(x) + cdf(-x) = 1], within [eps]; [norm.pdf] is never negative. *)
Record accurate (u eps : R) (P : platform) : Prop := mkAccurate {
  acc_rnd : rounds_within u P;
  acc_log : forall x, 0 < x -> Rabs (lib_log P x - ln x) <= u * Rabs (ln x);
  acc_exp : forall x, Rabs (lib_exp P x - exp x) <= u * exp x;
  acc_exp_0 : lib_exp P 0 = 1;
  acc_sqrt : forall x, 0 <= x -> Rabs (lib_sqrt P x - sqrt x) <= u * sqrt x;
  acc_square : forall x, Rabs (lib_square P x - x ^ 2) <= u * x ^ 2;
  acc_cdf_range : forall x, 0 <= lib_cdf P x <= 1;
  acc_cdf_sym : forall x, Rabs (lib_cdf P x + lib_cdf P (- x) - 1) <= eps;
  acc_pdf_nonneg : forall x, 0 <= lib_pdf P x
}.

(** *** hv_screener_enhanced.py: the pricer *)

(** [K * np.exp(-r * T)] *)
Definition discounted_strike (P : platform) (K T r : R) : R :=
  rnd P (K * lib_exp P (rnd P (- r * T))).

(** [black_scholes(S, K, T, r, sigma, option_type)], operation by
    operation. *)
Definition black_scholes (P : platform) (S K T r sigma : R) (option_type : string)
  : Options.greeks :=
  if Rle_dec T 0 then Options.mkGreeks 0 0 0 0 0
  else if Rle_dec sigma 0 then Options.mkGreeks 0 0 0 0 0
  else
    let f := rnd P in
    let d1 :=
      f (f (lib_log P (f (S / K)) + f (f (r + f (0.5 * lib_square P sigma)) * T))
         / f (sigma * lib_sqrt P T)) in
    let d2 := f (d1 - f (sigma * lib_sqrt P T)) in
    let price :=
      if String.eqb option_type "call"
      then f (f (S * lib_cdf P d1) - f (discounted_strike P K T r * lib_cdf P d2))
      else f (f (discounted_strike P K T r * lib_cdf P (- d2)) - f (S * lib_cdf P (- d1))) in
    let delta :=
      if String.eqb option_type "call" then lib_cdf P d1 else - lib_cdf P (- d1) in
    let gamma := f (lib_pdf P d1 / f (f (S * sigma) * lib_sqrt P T)) in
    let vega := f (f (f (S * lib_pdf P d1) * lib_sqrt P T) / 100) in
    let theta :=
      f (- f (f (f (S * lib_pdf P d1) * sigma) / f (2 * lib_sqrt P T)) / 365) in
    let theta :=
      if String.eqb option_type "put"
      then f (theta - f (f (f (f (r * K) * lib_exp P (f (- r * T))) * lib_cdf P (- d2)) / 365))
      else f (theta - f (f (f (f (r * K) * lib_exp P (f (- r * T))) * lib_cdf P d2) / 365)) in
    Options.mkGreeks price delta gamma theta vega.

(** *** Columns *)

Definition round_cell (P : platform) (a : float) : float :=
  match a with Some x => Some (rnd P x) | None => None end.

(** [a / b] *)
Definition fdiv (P : platform) (a b : float) : float := round_cell P (Pandas.fdiv a b).

(** [a * b] *)
Definition fmul (P : platform) (a b : float) : float := round_cell P (Pandas.fmul a b).

(** [a + b] *)
Definition fadd (P : platform) (a b : float) : float := round_cell P (Pandas.fadd a b).

(** [a ** 2] *)
Definition fsq (P : platform) (a : float) : float :=
  match a with Some x => Some (lib_square P x) | None => None end.

(** [np.log] *)
Definition flog (P : platform) (a : float) : float :=
  match a with
  | Some x => if Rlt_dec 0 x then Some (lib_log P x) else None
  | None => None
  end.

(** [np.sqrt] *)
Definition fsqrt (P : platform) (a : float) : float :=
  match a with
  | Some x => if Rle_dec 0 x then Some (lib_sqrt P x) else None
  | None => None
  end.

(** [Series.std()] *)
Definition std (P : platform) (s : series) : float :=
  let v := dropna s in
  if (length v <=? 1)%nat then NaN else Some (lib_std P v).

(** [Series.mean()] *)
Definition smean (P : platform) (s : series) : float :=
  let v := dropna s in
  if (length v =? 0)%nat then NaN else Some (lib_mean P v).

(** [s.rolling(window=w).std()] at position [i] *)
Definition rolling_std_at (P : platform) (w : nat) (s : series) (i : nat) : float :=
  let v := dropna (tail w (firstn (S i) s)) in
  if (length v <? w)%nat then NaN
  else if (length v <=? 1)%nat then NaN
  else Some (lib_rolling_std P w (firstn (S i) s)).

Definition rolling_std (P : platform) (w : nat) (s : series) : series :=
  map (rolling_std_at P w s) (seq 0 (length s)).

(** [np.log(s / s.shift(1))] *)
Definition log_returns (P : platform) (s : series) : series :=
  map (flog P) (zip_with (fdiv P) s (shift s)).

(** *** hv_screener_enhanced.py: volatility metrics *)

(** [annual_factor = np.sqrt(365)] *)
Definition annual_factor (P : platform) : R := lib_sqrt P 365.

Definition log_ret_col (P : platform) (df : list Screener.ohlcv) : series :=
  log_returns P (map Screener.close df).

Definition hv_col (P : platform) (df : list Screener.ohlcv) (w : nat) : series :=
  map (fun x => fmul P x (fin (annual_factor P))) (rolling_std P w (log_ret_col P df)).

(** [np.sqrt((a**2 + b**2) / 2)] *)
Definition rms (P : platform) (a b : float) : float :=
  fsqrt P (fdiv P (fadd P (fsq P a) (fsq P b)) (fin 2)).

Definition metrics_at (P : platform) (df : list Screener.ohlcv) (vol_windows : list nat)
  (i : nat) (b : Screener.ohlcv) : Screener.metrics_row :=
  let hv_ := fun w => Screener.cell (hv_col P df w) i in
  let r_2_3 :=
    if Screener.has_window 2 vol_windows && Screener.has_window 3 vol_windows
    then Some (rms P (hv_ 2%nat) (hv_ 3%nat)) else None in
  let r_7_14 :=
    if Screener.has_window 7 vol_windows && Screener.has_window 14 vol_windows
    then Some (rms P (hv_ 7%nat) (hv_ 14%nat)) else None in
  {| Screener.bar := b;
     Screener.log_ret := Screener.cell (log_ret_col P df) i;
     Screener.hv := map (fun w => (w, hv_ w)) vol_windows;
     Screener.rms_2_3 := r_2_3;
     Screener.rms_7_14 := r_7_14;
     Screener.rms_vol :=
       match r_7_14 with
       | Some v => v
       | None => match r_2_3 with Some v => v | None => NaN end
       end |}.

Definition all_rows (P : platform) (df : list Screener.ohlcv) (vol_windows : list nat)
  : list Screener.metrics_row :=
  map (fun p => metrics_at P df vol_windows (fst p) (snd p))
      (combine (seq 0 (length df)) df).

(** [calculate_hv_metrics(df, vol_windows)] of the screener *)
Definition calculate_hv_metrics (P : platform) (df : option (list Screener.ohlcv))
  (vol_windows : list nat) : Screener.outcome (list Screener.metrics_row) :=
  match df with
  | None | Some [] => Screener.Returns []
  | Some d =>
      match vol_windows with
      | [] => Screener.ValueError
      | _ =>
          if (length d <? Screener.max_window vol_windows + 1)%nat then Screener.Returns []
          else Screener.Returns (filter Screener.complete (all_rows P d vol_windows))
      end
  end.

(** *** hv_collector.py: the two estimators *)

(** [calculate_historical_volatility(prices, window)] *)
Definition calculate_historical_volatility (P : platform) (prices : series) (window : nat)
  : float :=
  if (length prices <? 2)%nat then NaN
  else fmul P (std P (log_returns P prices)) (fin (lib_sqrt P 365)).

(** [calculate_parkinson_volatility(data)] *)
Definition calculate_parkinson_volatility (P : platform) (f : Collector.frame)
  (data : list Collector.row) : float :=
  if negb (Collector.has_high f && Collector.has_low f) then NaN
  else
    let hl_ratio :=
      map (fun x => fsq P (flog P x))
        (zip_with (fdiv P) (map Collector.high data) (map Collector.low data)) in
    let variance := fdiv P (smean P hl_ratio) (fin (rnd P (4 * lib_log P 2))) in
    fsqrt P (fmul P variance (fin 365)).

(** *** Scaled inputs *)

Definition representable_cell (P : platform) (a : float) : Prop :=
  match a with Some x => representable P x | None => True end.

(** Every price of a bar multiplied by [c]. *)
Definition scale_bar (P : platform) (c : R) (b : Screener.ohlcv) : Screener.ohlcv :=
  Screener.mkBar (Screener.timestamp b)
    (fmul P (fin c) (Screener.open b)) (fmul P (fin c) (Screener.high b))
    (fmul P (fin c) (Screener.low b)) (fmul P (fin c) (Screener.close b))
    (Screener.volume b).

(** A returned row with its input columns scaled and its computed columns
    left as they are. *)
Definition scale_input (P : platform) (c : R) (m : Screener.metrics_row)
  : Screener.metrics_row :=
  Screener.mkMetrics (scale_bar P c (Screener.bar m)) (Screener.log_ret m)
    (Screener.hv m) (Screener.rms_2_3 m) (Screener.rms_7_14 m) (Screener.rms_vol m).

(** High and low of a collector row multiplied by [c]. *)
Definition scale_high_low (P : platform) (c : R) (r : Collector.row) : Collector.row :=
  Collector.mkRow (Collector.date r) (Collector.price r) (Collector.volume r)
    (Collector.quote_volume r) (Collector.trades r) (Collector.funding_rate r)
    (Collector.open_interest r) (Collector.open_interest_value r)
    (fmul P (fin c) (Collector.high r)) (fmul P (fin c) (Collector.low r)).

(** *** A platform whose library calls err within their bounds *)

(** [x] cut to the interval from 0 to 1. *)
Definition clamp (x : R) : R := Rmax 0 (Rmin 1 x).

(** All arithmetic exact; [x ** 2] too large by the relative error [u]; the
    distribution function too large by [eps] at the one argument [x0], and
    cut to the interval from 0 to 1, where the values of a distribution
    function lie.  With [u = eps = 0] no call errs. *)
Definition skewed (u eps x0 : R) : platform :=
  {| rnd := fun x => x;
     lib_log := ln;
     lib_exp := exp;
     lib_sqrt := sqrt;
     lib_square := fun x => x ^ 2 * (1 + u);
     lib_cdf :=
       fun x => clamp (Options.norm_cdf x + (if Req_dec_T x x0 then eps else 0));
     lib_pdf := Options.norm_pdf;
     lib_std := lib_std unrounded;
     lib_mean := lib_mean unrounded;
     lib_rolling_std := lib_rolling_std unrounded |}.

End Rounded.

(** Binary64 itself, on Rocq's primitive floats: the arithmetic operations
    are the processor's. *)
Module Binary64.
Import PrimFloat.
Local Open Scope float_scope.

(** The real number a finite binary64 value stands for. *)
Definition to_real (x : float) : R :=
  match FloatOps.Prim2SF x with
  | SpecFloat.S754_finite s m e =>
      ((if s then -1 else 1) * IZR (Zpos m) * powerRZ 2 e)%R
  | _ => 0%R
  end.

(** [0.1] and [0.2] as Python reads them. *)
Definition tenth : float := 0x1.999999999999ap-4.
Definition fifth : float := 0x1.999999999999ap-3.

(** One cell of [close / close.shift(1)]. *)
Definition ratio (prev cur : float) : float := cur / prev.

(** A price multiplied by [c]. *)
Definition scaled (c x : float) : float := c * x.

(** [d1] and [d2] of [black_scholes], given the value [lg] of
    [np.log(S / K)]. *)
Definition d1 (lg T r sigma : float) : float :=
  (lg + (r + 0.5 * (sigma * sigma)) * T) / (sigma * sqrt T).

Definition d2 (lg T r sigma : float) : float :=
  d1 lg T r sigma - sigma * sqrt T.

Arguments ratio (prev cur)%_float_scope.
Arguments scaled (c x)%_float_scope.
Arguments d1 (lg T r sigma)%_float_scope.
Arguments d2 (lg T r sigma)%_float_scope.

End Binary64.

(* ===================================================================== *)
(** * Properties *)
(* ===================================================================== *)

(** ** Provider fallback *)

Section FallbackOrder.
Import Fallback.

Variable F : fetchers.
Variable a : asset.

Let ok (p : provider) : bool := usable (answer F a p).

(** C8. Providers are tried in the order CoinGecko, Binance, Kraken (CoinGecko
    only when the asset has an id for it).  The providers queried are exactly
    those up to and including the first whose answer is a non-empty frame;
    the result carries that provider's tag alone and that provider's frame,
    unchanged; when none answers, no source is recorded and there is no
    price data. *)
Theorem collect_asset_data_first_usable_wins :
  let ps := filter (eligible a) priority in
  let run := runState (collect_asset_data F a) [] in
  snd run = up_to_first ok ps /\
  match find ok ps with
  | Some p => data_sources (fst run) = [tag p] /\ price_data (fst run) = answer F a p
  | None => data_sources (fst run) = [] /\ price_data (fst run) = None
  end.
Proof.
  unfold ok, collect_asset_data, priority, accept, answer, usable.
  cbn [filter eligible].
  generalize (fetch_coingecko_data F
                match cg_api_id a with Some id => id | None => EmptyString end
                (coin_symbol a)).
  generalize (fetch_binance_futures_data F (coin_symbol a)).
  generalize (fetch_kraken_options_iv F (coin_symbol a)).
  intros d3 d2 d1.
  destruct (has_cg_id a);
    destruct d1 as [[? ? ? ? ? [|? ?]]|];
    destruct d2 as [[? ? ? ? ? [|? ?]]|];
    destruct d3 as [[? ? ? ? ? [|? ?]]|];
    cbn; auto.
Qed.

End FallbackOrder.

(** ** Black-Scholes pricer *)

Section Pricer.
Import Options.
Local Open Scope R_scope.

(** C4. When [T <= 0] or [sigma <= 0] the pricer returns zero for price,
    delta, gamma, theta and vega, from the guard on its first line. *)
Theorem black_scholes_degenerate (S K T r sigma : R) (option_type : string) :
  T <= 0 \/ sigma <= 0 ->
  black_scholes S K T r sigma option_type = mkGreeks 0 0 0 0 0.
Proof.
  intros H. unfold black_scholes.
  destruct (Rle_dec T 0) as [|HT]; [reflexivity|].
  destruct (Rle_dec sigma 0) as [|Hs]; [reflexivity|].
  destruct H; contradiction.
Qed.

Lemma black_scholes_degenerate_witness :
  black_scholes 100 100 0 0.05 0.3 "call" = mkGreeks 0 0 0 0 0 /\
  black_scholes 100 100 1 0.05 0 "call" = mkGreeks 0 0 0 0 0.
Proof.
  split.
  - apply (black_scholes_degenerate 100 100 0 0.05 0.3 "call"). left. lra.
  - apply (black_scholes_degenerate 100 100 1 0.05 0 "call"). right. lra.
Defined.

Lemma sqrt_sqr_pos (T : R) : 0 < T -> 0 < sqrt T /\ sqrt T * sqrt T = T.
Proof.
  intros H. split.
  - now apply sqrt_lt_R0.
  - apply sqrt_sqrt. lra.
Qed.

(** In exact arithmetic, at the money with a zero rate, [d2 = - d1]. *)
Lemma atm_d2_opp_d1 (T sigma : R) :
  0 < T -> 0 < sigma ->
  (0 + (0 + 0.5 * sigma ^ 2) * T) / (sigma * sqrt T) - sigma * sqrt T =
  - ((0 + (0 + 0.5 * sigma ^ 2) * T) / (sigma * sqrt T)).
Proof.
  intros HT Hs. destruct (sqrt_sqr_pos T HT) as [Hq Hqq].
  remember (sqrt T) as q. rewrite <- Hqq.
  replace 0.5 with (1 / 2) by lra. field. lra.
Qed.

(** In exact arithmetic, at the money ([K = S]) with a zero rate, the call
    and the put have the same price. *)
Lemma exact_arithmetic_atm_call_put_equal (S T sigma : R) :
  0 < S -> 0 < T -> 0 < sigma ->
  price (black_scholes S S T 0 sigma "call") =
  price (black_scholes S S T 0 sigma "put").
Proof.
  intros HS HT Hs. unfold black_scholes.
  destruct (Rle_dec T 0); [lra|].
  destruct (Rle_dec sigma 0); [lra|].
  cbn [price String.eqb Ascii.eqb Bool.eqb].
  replace (S / S) with 1 by (field; lra).
  rewrite ln_1.
  replace (- 0 * T) with 0 by ring.
  rewrite exp_0, (atm_d2_opp_d1 T sigma HT Hs), Ropp_involutive.
  ring.
Qed.

End Pricer.

(** ** Theta of the put *)

Section PricerTheta.
Import Options.
Local Open Scope R_scope.

Lemma gauss_le_1 (t : R) : gauss t <= 1.
Proof.
  unfold gauss. rewrite <- exp_0.
  destruct (Req_dec t 0) as [->|Ht].
  - replace (- (0 * 0) / 2) with 0 by lra. lra.
  - left. apply exp_increasing. nra.
Qed.

Lemma sqrt_2PI_gt_2 : 2 < sqrt (2 * PI).
Proof.
  pose proof PI2_3_2 as H. unfold PI2 in H.
  replace 2 with (sqrt 4) at 1.
  - apply sqrt_lt_1; lra.
  - replace 4 with (2 * 2) by lra. apply sqrt_square. lra.
Qed.

(** The distribution function is positive on [[-1, 0]]. *)
Lemma norm_cdf_pos (x : R) : -1 <= x <= 0 -> 0 < norm_cdf x.
Proof.
  intros [Hl Hu]. unfold norm_cdf.
  assert (Hint : - RiemannInt (gauss_integrable 0 x) <= 1).
  { rewrite (RiemannInt_P8 (gauss_integrable 0 x) (gauss_integrable x 0)).
    rewrite Ropp_involutive.
    apply Rle_trans with (RiemannInt (RiemannInt_P14 x 0 1)).
    - apply RiemannInt_P19; [lra|]. intros t _. apply gauss_le_1.
    - rewrite RiemannInt_P15. lra. }
  pose proof sqrt_2PI_gt_2 as Hs.
  set (I := RiemannInt (gauss_integrable 0 x)) in *.
  set (q := sqrt (2 * PI)) in *.
  assert (Hq : 0 < / q) by (apply Rinv_0_lt_compat; lra).
  assert (Hq2 : / q < / 2) by (apply Rinv_lt_contravar; lra).
  unfold Rdiv. nra.
Qed.

(** Gamma and vega do not depend on the side. *)
Lemma black_scholes_gamma_vega_side_independent (S K T r sigma : R) (a b : string) :
  gamma (black_scholes S K T r sigma a) = gamma (black_scholes S K T r sigma b) /\
  vega (black_scholes S K T r sigma a) = vega (black_scholes S K T r sigma b).
Proof.
  unfold black_scholes.
  destruct (Rle_dec T 0); [split; reflexivity|].
  destruct (Rle_dec sigma 0); split; reflexivity.
Qed.

(** C3. The pricer at [S = K = 100], [T = 1], [r = 0.05], [sigma = 0.2], where
    [d1 = 0.35] and [d2 = 0.15].  Gamma and vega agree for the call and the
    put.  Theta is the diffusion term minus the carry term
    [r * K * exp(-r*T) * N(d2) / 365] for the call and minus
    [r * K * exp(-r*T) * N(-d2) / 365] for the put: the carry term is
    subtracted on both sides, so the put theta lies below the diffusion term,
    where a carry term of the opposite sign would put it above. *)
Theorem black_scholes_put_theta_subtracts_carry :
  let S := 100 in
  let K := 100 in
  let T := 1 in
  let r := 0.05 in
  let sigma := 0.2 in
  let d1 := 0.35 in
  let d2 := 0.15 in
  let c := black_scholes S K T r sigma "call" in
  let p := black_scholes S K T r sigma "put" in
  let diffusion := - (S * norm_pdf d1 * sigma / (2 * sqrt T)) / 365 in
  let carry := fun x => r * K * exp (- r * T) * norm_cdf x / 365 in
  gamma c = gamma p /\ vega c = vega p /\
  theta c = diffusion - carry d2 /\
  theta p = diffusion - carry (- d2) /\
  theta p < diffusion.
Proof.
  cbv zeta. unfold black_scholes.
  destruct (Rle_dec 1 0); [lra|].
  destruct (Rle_dec 0.2 0); [lra|].
  cbn [gamma vega theta String.eqb Ascii.eqb Bool.eqb].
  replace (100 / 100) with 1 by lra. rewrite ln_1, sqrt_1.
  replace ((0 + (0.05 + 0.5 * 0.2 ^ 2) * 1) / (0.2 * 1)) with 0.35 by lra.
  replace (0.35 - 0.2 * 1) with 0.15 by lra.
  repeat split; try reflexivity.
  assert (H : 0 < norm_cdf (- (0.15))) by (apply norm_cdf_pos; lra).
  assert (He : 0 < exp (- (0.05) * 1)) by apply exp_pos.
  assert (0 < 0.05 * 100 * exp (- (0.05) * 1) * norm_cdf (- (0.15)) / 365).
  { apply Rdiv_lt_0_compat; [|lra]. apply Rmult_lt_0_compat; [|assumption]. lra. }
  lra.
Qed.
End PricerTheta.

(** ** Log returns and standard deviations *)

Section PandasFacts.
Import Pandas LogReturns.
Local Open Scope R_scope.

Lemma combine_firstn_length {A B} (a : list A) (b : list B) :
  combine a (firstn (length a) b) = combine a b.
Proof.
  revert b. induction a as [|x a IH]; intros [|y b]; simpl; try reflexivity.
  now rewrite IH.
Qed.

Lemma zip_with_cons f x a y b :
  zip_with f (x :: a) (y :: b) = f x y :: zip_with f a b.
Proof. reflexivity. Qed.

Lemma log_returns_rets (s : series) : log_returns s = rets NaN s.
Proof.
  unfold log_returns, zip_with, shift. rewrite combine_firstn_length.
  generalize NaN. induction s as [|x s IH]; intros p; simpl; [reflexivity|].
  now rewrite IH.
Qed.

Lemma rets_length p s : length (rets p s) = length s.
Proof. revert p. induction s; intros; simpl; auto. Qed.

Lemma log_returns_length s : length (log_returns s) = length s.
Proof. rewrite log_returns_rets. apply rets_length. Qed.

Lemma flog_fdiv_pos (x p : R) :
  0 < x -> 0 < p -> flog (fdiv (fin x) (fin p)) = fin (ln (x / p)).
Proof.
  intros Hx Hp. unfold fdiv, fin.
  destruct (Req_dec_T p 0) as [E|_]; [lra|]. unfold flog.
  destruct (Rlt_dec 0 (x / p)) as [_|N]; [reflexivity|].
  exfalso. apply N. now apply Rdiv_lt_0_compat.
Qed.

Lemma rets_positive (p : R) (l : list R) :
  0 < p -> Forall (fun x => 0 < x) l ->
  rets (fin p) (map fin l) = map fin (ln_rets p l).
Proof.
  intros Hp Hl. revert p Hp.
  induction Hl as [|x l Hx Hl IH]; intros p Hp; cbn [rets map ln_rets].
  - reflexivity.
  - rewrite flog_fdiv_pos by assumption. now rewrite IH.
Qed.

Lemma log_returns_positive (p : R) (l : list R) :
  0 < p -> Forall (fun x => 0 < x) l ->
  log_returns (map fin (p :: l)) = NaN :: map fin (ln_rets p l).
Proof.
  intros Hp Hl. rewrite log_returns_rets. cbn [rets map].
  now rewrite rets_positive.
Qed.

Lemma dropna_fin (l : list R) : dropna (map fin l) = l.
Proof. induction l; simpl; congruence. Qed.

Lemma ln_rets_length p l : length (ln_rets p l) = length l.
Proof. revert p. induction l; intros; simpl; auto. Qed.

Lemma std_fin (v : list R) :
  std (map fin v) =
  if (length v <=? 1)%nat then NaN
  else fin (sqrt (sqdev v / (INR (length v) - 1))).
Proof. unfold std. now rewrite dropna_fin. Qed.

Lemma std_nan_cons (s : series) : std (NaN :: s) = std s.
Proof. reflexivity. Qed.

End PandasFacts.

(** ** The collector: values on positive prices *)

Section CollectorFacts.
Import Pandas LogReturns Collector CollectorNotions.
Local Open Scope R_scope.

Lemma positive_prices_fin (l : list row) :
  positive_prices l ->
  map price l = map fin (prices_of l) /\ Forall (fun x => 0 < x) (prices_of l).
Proof.
  unfold prices_of. induction 1 as [|r l Hr Hl [IH1 IH2]]; simpl.
  - split; [reflexivity | constructor].
  - destruct (price r) as [p|]; [|contradiction]. simpl in *.
    split; [unfold fin; now f_equal | now constructor].
Qed.

Lemma prices_of_length l : positive_prices l -> length (prices_of l) = length l.
Proof.
  intros H. destruct (positive_prices_fin l H) as [E _].
  apply (f_equal (@length _)) in E. now rewrite !length_map in E.
Qed.

Lemma sum_zeros (l : list R) : Forall (eq 0) l -> sum l = 0.
Proof. induction 1 as [|x l <- _ IH]; simpl; [reflexivity | rewrite IH; lra]. Qed.

Lemma sqdev_zeros (l : list R) : Forall (eq 0) l -> sqdev l = 0.
Proof.
  intros H. unfold sqdev. apply sum_zeros.
  assert (Hm : mean l = 0) by (unfold mean; rewrite (sum_zeros l H); lra).
  rewrite Hm. clear Hm. induction H as [|x l <- _ IH]; simpl; constructor.
  - lra.
  - exact IH.
Qed.

Lemma calculate_historical_volatility_positive (p : R) (l : list R) (w : nat) :
  0 < p -> Forall (fun x => 0 < x) l ->
  calculate_historical_volatility (map fin (p :: l)) w =
  if (length l <=? 1)%nat then NaN else fin (hv_value p l).
Proof.
  intros Hp Hl. unfold calculate_historical_volatility.
  rewrite log_returns_positive by assumption.
  rewrite std_nan_cons, std_fin, ln_rets_length.
  cbn [length map]. rewrite length_map.
  destruct l as [|x [|y l]]; reflexivity.
Qed.

Lemma calculate_historical_volatility_short (s : series) (w : nat) :
  (length s <= 2)%nat -> Forall positive s -> calculate_historical_volatility s w = NaN.
Proof.
  intros Hn Hs. destruct s as [|[p|] s]; [reflexivity| |inversion Hs; contradiction].
  assert (Hl : exists l, s = map fin l /\ Forall (fun x => 0 < x) l).
  { inversion Hs as [|? ? _ Hs']; subst. clear - Hs'.
    induction Hs' as [|[x|] s Hx _ (l & -> & Hl)]; [now exists []| |contradiction].
    exists (x :: l). split; [reflexivity | now constructor]. }
  destruct Hl as (l & -> & Hl). inversion Hs; subst.
  change (Some p :: map fin l) with (map fin (p :: l)).
  rewrite calculate_historical_volatility_positive by assumption.
  simpl in Hn. rewrite length_map in Hn.
  destruct (Nat.leb_spec (length l) 1); [reflexivity | lia].
Qed.

End CollectorFacts.

Section CollectorWindows.
Import Pandas LogReturns Collector CollectorNotions.
Local Open Scope R_scope.

Lemma Forall_filter_sub {A} (P : A -> Prop) (f : A -> bool) (l : list A) :
  Forall P l -> Forall P (filter f l).
Proof.
  rewrite !Forall_forall. intros H x Hx. apply H.
  now apply filter_In in Hx.
Qed.

Lemma Forall_skipn_sub {A} (P : A -> Prop) (n : nat) (l : list A) :
  Forall P l -> Forall P (skipn n l).
Proof.
  rewrite !Forall_forall. intros H x Hx. apply H.
  rewrite <- (firstn_skipn n l). apply in_or_app. now right.
Qed.

Lemma historical_data_positive pd d w :
  positive_prices pd -> positive_prices (historical_data pd d w).
Proof.
  intros H. unfold historical_data, tail.
  now apply Forall_skipn_sub, Forall_filter_sub.
Qed.

(** The value stored under [hv_{w}d], on positive prices. *)
Lemma hv_of_positive f pd d w :
  positive_prices pd ->
  hv_of f pd d w =
  if (Nat.max 2 (w / 2) <=? length (historical_data pd d w))%nat then
    match prices_of (historical_data pd d w) with
    | [] => NaN
    | p :: l => if (length l <=? 1)%nat then NaN else fin (hv_value p l)
    end
  else NaN.
Proof.
  intros H. unfold hv_of, window_metrics.
  pose proof (historical_data_positive pd d w H) as Hh.
  destruct (positive_prices_fin _ Hh) as [E Hpos].
  destruct (Nat.max 2 (w / 2) <=? length (historical_data pd d w))%nat;
    [|reflexivity].
  cbn [fst]. rewrite E.
  destruct (prices_of (historical_data pd d w)) as [|p l]; [reflexivity|].
  inversion Hpos; subst.
  now apply calculate_historical_volatility_positive.
Qed.

Lemma hv_of_too_few f pd d w :
  (length (historical_data pd d w) < Nat.max 2 (w / 2))%nat ->
  hv_of f pd d w = NaN.
Proof.
  intros H. unfold hv_of, window_metrics.
  destruct (Nat.leb_spec (Nat.max 2 (w / 2)) (length (historical_data pd d w)));
    [lia | reflexivity].
Qed.

Lemma hv_of_enough f pd d w :
  positive_prices pd ->
  (Nat.max 2 (w / 2) <= length (historical_data pd d w))%nat ->
  (3 <= length (historical_data pd d w))%nat ->
  exists v, hv_of f pd d w = fin v.
Proof.
  intros H Hn H3. rewrite hv_of_positive by assumption.
  pose proof (prices_of_length _ (historical_data_positive pd d w H)) as Hlen.
  destruct (Nat.leb_spec (Nat.max 2 (w / 2)) (length (historical_data pd d w)));
    [|lia].
  destruct (prices_of (historical_data pd d w)) as [|p l]; simpl in Hlen; [lia|].
  destruct (Nat.leb_spec (length l) 1); [lia|].
  now exists (hv_value p l).
Qed.

(** With two observations or fewer in the slice there is at most one log
    return, and no standard deviation. *)
Lemma hv_of_two_observations f pd d w :
  positive_prices pd ->
  (length (historical_data pd d w) <= 2)%nat ->
  hv_of f pd d w = NaN.
Proof.
  intros H Hn. rewrite hv_of_positive by assumption.
  pose proof (prices_of_length _ (historical_data_positive pd d w H)) as Hlen.
  destruct (Nat.max 2 (w / 2) <=? length (historical_data pd d w))%nat;
    [|reflexivity].
  destruct (prices_of (historical_data pd d w)) as [|p l]; [reflexivity|].
  simpl in Hlen. destruct (Nat.leb_spec (length l) 1); [reflexivity | lia].
Qed.

Lemma tail_length {A} (n : nat) (l : list A) : length (tail n l) = Nat.min n (length l).
Proof. unfold tail. rewrite length_skipn. lia. Qed.

(** On positive prices [hv_{w}d] is a number exactly when the slice passes
    the threshold and holds at least three observations, that is two log
    returns. *)
Lemma hv_of_defined_iff f pd d w :
  positive_prices pd ->
  (exists v, hv_of f pd d w = fin v) <->
  (Nat.max 2 (w / 2) <= length (historical_data pd d w))%nat /\
  (3 <= length (historical_data pd d w))%nat.
Proof.
  intros H. split.
  - intros [v Hv].
    destruct (Nat.lt_ge_cases (length (historical_data pd d w)) (Nat.max 2 (w / 2)))
      as [Hlt|Hge].
    + rewrite hv_of_too_few in Hv by assumption. discriminate.
    + split; [assumption|].
      destruct (Nat.lt_ge_cases (length (historical_data pd d w)) 3) as [H3|H3];
        [|assumption].
      rewrite hv_of_two_observations in Hv by (assumption || lia). discriminate.
  - intros [Hn H3]. now apply hv_of_enough.
Qed.

(** A window of 2 never yields a value in the collector. *)
Lemma hv_of_window_2 f pd d : positive_prices pd -> hv_of f pd d 2 = NaN.
Proof.
  intros H. apply hv_of_two_observations; [assumption|].
  unfold historical_data. rewrite tail_length. lia.
Qed.

End CollectorWindows.

(** ** The collector: records depend on the rows up to their date *)

Section CollectorNoLookahead.
Import Pandas LogReturns Collector CollectorNotions.
Local Open Scope Z_scope.

Lemma insert_by_date_In r l x : In x (insert_by_date r l) <-> x = r \/ In x l.
Proof.
  induction l as [|y l IH]; simpl.
  - intuition.
  - destruct (date r <=? date y); simpl; rewrite ?IH; intuition.
Qed.

Lemma insert_by_date_sorted r l :
  StronglySorted by_date l -> StronglySorted by_date (insert_by_date r l).
Proof.
  induction 1 as [|y l Hl IH Hy]; simpl.
  - repeat constructor.
  - destruct (Z.leb_spec (date r) (date y)).
    + constructor; [now constructor|]. constructor; [assumption|].
      rewrite Forall_forall in *. intros x Hx. specialize (Hy x Hx).
      unfold by_date in *. lia.
    + constructor; [assumption|]. rewrite Forall_forall in *.
      intros x Hx. apply insert_by_date_In in Hx as [->|Hx].
      * unfold by_date. lia.
      * now apply Hy.
Qed.

Lemma sort_values_sorted l : StronglySorted by_date (sort_values l).
Proof.
  induction l; simpl; [constructor | now apply insert_by_date_sorted].
Qed.

Lemma filter_upto_above t x l :
  t < date x -> Forall (by_date x) l -> filter (upto t) l = [].
Proof.
  intros Hx H. induction H as [|y l Hy _ IH]; simpl; [reflexivity|].
  unfold upto at 1. unfold by_date in Hy.
  destruct (Z.leb_spec (date y) t); [lia | exact IH].
Qed.

Ltac upto_cases t x H :=
  destruct (upto t x) eqn:H; unfold upto in H;
  [apply Z.leb_le in H | apply Z.leb_gt in H].

Lemma filter_upto_insert t r l :
  StronglySorted by_date l ->
  filter (upto t) (insert_by_date r l) =
  if upto t r then insert_by_date r (filter (upto t) l) else filter (upto t) l.
Proof.
  induction 1 as [|y l Hl IH Hy]; cbn [insert_by_date filter].
  - now destruct (upto t r).
  - destruct (Z.leb_spec (date r) (date y)) as [Hry|Hry]; cbn [filter].
    + upto_cases t r Er; upto_cases t y Ey; cbn [insert_by_date]; try lia.
      * destruct (Z.leb_spec (date r) (date y)); [reflexivity | lia].
      * now rewrite (filter_upto_above t y l Ey Hy).
      * reflexivity.
    + rewrite IH.
      upto_cases t r Er; upto_cases t y Ey; cbn [insert_by_date]; try lia;
        try reflexivity.
      destruct (Z.leb_spec (date r) (date y)); [lia | reflexivity].
Qed.

(** Sorting by date and cutting at a date commute. *)
Lemma filter_upto_sort_values t l :
  filter (upto t) (sort_values l) = sort_values (filter (upto t) l).
Proof.
  induction l as [|r l IH]; simpl; [reflexivity|].
  rewrite filter_upto_insert by apply sort_values_sorted.
  rewrite IH. now destruct (upto t r).
Qed.

Lemma filter_comm {A} (f g : A -> bool) (l : list A) :
  filter f (filter g l) = filter g (filter f l).
Proof.
  induction l as [|x l IH]; simpl; [reflexivity|].
  destruct (f x) eqn:Ef, (g x) eqn:Eg; simpl; rewrite ?Ef, ?Eg, IH; reflexivity.
Qed.

Lemma filter_upto_upto d t l :
  d <= t -> filter (upto d) (filter (upto t) l) = filter (upto d) l.
Proof.
  intros H. induction l as [|x l IH]; cbn [filter]; [reflexivity|].
  upto_cases t x Et; cbn [filter]; upto_cases d x Ed;
    rewrite ?IH; try reflexivity; lia.
Qed.

(** The record of a row reads the price data only up to the row's date. *)
Lemma record_of_upto f symbol ws pd1 pd2 r :
  filter (upto (date r)) pd1 = filter (upto (date r)) pd2 ->
  record_of f symbol ws pd1 r = record_of f symbol ws pd2 r.
Proof.
  intros H. unfold record_of, hv_of, parkinson_of, window_metrics, historical_data.
  fold (upto (date r)). now rewrite H.
Qed.

Lemma filter_map_date {B} (g : row -> B) (pb : B -> bool) (p : row -> bool) l :
  (forall r, pb (g r) = p r) -> filter pb (map g l) = map g (filter p l).
Proof.
  intros H. induction l as [|x l IH]; simpl; [reflexivity|].
  rewrite H. destruct (p x); simpl; now rewrite IH.
Qed.

Lemma prepared_upto t l : filter (upto t) (prepared l) = prepared (filter (upto t) l).
Proof.
  unfold prepared, dropna_price. rewrite filter_comm.
  now rewrite filter_upto_sort_values.
Qed.

Lemma records_upto f symbol ws t pd :
  filter (fun rec => r_date rec <=? t) (map (record_of f symbol ws pd) pd) =
  map (record_of f symbol ws (filter (upto t) pd)) (filter (upto t) pd).
Proof.
  rewrite (filter_map_date (record_of f symbol ws pd) _ (upto t)) by reflexivity.
  apply map_ext_in. intros r Hr. apply filter_In in Hr as [_ Hr].
  apply record_of_upto. rewrite filter_upto_upto; [reflexivity|].
  unfold upto in Hr. lia.
Qed.

Lemma hv_metrics_for_upto ws symbol t (v fu oi hi lo : bool) (rows1 rows2 : list row) :
  (2 <= length rows1)%nat -> (2 <= length rows2)%nat ->
  filter (upto t) rows1 = filter (upto t) rows2 ->
  filter (fun rec => r_date rec <=? t)
    (hv_metrics_for ws (Some (mkFrame v fu oi hi lo rows1)) symbol) =
  filter (fun rec => r_date rec <=? t)
    (hv_metrics_for ws (Some (mkFrame v fu oi hi lo rows2)) symbol).
Proof.
  intros H1 H2 H. unfold hv_metrics_for. cbn [rows].
  destruct (Nat.ltb_spec (length rows1) 2); [lia|].
  destruct (Nat.ltb_spec (length rows2) 2); [lia|].
  rewrite !records_upto.
  fold (prepared rows1) (prepared rows2). rewrite !prepared_upto, H.
  apply map_ext. intros r. reflexivity.
Qed.

End CollectorNoLookahead.

(** ** The screener: columns are computed from prefixes *)

Section ScreenerColumns.
Import Pandas LogReturns Screener ScreenerNotions.

Lemma rets_firstn k p s : firstn k (rets p s) = rets p (firstn k s).
Proof.
  revert p k. induction s as [|x s IH]; intros p [|k]; simpl; try reflexivity.
  now rewrite IH.
Qed.

Lemma log_ret_col_firstn k df :
  log_ret_col (firstn k df) = firstn k (log_ret_col df).
Proof.
  unfold log_ret_col. rewrite !log_returns_rets, <- firstn_map.
  symmetry. apply rets_firstn.
Qed.

Lemma log_ret_col_length df : length (log_ret_col df) = length df.
Proof. unfold log_ret_col. now rewrite log_returns_length, length_map. Qed.

Lemma rolling_std_at_firstn w k s i :
  (i < k)%nat -> rolling_std_at w (firstn k s) i = rolling_std_at w s i.
Proof.
  intros H. unfold rolling_std_at. rewrite firstn_firstn.
  now replace (Nat.min (S i) k) with (S i) by lia.
Qed.

Lemma cell_nan_beyond col i : (length col <= i)%nat -> cell col i = NaN.
Proof. intros H. unfold cell. now apply nth_overflow. Qed.

Lemma nth_map_in_range {A B} (f : A -> B) (l : list A) (i : nat) (d : B) (d' : A) :
  (i < length l)%nat -> nth i (map f l) d = f (nth i l d').
Proof.
  revert i. induction l as [|x l IH]; intros [|i] H; simpl in *; try lia.
  - reflexivity.
  - apply IH. lia.
Qed.

Lemma cell_hv_col df w i :
  (i < length df)%nat ->
  cell (hv_col df w) i =
  fmul (rolling_std_at w (log_ret_col df) i) (fin annual_factor).
Proof.
  intros H. unfold cell, hv_col, rolling_std.
  rewrite log_ret_col_length.
  rewrite (nth_map_in_range _ _ _ _ NaN) by now rewrite length_map, length_seq.
  rewrite (nth_map_in_range _ _ _ _ 0%nat) by now rewrite length_seq.
  now rewrite seq_nth.
Qed.

Lemma cell_firstn col k i : (i < k)%nat -> cell (firstn k col) i = cell col i.
Proof.
  intros H. unfold cell. rewrite nth_firstn.
  destruct (Nat.ltb_spec i k); [reflexivity | lia].
Qed.

Lemma cell_hv_col_firstn df w k i :
  (i < k)%nat -> (i < length df)%nat ->
  cell (hv_col (firstn k df) w) i = cell (hv_col df w) i.
Proof.
  intros Hk Hn. rewrite !cell_hv_col; rewrite ?length_firstn; try lia.
  now rewrite log_ret_col_firstn, rolling_std_at_firstn.
Qed.

(** Row [i] is computed from the first [i + 1] input rows. *)
Lemma metrics_at_firstn df ws k i b :
  (i < k)%nat -> (i < length df)%nat ->
  metrics_at (firstn k df) ws i b = metrics_at df ws i b.
Proof.
  intros Hk Hn. unfold metrics_at.
  rewrite log_ret_col_firstn, cell_firstn by assumption.
  rewrite !cell_hv_col_firstn by assumption.
  f_equal. apply map_ext. intros w. now rewrite cell_hv_col_firstn.
Qed.

Lemma firstn_seq_min k s n : firstn k (seq s n) = seq s (Nat.min k n).
Proof.
  revert s n. induction k as [|k IH]; intros s [|n]; simpl; try reflexivity.
  now rewrite IH.
Qed.

Lemma all_rows_firstn df ws k :
  all_rows (firstn k df) ws = firstn k (all_rows df ws).
Proof.
  unfold all_rows. rewrite firstn_map, combine_firstn, firstn_seq_min.
  rewrite length_firstn.
  apply map_ext_in. intros [i b] Hin. cbn [fst snd].
  apply in_combine_l in Hin. apply in_seq in Hin.
  apply metrics_at_firstn; lia.
Qed.

Lemma all_rows_bar df ws : map bar (all_rows df ws) = df.
Proof.
  unfold all_rows. rewrite map_map. cbn [bar metrics_at].
  change (fun x : nat * ohlcv => snd x) with (@snd nat ohlcv).
  generalize 0%nat. induction df as [|b df IH]; intros s; simpl; [reflexivity|].
  now rewrite IH.
Qed.

Lemma all_rows_length df ws : length (all_rows df ws) = length df.
Proof. rewrite <- (all_rows_bar df ws) at 2. now rewrite length_map. Qed.

End ScreenerColumns.

(** ** The screener: what [dropna()] removes *)

Section ScreenerDropna.
Import Pandas LogReturns Screener ScreenerNotions.

Lemma dropna_length_le s : (length (dropna s) <= length s)%nat.
Proof. induction s as [|[x|] s IH]; simpl; lia. Qed.

Lemma tail_short {A} (w : nat) (l : list A) : (length l <= w)%nat -> tail w l = l.
Proof. intros H. unfold tail. now replace (length l - w)%nat with 0%nat by lia. Qed.

Lemma log_ret_col_head df : cell (log_ret_col df) 0 = NaN.
Proof.
  unfold log_ret_col. rewrite log_returns_rets.
  destruct df as [|b df]; [reflexivity|]. cbn [map rets cell nth].
  now destruct (close b).
Qed.

(** The first [w] cells of [hv_w] are NaN: their window reaches back to the
    first log return, which is undefined. *)
Lemma rolling_std_at_early w s i :
  cell s 0 = NaN -> (i < w)%nat -> rolling_std_at w s i = NaN.
Proof.
  intros H0 Hi. unfold rolling_std_at.
  rewrite tail_short by (rewrite length_firstn; lia).
  assert (Hlen : (length (dropna (firstn (S i) s)) < w)%nat).
  { destruct s as [|x s]; [simpl; lia|].
    unfold cell in H0. simpl in H0. subst x. cbn [firstn dropna].
    pose proof (dropna_length_le (firstn i s)) as Hd.
    rewrite length_firstn in Hd. unfold NaN. cbn [dropna]. lia. }
  now destruct (Nat.ltb_spec (length (dropna (firstn (S i) s))) w); [|lia].
Qed.

Lemma cell_hv_col_early df w i : (i < w)%nat -> cell (hv_col df w) i = NaN.
Proof.
  intros Hi. destruct (Nat.lt_ge_cases i (length df)) as [Hn|Hn].
  - rewrite cell_hv_col by assumption.
    now rewrite rolling_std_at_early by (auto using log_ret_col_head).
  - apply cell_nan_beyond. unfold hv_col, rolling_std.
    now rewrite !length_map, length_seq, log_ret_col_length.
Qed.

Lemma max_window_in ws : ws <> [] -> In (max_window ws) ws.
Proof.
  induction ws as [|w ws IH]; [congruence|]. intros _. cbn [max_window fold_right].
  destruct ws as [|w' ws].
  - left. simpl. lia.
  - fold (max_window (w' :: ws)).
    destruct (Nat.max_spec w (max_window (w' :: ws))) as [[_ ->]|[_ ->]].
    + right. apply IH. congruence.
    + now left.
Qed.

Lemma complete_hv m : complete m = true ->
  forall w v, In (w, v) (hv m) -> isna v = false.
Proof.
  unfold complete. rewrite !andb_true_iff. intros H w v Hin.
  destruct H as [[[[_ H] _] _] _]. rewrite forallb_forall in H.
  specialize (H _ Hin). simpl in H. now destruct (isna v).
Qed.

Lemma metrics_at_early df ws i b :
  (i < max_window ws)%nat -> ws <> [] -> complete (metrics_at df ws i b) = false.
Proof.
  intros Hi Hws. destruct (complete (metrics_at df ws i b)) eqn:E; [|reflexivity].
  pose proof (complete_hv _ E (max_window ws)
                (cell (hv_col df (max_window ws)) i)) as H.
  rewrite cell_hv_col_early in H by assumption.
  assert (isna NaN = false); [|discriminate].
  apply H. cbn [hv metrics_at].
  apply in_map_iff. exists (max_window ws). split.
  - now rewrite cell_hv_col_early.
  - now apply max_window_in.
Qed.

(** No row among the first [max(vol_windows)] survives [dropna()]. *)
Lemma early_rows_dropped df ws :
  ws <> [] -> filter complete (firstn (max_window ws) (all_rows df ws)) = [].
Proof.
  intros Hws.
  destruct (filter complete (firstn (max_window ws) (all_rows df ws)))
    as [|m l] eqn:E; [reflexivity|].
  assert (Hin : In m (filter complete (firstn (max_window ws) (all_rows df ws))))
    by (rewrite E; now left).
  apply filter_In in Hin as [Hin Hc].
  unfold all_rows in Hin.
  rewrite firstn_map, combine_firstn, firstn_seq_min in Hin.
  apply in_map_iff in Hin as ([i b] & <- & Hin).
  apply in_combine_l in Hin. apply in_seq in Hin. cbn [fst snd] in Hc.
  rewrite metrics_at_early in Hc by (assumption || lia). discriminate.
Qed.

Lemma dropna_skips_early df ws :
  ws <> [] ->
  filter complete (all_rows df ws) =
  filter complete (skipn (max_window ws) (all_rows df ws)).
Proof.
  intros Hws.
  rewrite <- (firstn_skipn (max_window ws) (all_rows df ws)) at 1.
  now rewrite filter_app, early_rows_dropped.
Qed.

(** The length guard only short-cuts: a frame that short has no complete row. *)
Lemma calculate_hv_metrics_rows d ws :
  ws <> [] ->
  calculate_hv_metrics (Some d) ws = Returns (filter complete (all_rows d ws)).
Proof.
  intros Hws. unfold calculate_hv_metrics.
  destruct d as [|b d]; [reflexivity|].
  destruct ws as [|w ws]; [congruence|].
  destruct (Nat.ltb_spec (length (b :: d)) (max_window (w :: ws) + 1)) as [H|H];
    [|reflexivity].
  rewrite dropna_skips_early by assumption.
  rewrite skipn_all2; [reflexivity|]. rewrite all_rows_length. lia.
Qed.

End ScreenerDropna.

Section ScreenerNoLookahead.
Import Pandas LogReturns Screener ScreenerNotions.
Local Open Scope Z_scope.

Lemma filter_until_above t x l :
  t < timestamp x -> Forall (fun y => timestamp x <= timestamp y) l ->
  filter (until t) l = [].
Proof.
  intros Hx H. induction H as [|y l Hy _ IH]; cbn [filter]; [reflexivity|].
  unfold until at 1. destruct (Z.leb_spec (timestamp y) t); [lia | exact IH].
Qed.

(** In a frame in date order the rows up to a date are a prefix. *)
Lemma filter_until_prefix t df :
  ascending df -> filter (until t) df = firstn (length (filter (until t) df)) df.
Proof.
  induction 1 as [|x l Hl IH Hx]; cbn [filter]; [reflexivity|].
  destruct (until t x) eqn:H.
  - cbn [length firstn]. now rewrite <- IH.
  - unfold until in H. apply Z.leb_gt in H.
    now rewrite (filter_until_above t x l H Hx).
Qed.

Lemma filter_map_length {A B} (g : A -> B) (p : A -> bool) (q : B -> bool) l :
  (forall x, q (g x) = p x) -> length (filter q (map g l)) = length (filter p l).
Proof.
  intros H. induction l as [|x l IH]; simpl; [reflexivity|].
  rewrite H. destruct (p x); simpl; now rewrite IH.
Qed.

Lemma filter_prefix_map {A B} (g : A -> B) (q : B -> bool) (l : list A) :
  filter q (map g l) = firstn (length (filter q (map g l))) (map g l) ->
  filter (fun x => q (g x)) l = firstn (length (filter (fun x => q (g x)) l)) l.
Proof.
  revert q. induction l as [|x l IH]; intros q; cbn [map filter]; [reflexivity|].
  destruct (q (g x)) eqn:E; cbn [length firstn].
  - intros H. injection H as H. now rewrite <- (IH q H).
  - destruct (filter q (map g l)) as [|y l'] eqn:F.
    + intros _.
      assert (Hl : length (filter (fun x => q (g x)) l) = 0%nat).
      { rewrite <- (filter_map_length g (fun x => q (g x)) q) by reflexivity.
        now rewrite F. }
      destruct (filter (fun x0 : A => q (g x0)) l); [reflexivity | discriminate].
    + cbn [length firstn]. intros H. injection H as -> _.
      assert (Hin : In (g x) (filter q (map g l))) by (rewrite F; now left).
      apply filter_In in Hin as [_ Hq]. congruence.
Qed.

Lemma all_rows_until t df ws :
  ascending df ->
  filter (fun m => until t (bar m)) (all_rows df ws) =
  all_rows (filter (until t) df) ws.
Proof.
  intros Hs. pose proof (filter_until_prefix t df Hs) as Hp.
  assert (Hr : filter (fun m => until t (bar m)) (all_rows df ws) =
               firstn (length (filter (fun m => until t (bar m)) (all_rows df ws)))
                 (all_rows df ws)).
  { apply (filter_prefix_map bar (until t)). now rewrite all_rows_bar. }
  rewrite Hr.
  rewrite <- (filter_map_length bar _ (until t)) by reflexivity.
  rewrite all_rows_bar, <- all_rows_firstn. now rewrite <- Hp.
Qed.

(** What the screener returns up to a date is computed from the input up to
    that date. *)
Lemma returned_until t df ws :
  ascending df ->
  filter (fun m => until t (bar m)) (returned (calculate_hv_metrics (Some df) ws)) =
  returned (calculate_hv_metrics (Some (filter (until t) df)) ws).
Proof.
  intros Hs. destruct ws as [|w ws].
  - unfold calculate_hv_metrics.
    destruct df as [|b df]; [reflexivity|].
    now destruct (filter (until t) (b :: df)).
  - rewrite !calculate_hv_metrics_rows by congruence. cbn [returned].
    now rewrite filter_comm, all_rows_until.
Qed.

End ScreenerNoLookahead.

(** ** Constant series *)

Section Constant.
Import Pandas LogReturns.
Local Open Scope R_scope.

Lemma rets_constant (c : R) (p : float) (s : series) :
  0 < c -> p = NaN \/ p = fin c -> Forall (eq (fin c)) s ->
  Forall nan_or_zero (rets p s).
Proof.
  intros Hc Hp Hs. revert p Hp.
  induction Hs as [|x s <- _ IH]; intros p Hp; cbn [rets]; constructor.
  - destruct Hp as [->| ->]; [now left|]. right.
    rewrite flog_fdiv_pos by assumption.
    replace (c / c) with 1 by (field; lra). now rewrite ln_1.
  - apply IH. now right.
Qed.

Lemma dropna_zeros (s : series) : Forall nan_or_zero s -> Forall (eq 0) (dropna s).
Proof.
  induction 1 as [|x s [-> | ->] _ IH]; unfold NaN, fin; cbn [dropna]; auto.
Qed.

Lemma std_zeros (s : series) : Forall nan_or_zero s -> nan_or_zero (std s).
Proof.
  intros H. unfold std. apply dropna_zeros in H.
  destruct (length (dropna s) <=? 1)%nat; [now left|]. right.
  rewrite (sqdev_zeros _ H). unfold fin. f_equal.
  replace (0 / (INR (length (dropna s)) - 1)) with 0 by (unfold Rdiv; ring).
  apply sqrt_0.
Qed.

Lemma fmul_zero (x : float) (k : R) : nan_or_zero x -> nan_or_zero (fmul x (fin k)).
Proof.
  intros [->| ->]; [now left|]. right. unfold fmul, fin. f_equal. ring.
Qed.

Lemma Forall_firstn_sub {A} (P : A -> Prop) (n : nat) (l : list A) :
  Forall P l -> Forall P (firstn n l).
Proof.
  rewrite !Forall_forall. intros H x Hx. apply H.
  rewrite <- (firstn_skipn n l). apply in_or_app. now left.
Qed.

Lemma rolling_std_at_zeros w s i :
  Forall nan_or_zero s -> nan_or_zero (rolling_std_at w s i).
Proof.
  intros H. unfold rolling_std_at.
  destruct (length (dropna (tail w (firstn (S i) s))) <? w)%nat; [now left|].
  apply std_zeros. unfold tail. now apply Forall_skipn_sub, Forall_firstn_sub.
Qed.

Lemma log_returns_constant (c : R) (s : series) :
  0 < c -> Forall (eq (fin c)) s -> Forall nan_or_zero (log_returns s).
Proof.
  intros Hc Hs. rewrite log_returns_rets. apply (rets_constant c); auto.
Qed.

Lemma calculate_historical_volatility_constant (c : R) (s : series) (w : nat) :
  0 < c -> Forall (eq (fin c)) s ->
  nan_or_zero (Collector.calculate_historical_volatility s w).
Proof.
  intros Hc Hs. unfold Collector.calculate_historical_volatility.
  destruct (length s <? 2)%nat; [now left|].
  apply fmul_zero, std_zeros. now apply (log_returns_constant c).
Qed.

Lemma hv_col_constant (c : R) (df : list Screener.ohlcv) (w i : nat) :
  0 < c -> Forall (fun b => Screener.close b = fin c) df ->
  nan_or_zero (Screener.cell (Screener.hv_col df w) i).
Proof.
  intros Hc Hs. destruct (Nat.lt_ge_cases i (length df)) as [Hn|Hn].
  - rewrite cell_hv_col by assumption.
    apply fmul_zero, rolling_std_at_zeros. unfold Screener.log_ret_col.
    apply (log_returns_constant c); [assumption|].
    clear - Hs. induction Hs as [|b df Hb _ IH]; cbn [map]; constructor; auto.
  - left. apply cell_nan_beyond. unfold Screener.hv_col, rolling_std.
    now rewrite !length_map, length_seq, log_ret_col_length.
Qed.

End Constant.

Section CollectorConstant.
Import Pandas LogReturns Collector CollectorNotions.
Local Open Scope R_scope.

Lemma sort_values_In x l : In x (sort_values l) <-> In x l.
Proof.
  induction l as [|r l IH]; cbn [sort_values fold_right]; [reflexivity|].
  fold (sort_values l). rewrite insert_by_date_In, IH. simpl. intuition.
Qed.

Lemma prepared_sub (P : row -> Prop) (l : list row) :
  Forall P l -> Forall P (prepared l).
Proof.
  intros H. unfold prepared, dropna_price. apply Forall_filter_sub.
  rewrite Forall_forall in *. intros x Hx. apply H. now apply sort_values_In.
Qed.

Lemma hv_of_constant (c : R) f pd d w :
  0 < c -> Forall (fun r => price r = fin c) pd -> nan_or_zero (hv_of f pd d w).
Proof.
  intros Hc H. unfold hv_of, window_metrics.
  destruct (Nat.max 2 (w / 2) <=? length (historical_data pd d w))%nat;
    cbn [fst]; [|now left].
  apply (calculate_historical_volatility_constant c); [assumption|].
  assert (Hh : Forall (fun r => price r = fin c) (historical_data pd d w)).
  { unfold historical_data, tail. now apply Forall_skipn_sub, Forall_filter_sub. }
  induction Hh as [|r h Hr _ IH]; cbn [map]; constructor; auto.
Qed.

Lemma records_constant (c : R) ws f symbol :
  0 < c -> Forall (fun r => price r = fin c) (rows f) ->
  Forall (fun rec => Forall (fun e => nan_or_zero (snd e)) (hv rec))
    (hv_metrics_for ws (Some f) symbol).
Proof.
  intros Hc H. unfold hv_metrics_for.
  destruct (length (rows f) <? 2)%nat; [constructor|].
  fold (prepared (rows f)). pose proof (prepared_sub _ _ H) as Hp.
  apply Forall_forall. intros rec Hin. apply in_map_iff in Hin as (r & <- & _).
  cbn [hv record_of]. apply Forall_forall. intros e He.
  apply in_map_iff in He as (w & <- & _). cbn [snd].
  now apply (hv_of_constant c).
Qed.

End CollectorConstant.

Section ScreenerConstant.
Import Pandas LogReturns Screener ScreenerNotions.
Local Open Scope R_scope.

Lemma returned_constant (c : R) df ws :
  0 < c -> Forall (fun b => close b = fin c) df ->
  Forall (fun m => Forall (fun e => nan_or_zero (snd e)) (hv m))
    (returned (calculate_hv_metrics (Some df) ws)).
Proof.
  intros Hc H. destruct ws as [|w0 ws].
  - unfold calculate_hv_metrics. destruct df; constructor.
  - rewrite calculate_hv_metrics_rows by congruence. cbn [returned].
    apply Forall_filter_sub. unfold all_rows.
    apply Forall_forall. intros m Hin. apply in_map_iff in Hin as ([i b] & <- & _).
    cbn [hv metrics_at fst snd]. apply Forall_forall. intros e He.
    apply in_map_iff in He as (w & <- & _). cbn [snd].
    now apply (hv_col_constant c).
Qed.

End ScreenerConstant.

(** ** Scaling the prices *)

Section ScaleInvariance.
Import Pandas LogReturns Scaling.
Local Open Scope R_scope.

Variable c : R.
Hypothesis c_pos : 0 < c.

Lemma fdiv_scale (a b : float) : fdiv (fmul (fin c) a) (fmul (fin c) b) = fdiv a b.
Proof.
  destruct a as [x|], b as [y|]; try reflexivity. unfold fmul, fin, fdiv.
  destruct (Req_dec_T (c * y) 0) as [E|E], (Req_dec_T y 0) as [E'|E'];
    try reflexivity.
  - exfalso. apply E'. nra.
  - exfalso. apply E. subst y. ring.
  - f_equal. field. split; lra.
Qed.

Lemma rets_scale (p : float) (s : series) :
  rets (fmul (fin c) p) (map (fmul (fin c)) s) = rets p s.
Proof.
  revert p. induction s as [|x s IH]; intros p; cbn [map rets]; [reflexivity|].
  now rewrite fdiv_scale, IH.
Qed.

Lemma log_returns_scale (s : series) :
  log_returns (map (fmul (fin c)) s) = log_returns s.
Proof. rewrite !log_returns_rets. apply (rets_scale NaN). Qed.

Lemma calculate_historical_volatility_scale (s : series) (w : nat) :
  Collector.calculate_historical_volatility (map (fmul (fin c)) s) w =
  Collector.calculate_historical_volatility s w.
Proof.
  unfold Collector.calculate_historical_volatility.
  now rewrite length_map, log_returns_scale.
Qed.

Lemma zip_with_fdiv_scale (a b : series) :
  zip_with fdiv (map (fmul (fin c)) a) (map (fmul (fin c)) b) = zip_with fdiv a b.
Proof.
  unfold zip_with. revert b. induction a as [|x a IH]; intros [|y b];
    cbn [map combine]; try reflexivity.
  cbn [fst snd]. now rewrite fdiv_scale, IH.
Qed.

Lemma calculate_parkinson_volatility_scale f data :
  Collector.calculate_parkinson_volatility f (map (scale_high_low c) data) =
  Collector.calculate_parkinson_volatility f data.
Proof.
  unfold Collector.calculate_parkinson_volatility.
  rewrite !map_map. cbn [Collector.high Collector.low scale_high_low].
  rewrite <- (map_map Collector.high (fmul (fin c))).
  rewrite <- (map_map Collector.low (fmul (fin c))).
  now rewrite zip_with_fdiv_scale.
Qed.

Lemma log_ret_col_scale df :
  Screener.log_ret_col (map (scale_bar c) df) = Screener.log_ret_col df.
Proof.
  unfold Screener.log_ret_col. rewrite map_map. cbn [Screener.close scale_bar].
  rewrite <- (map_map Screener.close (fmul (fin c))). apply log_returns_scale.
Qed.

Lemma hv_col_scale df w :
  Screener.hv_col (map (scale_bar c) df) w = Screener.hv_col df w.
Proof. unfold Screener.hv_col. now rewrite log_ret_col_scale. Qed.

Lemma metrics_at_scale df ws i b :
  Screener.metrics_at (map (scale_bar c) df) ws i (scale_bar c b) =
  scale_input c (Screener.metrics_at df ws i b).
Proof.
  unfold Screener.metrics_at, scale_input. cbn.
  rewrite log_ret_col_scale, !hv_col_scale. f_equal.
  apply map_ext. intros w. now rewrite hv_col_scale.
Qed.

Lemma all_rows_scale df ws :
  Screener.all_rows (map (scale_bar c) df) ws =
  map (scale_input c) (Screener.all_rows df ws).
Proof.
  unfold Screener.all_rows. rewrite length_map, map_map.
  generalize (seq 0 (length df)). intros idx.
  transitivity
    (map (fun p => Screener.metrics_at (map (scale_bar c) df) ws (fst p)
                     (scale_bar c (snd p))) (combine idx df)).
  - revert idx. generalize (Screener.metrics_at (map (scale_bar c) df) ws) as g.
    intros g. induction df as [|b l IH]; intros [|i idx]; cbn [map combine];
      try reflexivity.
    cbn [fst snd]. now rewrite IH.
  - apply map_ext. intros [i b]. apply metrics_at_scale.
Qed.

Lemma isna_scale (x : float) : isna (fmul (fin c) x) = isna x.
Proof. now destruct x. Qed.

Lemma complete_scale m : Screener.complete (scale_input c m) = Screener.complete m.
Proof.
  unfold Screener.complete, scale_input.
  cbn [Screener.bar Screener.open Screener.high Screener.low Screener.close
       Screener.volume Screener.log_ret Screener.hv Screener.rms_2_3
       Screener.rms_7_14 Screener.rms_vol scale_bar].
  now rewrite !isna_scale.
Qed.

Lemma filter_complete_scale l :
  filter Screener.complete (map (scale_input c) l) =
  map (scale_input c) (filter Screener.complete l).
Proof.
  induction l as [|m l IH]; cbn [map filter]; [reflexivity|].
  rewrite complete_scale. destruct (Screener.complete m); cbn [map]; now rewrite IH.
Qed.

Lemma calculate_hv_metrics_scale df ws :
  Screener.calculate_hv_metrics (Some (map (scale_bar c) df)) ws =
  outcome_map (map (scale_input c)) (Screener.calculate_hv_metrics (Some df) ws).
Proof.
  unfold Screener.calculate_hv_metrics.
  destruct df as [|b df]; [reflexivity|]. cbn [map].
  destruct ws as [|w ws]; [reflexivity|].
  change (scale_bar c b :: map (scale_bar c) df) with (map (scale_bar c) (b :: df)).
  rewrite length_map.
  destruct (length (b :: df) <? Screener.max_window (w :: ws) + 1)%nat;
    [reflexivity|].
  cbn [outcome_map]. now rewrite all_rows_scale, filter_complete_scale.
Qed.

End ScaleInvariance.

(** ** The screener's window against the trailing returns *)

Section ScreenerTrailingReturns.
Import Pandas LogReturns Spec Screener ScreenerNotions.
Local Open Scope R_scope.

Lemma firstn_nth_seq {A} (d : A) (w : nat) (l : list A) :
  (w <= length l)%nat -> firstn w l = map (fun j => nth j l d) (seq 0 w).
Proof.
  revert w. induction l as [|x l IH]; intros [|w] H; simpl in *; try lia;
    try reflexivity.
  rewrite <- seq_shift, map_map. f_equal. apply IH. lia.
Qed.

Lemma skipn_firstn_nth_seq {A} (d : A) (a w : nat) (l : list A) :
  (a + w <= length l)%nat ->
  skipn a (firstn (a + w) l) = map (fun j => nth j l d) (seq a w).
Proof.
  revert a. induction l as [|x l IH]; intros [|a] H; simpl in *.
  - assert (w = 0)%nat as -> by lia. reflexivity.
  - lia.
  - now apply (firstn_nth_seq d w (x :: l)).
  - rewrite <- seq_shift, map_map. apply IH. lia.
Qed.

Lemma tail_firstn_nth_seq {A} (d : A) (w k : nat) (l : list A) :
  (w <= k <= length l)%nat ->
  tail w (firstn k l) = map (fun j => nth j l d) (seq (k - w) w).
Proof.
  intros H. unfold tail. rewrite length_firstn.
  replace (Nat.min k (length l)) with k by lia.
  replace k with ((k - w) + w)%nat at 2 by lia.
  apply skipn_firstn_nth_seq. lia.
Qed.

Lemma nth_ln_rets (p : R) (l : list R) (k : nat) :
  (k < length l)%nat -> nth k (ln_rets p l) 0 = log_return (p :: l) (S k).
Proof.
  revert p k. induction l as [|x l IH]; intros p [|k] H; simpl in H; try lia.
  - reflexivity.
  - cbn [ln_rets nth]. rewrite IH by lia. unfold log_return.
    cbn [nth Nat.sub]. now rewrite Nat.sub_0_r.
Qed.

Lemma nth_log_returns_positive (p : R) (l : list R) (j : nat) :
  0 < p -> Forall (fun x => 0 < x) l -> (1 <= j <= length l)%nat ->
  nth j (log_returns (map fin (p :: l))) NaN = fin (log_return (p :: l) j).
Proof.
  intros Hp Hl Hj. rewrite log_returns_positive by assumption.
  destruct j as [|k]; [lia|]. cbn [nth].
  rewrite (nth_map_in_range fin _ _ _ 0) by (rewrite ln_rets_length; lia).
  rewrite nth_ln_rets by lia. reflexivity.
Qed.

(** The screener's [hv_w] cell at position [i >= w] is the standard deviation
    of the [w] log returns ending at [i], times [sqrt(365)]. *)
Lemma screener_hv_is_trailing_returns (df : list ohlcv) (prices : list R) (w i : nat) :
  map close df = map fin prices -> Forall (fun x => 0 < x) prices ->
  (w <= i < length df)%nat ->
  cell (hv_col df w) i = hv_trailing prices w i.
Proof.
  intros Hc Hpos Hi.
  assert (Hlen : length prices = length df).
  { apply (f_equal (@length _)) in Hc. now rewrite !length_map in Hc. }
  rewrite cell_hv_col by lia. unfold hv_trailing, annual_factor. f_equal.
  unfold rolling_std_at, log_ret_col. rewrite Hc.
  destruct prices as [|p l]; [simpl in Hlen; lia|].
  inversion Hpos as [|? ? Hp Hl]; subst.
  assert (Hwin : tail w (firstn (S i) (log_returns (map fin (p :: l)))) =
                 map fin (trailing_log_returns (p :: l) w i)).
  { rewrite (tail_firstn_nth_seq NaN)
      by (rewrite log_returns_length, length_map; simpl in *; lia).
    unfold trailing_log_returns. rewrite map_map.
    replace (i + 1 - w)%nat with (S i - w)%nat by lia.
    apply map_ext_in. intros j Hj. apply in_seq in Hj.
    apply nth_log_returns_positive; try assumption. simpl in Hlen. lia. }
  rewrite Hwin, dropna_fin. unfold trailing_log_returns.
  rewrite length_map, length_seq.
  now rewrite Nat.ltb_irrefl.
Qed.

(** The end-to-end scenario of the specification, on the screener: prices
    100, 101, 99, 102, 98 and window 2. *)
Lemma screener_hv_2_scenario :
  let df := Bars.daily_bars [100; 101; 99; 102; 98] in
  cell (hv_col df 2) 1 = NaN /\
  cell (hv_col df 2) 2 =
  fmul (std [fin (ln (101 / 100)); fin (ln (99 / 101))]) (fin (sqrt 365)).
Proof.
  cbv zeta. split.
  - apply cell_hv_col_early. lia.
  - rewrite (screener_hv_is_trailing_returns _ [100; 101; 99; 102; 98]).
    + reflexivity.
    + reflexivity.
    + repeat constructor; lra.
    + cbn. lia.
Qed.

End ScreenerTrailingReturns.

(** ** The collector's window against the trailing returns *)

Section TrailingWindow.
Import Pandas LogReturns Spec Collector CollectorNotions.
Local Open Scope R_scope.

Lemma ln_2_pos : 0 < ln 2.
Proof. rewrite <- ln_1. apply ln_increasing; lra. Qed.

Lemma hv_value_sevens : hv_value 2 [2; 2; 2; 2; 2; 2] = 0.
Proof.
  unfold hv_value. rewrite sqdev_zeros.
  - replace (0 / (INR (length [2; 2; 2; 2; 2; 2]) - 1)) with 0
      by (unfold Rdiv; ring).
    rewrite sqrt_0. ring.
  - cbn [ln_rets]. replace (2 / 2) with 1 by lra. rewrite ln_1.
    repeat constructor.
Qed.

(** C1. Prices 1, 2, 2, 2, 2, 2, 2, 2 on eight consecutive dates.  At the
    last date the collector reports [hv_7d = 0]: its slice is the last seven
    prices, which hold six log returns, all zero.  The standard deviation of
    the trailing seven log returns, times [sqrt(365)], is positive. *)
Theorem collector_hv_7d_spans_six_returns :
  let prices := [1; 2; 2; 2; 2; 2; 2; 2] in
  let records :=
    calculate_hv_metrics (Some (price_frame (daily prices))) "X" in
  map (fun rec => (r_date rec, hd_error (hv rec))) (skipn 7 records) =
    [(7%Z, Some (7%nat, fin 0))] /\
  exists v, hv_trailing prices 7 7 = fin v /\ 0 < v.
Proof.
  cbv zeta. split.
  - change (calculate_hv_metrics
              (Some (price_frame (daily [1; 2; 2; 2; 2; 2; 2; 2]))) "X")
      with (map (record_of (price_frame (daily [1; 2; 2; 2; 2; 2; 2; 2])) "X" windows
                   (daily [1; 2; 2; 2; 2; 2; 2; 2]))
              (daily [1; 2; 2; 2; 2; 2; 2; 2])).
    rewrite skipn_map.
    change (skipn 7 (daily [1; 2; 2; 2; 2; 2; 2; 2])) with [price_row 7 2].
    cbn [map r_date record_of date price_row hv windows hd_error].
    change (hv_of (price_frame (daily [1; 2; 2; 2; 2; 2; 2; 2]))
              (daily [1; 2; 2; 2; 2; 2; 2; 2]) 7 7)
      with (calculate_historical_volatility (map fin (2 :: [2; 2; 2; 2; 2; 2])) 7).
    rewrite calculate_historical_volatility_positive
      by (repeat constructor; lra).
    cbn [length Nat.leb]. now rewrite hv_value_sevens.
  - unfold hv_trailing. rewrite std_fin.
    unfold trailing_log_returns, log_return.
    cbn [Nat.add Nat.sub seq map nth length Nat.leb fmul fin].
    eexists. split; [reflexivity|].
    replace (2 / 2) with 1 by lra. replace (2 / 1) with 2 by lra.
    rewrite ln_1. pose proof ln_2_pos as Hl.
    apply Rmult_lt_0_compat; apply sqrt_lt_R0; [|lra].
    unfold sqdev, mean, sum. cbn [map fold_right length INR].
    apply Rdiv_lt_0_compat; [|lra].
    set (L := ln 2) in *.
    assert (Hm : (L + (0 + (0 + (0 + (0 + (0 + (0 + 0)))))))
                 / (1 + 1 + 1 + 1 + 1 + 1 + 1) = L / 7) by (field).
    rewrite Hm. nra.
Qed.

End TrailingWindow.

(** ** Thresholds, scaling and constant series *)

Section Estimators.
Import Pandas LogReturns Spec Scaling CollectorNotions ScreenerNotions.
Local Open Scope R_scope.

Lemma daily_positive_3 : positive_prices (Collector.daily [100; 101; 99]).
Proof. repeat constructor; cbn; lra. Qed.

Lemma daily_positive_2 : positive_prices (Collector.daily [100; 101]).
Proof. repeat constructor; cbn; lra. Qed.

(** ** Minimum-data policy of the collector *)

(** C2 (as amended). The threshold is [max(2, w // 2)], with the floor of
    [w / 2].  A slice with fewer observations gives the NaN sentinel, never
    a number; for every window [w >= 6], which covers the configured windows
    7, 14, 30, 60 and 90, a slice of positive prices with at least that many
    observations gives a value. *)
Theorem hv_of_half_window f pd d w :
  positive_prices pd ->
  ((length (Collector.historical_data pd d w) < Nat.max 2 (w / 2))%nat ->
   Collector.hv_of f pd d w = NaN) /\
  ((6 <= w)%nat ->
   (Nat.max 2 (w / 2) <= length (Collector.historical_data pd d w))%nat ->
   exists v, Collector.hv_of f pd d w = fin v).
Proof.
  intros H. split.
  - apply hv_of_too_few.
  - intros Hw Hn. apply hv_of_enough; try assumption.
    assert (3 <= w / 2)%nat by (apply (Nat.div_le_lower_bound w 2 3); lia).
    lia.
Qed.

Lemma hv_of_half_window_witness :
  Collector.hv_of (Collector.price_frame (Collector.daily [100; 101]))
    (Collector.daily [100; 101]) 1 7 = NaN /\
  exists v,
    Collector.hv_of (Collector.price_frame (Collector.daily [100; 101; 99]))
      (Collector.daily [100; 101; 99]) 2 7 = fin v.
Proof.
  split.
  - apply (proj1 (hv_of_half_window _ (Collector.daily [100; 101]) 1 7
                    daily_positive_2)).
    vm_compute. lia.
  - apply (proj2 (hv_of_half_window _ (Collector.daily [100; 101; 99]) 2 7
                    daily_positive_3)).
    + lia.
    + vm_compute. lia.
Defined.

(** Window 7 on three observations: one fewer than [max(2, ceil(7/2)) = 4],
    and [hv_7d] is a number. *)
Lemma hv_7_defined_on_three_observations :
  let pd := Collector.daily [100; 101; 99] in
  length (Collector.historical_data pd 2 7) = (Nat.max 2 ((7 + 1) / 2) - 1)%nat /\
  Collector.hv_of (Collector.price_frame pd) pd 2 7 <> NaN.
Proof.
  cbv zeta. split; [reflexivity|].
  destruct (hv_of_enough (Collector.price_frame (Collector.daily [100; 101; 99]))
              (Collector.daily [100; 101; 99]) 2 7 daily_positive_3) as [v Hv].
  - vm_compute. lia.
  - vm_compute. lia.
  - rewrite Hv. discriminate.
Qed.

(** ** Scale invariance *)

(** In exact arithmetic, multiplying every price by [c > 0] leaves the
    screener's log returns and every [hv_w] column unchanged; the rows before
    and after [dropna()] differ only in their input columns; the collector's
    volatility is unchanged as well, and so is the Parkinson estimator when
    high and low are both scaled. *)
Lemma exact_arithmetic_scale_invariance (c : R) :
  0 < c ->
  (forall df ws,
     Screener.log_ret_col (map (scale_bar c) df) = Screener.log_ret_col df /\
     (forall w, Screener.hv_col (map (scale_bar c) df) w = Screener.hv_col df w) /\
     Screener.all_rows (map (scale_bar c) df) ws =
     map (scale_input c) (Screener.all_rows df ws) /\
     Screener.calculate_hv_metrics (Some (map (scale_bar c) df)) ws =
     outcome_map (map (scale_input c)) (Screener.calculate_hv_metrics (Some df) ws)) /\
  (forall prices w,
     Collector.calculate_historical_volatility (map (fmul (fin c)) prices) w =
     Collector.calculate_historical_volatility prices w) /\
  (forall f data,
     Collector.calculate_parkinson_volatility f (map (scale_high_low c) data) =
     Collector.calculate_parkinson_volatility f data).
Proof.
  intros Hc. repeat split.
  - now apply log_ret_col_scale.
  - intros w. now apply hv_col_scale.
  - now apply all_rows_scale.
  - now apply calculate_hv_metrics_scale.
  - intros. now apply calculate_historical_volatility_scale.
  - intros. now apply calculate_parkinson_volatility_scale.
Qed.

(** ** Constant prices *)

(** C7. On a series whose prices all equal [c > 0], every [hv_w] the
    collector records, every cell of the screener's [hv_w] columns and every
    [hv_w] the screener returns is NaN or exactly 0. *)
Theorem constant_series_hv_zero (c : R) :
  0 < c ->
  (forall f symbol,
     Forall (fun r => Collector.price r = fin c) (Collector.rows f) ->
     Forall (fun rec => Forall (fun e => snd e = NaN \/ snd e = fin 0) (Collector.hv rec))
       (Collector.calculate_hv_metrics (Some f) symbol)) /\
  (forall df ws i w,
     Forall (fun b => Screener.close b = fin c) df ->
     (Screener.cell (Screener.hv_col df w) i = NaN \/
      Screener.cell (Screener.hv_col df w) i = fin 0) /\
     Forall (fun m => Forall (fun e => snd e = NaN \/ snd e = fin 0) (Screener.hv m))
       (returned (Screener.calculate_hv_metrics (Some df) ws))).
Proof.
  intros Hc. split.
  - intros f symbol H. now apply (records_constant c).
  - intros df ws i w H. split.
    + now apply (hv_col_constant c).
    + now apply (returned_constant c).
Qed.

Lemma constant_series_hv_zero_witness :
  Forall (fun rec => Forall (fun e => snd e = NaN \/ snd e = fin 0) (Collector.hv rec))
    (Collector.calculate_hv_metrics
       (Some (Collector.price_frame (Collector.daily [5; 5; 5; 5]))) "X").
Proof.
  apply (proj1 (constant_series_hv_zero 5 ltac:(lra))).
  repeat constructor.
Defined.

End Estimators.

(** ** Whole runs *)

Section WholeRuns.
Import Pandas LogReturns Spec Scaling Bars CollectorNotions ScreenerNotions.
Local Open Scope Z_scope.

(** ** No look-ahead *)

(** C9 (as amended). Collector: two frames with the same columns and at
    least two rows each, whose rows dated [t] or earlier are the same, yield
    the same records dated [t] or earlier.  Screener: two frames in date
    order whose bars stamped [t] or earlier are the same yield the same
    returned rows stamped [t] or earlier. *)
Theorem metrics_ignore_later_rows :
  (forall ws symbol t (v fu oi hi lo : bool) rows1 rows2,
     (2 <= length rows1)%nat -> (2 <= length rows2)%nat ->
     filter (upto t) rows1 = filter (upto t) rows2 ->
     filter (fun rec => Collector.r_date rec <=? t)
       (Collector.hv_metrics_for ws (Some (Collector.mkFrame v fu oi hi lo rows1)) symbol) =
     filter (fun rec => Collector.r_date rec <=? t)
       (Collector.hv_metrics_for ws (Some (Collector.mkFrame v fu oi hi lo rows2)) symbol)) /\
  (forall ws t df1 df2,
     ascending df1 -> ascending df2 ->
     filter (until t) df1 = filter (until t) df2 ->
     filter (fun m => until t (Screener.bar m))
       (returned (Screener.calculate_hv_metrics (Some df1) ws)) =
     filter (fun m => until t (Screener.bar m))
       (returned (Screener.calculate_hv_metrics (Some df2) ws))).
Proof.
  split.
  - intros. now apply hv_metrics_for_upto.
  - intros ws t df1 df2 H1 H2 H.
    now rewrite !returned_until, H.
Qed.

Lemma daily_bars_ascending_4a : ascending (daily_bars [100; 101; 99; 102]%R).
Proof. repeat constructor; cbn; lia. Qed.

Lemma daily_bars_ascending_4b : ascending (daily_bars [100; 101; 99; 50]%R).
Proof. repeat constructor; cbn; lia. Qed.

Lemma metrics_ignore_later_rows_witness :
  filter (fun rec => Collector.r_date rec <=? 2)
    (Collector.hv_metrics_for Collector.windows
       (Some (Collector.price_frame (Collector.daily [100; 101; 99; 102]%R))) "X") =
  filter (fun rec => Collector.r_date rec <=? 2)
    (Collector.hv_metrics_for Collector.windows
       (Some (Collector.price_frame (Collector.daily [100; 101; 99; 50]%R))) "X") /\
  filter (fun m => until 2 (Screener.bar m))
    (returned (Screener.calculate_hv_metrics
                 (Some (daily_bars [100; 101; 99; 102]%R)) [2; 3]%nat)) =
  filter (fun m => until 2 (Screener.bar m))
    (returned (Screener.calculate_hv_metrics
                 (Some (daily_bars [100; 101; 99; 50]%R)) [2; 3]%nat)).
Proof.
  split.
  - apply (proj1 metrics_ignore_later_rows Collector.windows "X"%string 2
             false false false false false
             (Collector.daily [100; 101; 99; 102]%R)
             (Collector.daily [100; 101; 99; 50]%R)).
    + vm_compute. lia.
    + vm_compute. lia.
    + reflexivity.
  - apply (proj2 metrics_ignore_later_rows [2; 3]%nat 2
             (daily_bars [100; 101; 99; 102]%R) (daily_bars [100; 101; 99; 50]%R)
             daily_bars_ascending_4a daily_bars_ascending_4b).
    reflexivity.
Defined.

(** A one-row series and its extension by a later row agree up to date 0,
    yet the first yields no record and the second a record dated 0. *)
Lemma single_row_series_yields_no_record :
  let r0 := Collector.price_row 0 100 in
  let r1 := Collector.price_row 1 101 in
  filter (upto 0) [r0] = filter (upto 0) [r0; r1] /\
  filter (fun rec => Collector.r_date rec <=? 0)
    (Collector.calculate_hv_metrics (Some (Collector.price_frame [r0])) "X") <>
  filter (fun rec => Collector.r_date rec <=? 0)
    (Collector.calculate_hv_metrics (Some (Collector.price_frame [r0; r1])) "X").
Proof.
  cbv zeta. split; [reflexivity|].
  intros H. apply (f_equal (map Collector.r_date)) in H.
  change ([] = [0]) in H. discriminate.
Qed.

(** ** Rows returned by the screener *)

(** C10. With fewer than [max(vol_windows) + 1] rows the screener returns an
    empty frame.  What it returns is the rows without a NaN in any column,
    and no other.  Every returned row has its log return, every [hv_w], the
    RMS columns that exist and [rms_vol] defined, and comes from an input
    row at position [max(vol_windows)] or later: the earliest dates are
    dropped. *)
Theorem screener_rows_are_complete (df : list Screener.ohlcv) (ws : list nat) :
  ((length df < Screener.max_window ws + 1)%nat ->
   Screener.calculate_hv_metrics (Some df) ws = Screener.Returns []) /\
  (ws <> [] ->
   Screener.calculate_hv_metrics (Some df) ws =
   Screener.Returns (filter Screener.complete (Screener.all_rows df ws))) /\
  Forall (fun m =>
            isna (Screener.log_ret m) = false /\
            Forall (fun e => isna (snd e) = false) (Screener.hv m) /\
            Screener.rms_2_3 m <> Some NaN /\
            Screener.rms_7_14 m <> Some NaN /\
            isna (Screener.rms_vol m) = false /\
            In (Screener.bar m) (skipn (Screener.max_window ws) df))
    (returned (Screener.calculate_hv_metrics (Some df) ws)).
Proof.
  split; [|split].
  - intros H. unfold Screener.calculate_hv_metrics.
    destruct df as [|b df]; [reflexivity|].
    destruct ws as [|w ws]; [simpl in H; lia|].
    now destruct (Nat.ltb_spec (length (b :: df)) (Screener.max_window (w :: ws) + 1));
      [|lia].
  - apply calculate_hv_metrics_rows.
  - destruct ws as [|w0 ws].
    { unfold Screener.calculate_hv_metrics. destruct df; constructor. }
    rewrite calculate_hv_metrics_rows by congruence. cbn [returned].
    rewrite dropna_skips_early by congruence.
    apply Forall_forall. intros m Hin. apply filter_In in Hin as [Hin Hc].
    assert (Hbar : In (Screener.bar m) (skipn (Screener.max_window (w0 :: ws)) df)).
    { rewrite <- (all_rows_bar df (w0 :: ws)). rewrite skipn_map.
      now apply in_map. }
    unfold Screener.complete in Hc. rewrite !andb_true_iff in Hc.
    destruct Hc as [[[[[_ Hl] Hh] H23] H714] Hv].
    rewrite negb_true_iff in Hl, Hv.
    repeat split; try assumption.
    + rewrite forallb_forall in Hh. apply Forall_forall. intros e He.
      specialize (Hh e He). now rewrite negb_true_iff in Hh.
    + intros E. rewrite E in H23. discriminate.
    + intros E. rewrite E in H714. discriminate.
Qed.

Lemma screener_rows_are_complete_witness :
  Screener.calculate_hv_metrics (Some (daily_bars [100; 101]%R)) [2; 3]%nat =
  Screener.Returns [] /\
  Screener.calculate_hv_metrics (Some (daily_bars [100; 101; 99; 102]%R)) [2; 3]%nat =
  Screener.Returns
    (filter Screener.complete
       (Screener.all_rows (daily_bars [100; 101; 99; 102]%R) [2; 3]%nat)).
Proof.
  split.
  - apply (proj1 (screener_rows_are_complete (daily_bars [100; 101]%R) [2; 3]%nat)).
    vm_compute. lia.
  - apply (proj1 (proj2 (screener_rows_are_complete
                           (daily_bars [100; 101; 99; 102]%R) [2; 3]%nat))).
    discriminate.
Defined.

End WholeRuns.

(** ** The normal distribution function is symmetric *)

Section NormalSymmetry.
Import Options.
Local Open Scope R_scope.

Lemma gauss_even (t : R) : gauss (- t) = gauss t.
Proof. unfold gauss. f_equal. lra. Qed.

Lemma gauss_pos (t : R) : 0 < gauss t.
Proof. apply exp_pos. Qed.

(** The integral of the density from 0, through a primitive on [[-a, a]]. *)
Lemma gauss_primitive (a : R) (h : - a <= a) (y : R) :
  - a <= y <= a ->
  primitive h (FTC_P1 h (fun x _ => gauss_continuous x)) y =
  RiemannInt (gauss_integrable (- a) 0) + RiemannInt (gauss_integrable 0 y).
Proof.
  intros [H1 H2]. unfold primitive.
  destruct (Rle_dec (- a) y) as [r|]; [|contradiction].
  destruct (Rle_dec y a) as [r0|]; [|contradiction].
  rewrite (RiemannInt_P26 (gauss_integrable (- a) 0) (gauss_integrable 0 y)
             (FTC_P1 h (fun x _ => gauss_continuous x) r r0)).
  reflexivity.
Qed.

Lemma gauss_integral_odd (x : R) :
  RiemannInt (gauss_integrable 0 (- x)) = - RiemannInt (gauss_integrable 0 x).
Proof.
  set (a := Rabs x).
  assert (Ha : - a <= x <= a).
  { unfold a. pose proof (Rle_abs x). pose proof (Rle_abs (- x)) as H'.
    rewrite Rabs_Ropp in H'. lra. }
  assert (h : - a <= a) by lra.
  set (C0 := fun (y : R) (_ : - a <= y <= a) => gauss_continuous y).
  set (P := primitive h (FTC_P1 h C0)).
  pose proof (RiemannInt_P29 h C0) as HP. fold P in HP.
  assert (HQ : antiderivative gauss (fun y => - P (- y)) (- a) a).
  { split; [|exact h]. intros y Hy.
    destruct HP as [HP _].
    destruct (HP (- y)) as [pr Hpr]; [lra|].
    symmetry in Hpr. apply derive_pt_eq_1 in Hpr.
    assert (Hlim : derivable_pt_lim (fun y => - P (- y)) y (gauss y)).
    { replace (gauss y) with (- (gauss (- y) * -1)) by (rewrite gauss_even; lra).
      apply (derivable_pt_lim_opp (fun y => P (- y))).
      apply (derivable_pt_lim_comp (fun y => - y) P).
      - replace (-1) with (- (1)) by lra.
        apply (derivable_pt_lim_opp id). apply derivable_pt_lim_id.
      - exact Hpr. }
    exists (exist _ (gauss y) Hlim). reflexivity. }
  destruct (antiderivative_Ucte _ _ _ _ _ HP HQ) as [c Hc].
  assert (HPy : forall y, - a <= y <= a ->
                  P y = RiemannInt (gauss_integrable (- a) 0) +
                        RiemannInt (gauss_integrable 0 y)).
  { intros y Hy. unfold P, C0. now apply gauss_primitive. }
  pose proof (Hc 0 ltac:(lra)) as H0.
  pose proof (Hc x Ha) as Hx.
  replace (- 0) with 0 in H0 by lra.
  rewrite (HPy 0) in H0 by lra.
  rewrite (HPy x), (HPy (- x)) in Hx by lra.
  assert (Hz : RiemannInt (gauss_integrable 0 0) = 0) by apply RiemannInt_P9.
  rewrite Hz in H0. lra.
Qed.

(** [N(x) + N(-x) = 1] *)
Lemma norm_cdf_opp (x : R) : norm_cdf (- x) = 1 - norm_cdf x.
Proof. unfold norm_cdf. rewrite gauss_integral_odd. lra. Qed.

End NormalSymmetry.

(** ** Relations between the pricer's outputs *)

Section PricerRelations.
Import Options.
Local Open Scope R_scope.

Lemma norm_pdf_pos (x : R) : 0 < norm_pdf x.
Proof.
  unfold norm_pdf. apply Rdiv_lt_0_compat; [apply gauss_pos|].
  pose proof sqrt_2PI_gt_2. lra.
Qed.



(** X4. An option type that is neither ['call'] nor ['put'] (['Call'], say)
    is not rejected: it gets the price and the delta of the put and the
    theta of the call. *)
Theorem black_scholes_other_option_type (S K T r sigma : R) (option_type : string) :
  option_type <> "call"%string -> option_type <> "put"%string ->
  let g := black_scholes S K T r sigma option_type in
  price g = price (black_scholes S K T r sigma "put") /\
  delta g = delta (black_scholes S K T r sigma "put") /\
  theta g = theta (black_scholes S K T r sigma "call").
Proof.
  intros Hc Hp. cbv zeta. unfold black_scholes.
  destruct (Rle_dec T 0); [repeat split|].
  destruct (Rle_dec sigma 0); [repeat split|].
  apply String.eqb_neq in Hc, Hp. rewrite Hc, Hp.
  cbn [price delta theta String.eqb Ascii.eqb Bool.eqb]. repeat split.
Qed.

Lemma black_scholes_other_option_type_witness :
  theta (black_scholes 100 110 1 0.05 0.2 "Call") =
  theta (black_scholes 100 110 1 0.05 0.2 "call") /\
  price (black_scholes 100 110 1 0.05 0.2 "Call") =
  price (black_scholes 100 110 1 0.05 0.2 "put").
Proof.
  pose proof (black_scholes_other_option_type 100 110 1 0.05 0.2 "Call"
                ltac:(discriminate) ltac:(discriminate)) as H.
  cbv zeta in H. destruct H as (Hp & _ & Ht). split; assumption.
Defined.

End PricerRelations.

(** ** Volatilities are never negative *)

Section NonNegative.
Import Pandas LogReturns MetricNotions.
Local Open Scope R_scope.

Lemma std_nonneg (s : series) : nonneg_or_nan (std s).
Proof.
  unfold std. destruct (length (dropna s) <=? 1)%nat; cbn; [trivial|].
  apply sqrt_pos.
Qed.

Lemma fmul_nonneg (x : float) (k : R) :
  nonneg_or_nan x -> 0 <= k -> nonneg_or_nan (fmul x (fin k)).
Proof.
  destruct x as [v|]; cbn; [|trivial]. intros. now apply Rmult_le_pos.
Qed.

Lemma fsqrt_nonneg (x : float) : nonneg_or_nan (fsqrt x).
Proof.
  destruct x as [v|]; cbn; [|trivial].
  destruct (Rle_dec 0 v); cbn; [apply sqrt_pos | trivial].
Qed.

Lemma cell_hv_col_nonneg df w i : nonneg_or_nan (Screener.cell (Screener.hv_col df w) i).
Proof.
  destruct (Nat.lt_ge_cases i (length df)) as [Hn|Hn].
  - rewrite cell_hv_col by assumption. apply fmul_nonneg; [|apply sqrt_pos].
    unfold rolling_std_at.
    destruct (length (dropna (tail w (firstn (S i) (Screener.log_ret_col df)))) <? w)%nat;
      [exact I | apply std_nonneg].
  - rewrite cell_nan_beyond; [exact I|].
    unfold Screener.hv_col, rolling_std.
    now rewrite !length_map, length_seq, log_ret_col_length.
Qed.

Lemma calculate_historical_volatility_nonneg s w :
  nonneg_or_nan (Collector.calculate_historical_volatility s w).
Proof.
  unfold Collector.calculate_historical_volatility.
  destruct (length s <? 2)%nat; [exact I|].
  apply fmul_nonneg; [apply std_nonneg | apply sqrt_pos].
Qed.

(** X5. Whatever the data, a volatility the code reports is NaN or at least 0:
    the screener's [hv_w] cells, the collector's [hv_{w}d] and the Parkinson
    estimate. *)
Theorem volatility_never_negative :
  (forall df w i, nonneg_or_nan (Screener.cell (Screener.hv_col df w) i)) /\
  (forall f pd d w, nonneg_or_nan (Collector.hv_of f pd d w)) /\
  (forall f data, nonneg_or_nan (Collector.calculate_parkinson_volatility f data)).
Proof.
  split; [|split].
  - apply cell_hv_col_nonneg.
  - intros. unfold Collector.hv_of, Collector.window_metrics.
    destruct (Nat.max 2 (w / 2) <=? length (Collector.historical_data pd d w))%nat;
      cbn [fst]; [apply calculate_historical_volatility_nonneg | exact I].
  - intros. unfold Collector.calculate_parkinson_volatility.
    destruct (negb (Collector.has_high f && Collector.has_low f));
      [exact I | apply fsqrt_nonneg].
Qed.

End NonNegative.

(** ** The screener on clean data: which rows come back *)

Section ScreenerCleanRows.
Import Pandas LogReturns Spec Screener ScreenerNotions MetricNotions.
Local Open Scope R_scope.

Lemma positive_series_fin (s : series) :
  Forall positive s ->
  s = map fin (dropna s) /\ Forall (fun x => 0 < x) (dropna s).
Proof.
  induction 1 as [|x s Hx Hs [IH1 IH2]]; [split; [reflexivity | constructor]|].
  destruct x as [p|]; [|contradiction]. cbn [dropna map].
  split; [unfold fin; now f_equal | now constructor].
Qed.

Lemma clean_closes (df : list ohlcv) :
  Forall clean df ->
  map close df = map fin (dropna (map close df)) /\
  Forall (fun x => 0 < x) (dropna (map close df)).
Proof.
  intros H. apply positive_series_fin.
  induction H as [|b df Hb _ IH]; cbn [map]; constructor; [apply Hb | exact IH].
Qed.

Lemma max_window_ge (w : nat) (ws : list nat) : In w ws -> (w <= max_window ws)%nat.
Proof.
  induction ws as [|x ws IH]; [contradiction|]. cbn [max_window fold_right].
  fold (max_window ws). intros [->|H]; [lia|]. specialize (IH H). lia.
Qed.

Lemma has_window_In (w : nat) (ws : list nat) : has_window w ws = true <-> In w ws.
Proof.
  unfold has_window. rewrite existsb_exists. split.
  - intros (x & Hx & E). apply Nat.eqb_eq in E. now subst.
  - intros H. exists w. split; [assumption | apply Nat.eqb_refl].
Qed.

(** On positive closes [hv_w] is a number from position [w] on, for [w >= 2]. *)
Lemma cell_hv_col_clean (df : list ohlcv) (w i : nat) :
  Forall clean df -> (2 <= w)%nat -> (w <= i < length df)%nat ->
  exists v, cell (hv_col df w) i = fin v /\ 0 <= v.
Proof.
  intros Hc Hw Hi. destruct (clean_closes df Hc) as [E Hpos].
  rewrite (screener_hv_is_trailing_returns df _ w i E Hpos Hi).
  unfold hv_trailing. rewrite std_fin. unfold trailing_log_returns.
  rewrite length_map, length_seq.
  destruct (Nat.leb_spec w 1); [lia|]. cbn [fmul fin].
  eexists. split; [reflexivity|].
  apply Rmult_le_pos; apply sqrt_pos.
Qed.

Lemma cell_log_ret_clean (df : list ohlcv) (i : nat) :
  Forall clean df -> (1 <= i < length df)%nat ->
  exists v, cell (log_ret_col df) i = fin v.
Proof.
  intros Hc Hi. destruct (clean_closes df Hc) as [E Hpos].
  unfold log_ret_col, cell. rewrite E.
  assert (Hlen : length (dropna (map close df)) = length df).
  { apply (f_equal (@length _)) in E. now rewrite !length_map in E. }
  destruct (dropna (map close df)) as [|p l]; [simpl in Hlen; lia|].
  inversion Hpos; subst.
  rewrite nth_log_returns_positive; try assumption; [now eexists|].
  simpl in Hlen. lia.
Qed.

(** [np.sqrt((a**2 + b**2) / 2)] on two non-negative numbers lies between
    them. *)
Lemma rms_fin (a b : R) :
  0 <= a -> 0 <= b ->
  rms (fin a) (fin b) = fin (sqrt ((a * a + b * b) / 2)) /\
  Rmin a b <= sqrt ((a * a + b * b) / 2) <= Rmax a b.
Proof.
  intros Ha Hb. split.
  - unfold rms, fsq, fmul, fadd, fdiv, fin, fsqrt.
    destruct (Req_dec_T 2 0); [lra|].
    destruct (Rle_dec 0 ((a * a + b * b) / 2)) as [|N]; [reflexivity|].
    exfalso. apply N. nra.
  - split.
    + rewrite <- (sqrt_square (Rmin a b)) by (apply Rmin_glb; assumption).
      apply sqrt_le_1_alt.
      apply Rmin_case_strong; intros; nra.
    + rewrite <- (sqrt_square (Rmax a b))
        by (apply Rle_trans with a; [assumption | apply Rmax_l]).
      apply sqrt_le_1_alt.
      unfold Rmax. destruct (Rle_dec a b); nra.
Qed.

Lemma rms_cells_clean (df : list ohlcv) (u v i : nat) :
  Forall clean df -> (2 <= u)%nat -> (2 <= v)%nat ->
  (u <= i < length df)%nat -> (v <= i < length df)%nat ->
  exists a b,
    cell (hv_col df u) i = fin a /\ cell (hv_col df v) i = fin b /\
    rms (cell (hv_col df u) i) (cell (hv_col df v) i) =
    fin (sqrt ((a * a + b * b) / 2)) /\
    Rmin a b <= sqrt ((a * a + b * b) / 2) <= Rmax a b.
Proof.
  intros Hc Hu Hv Hiu Hiv.
  destruct (cell_hv_col_clean df u i Hc Hu Hiu) as (a & Ea & Ha).
  destruct (cell_hv_col_clean df v i Hc Hv Hiv) as (b & Eb & Hb).
  exists a, b. rewrite Ea, Eb.
  destruct (rms_fin a b Ha Hb) as [E1 E2]. auto.
Qed.

Lemma metrics_at_complete (df : list ohlcv) (ws : list nat) (i : nat) (b : ohlcv) :
  Forall clean df -> clean b -> Forall (fun w => (2 <= w)%nat) ws ->
  has_rms_pair ws = true -> (max_window ws <= i < length df)%nat ->
  complete (metrics_at df ws i b) = true.
Proof.
  intros Hc Hb Hws Hpair Hi.
  assert (Hin : forall w, In w ws -> (2 <= w)%nat /\ (w <= i < length df)%nat).
  { intros w Hw. rewrite Forall_forall in Hws. specialize (Hws w Hw).
    pose proof (max_window_ge w ws Hw). lia. }
  assert (Hrms : forall u v, has_window u ws && has_window v ws = true ->
            isna (rms (cell (hv_col df u) i) (cell (hv_col df v) i)) = false).
  { intros u v H. apply andb_true_iff in H as [Hu Hv].
    apply has_window_In in Hu, Hv.
    destruct (Hin u Hu) as [Hu2 Hui], (Hin v Hv) as [Hv2 Hvi].
    destruct (rms_cells_clean df u v i Hc Hu2 Hv2 Hui Hvi) as (x & y & _ & _ & E & _).
    now rewrite E. }
  assert (Hone : (1 <= i)%nat).
  { unfold has_rms_pair in Hpair.
    apply orb_true_iff in Hpair as [H|H]; apply andb_true_iff in H as [H _];
      apply has_window_In in H; destruct (Hin _ H); lia. }
  destruct Hb as (Hcl & Ho & Hh & Hl & Hv).
  unfold complete. cbn [bar log_ret hv rms_2_3 rms_7_14 rms_vol metrics_at].
  rewrite Ho, Hh, Hl, Hv.
  assert (Hclose : isna (close b) = false) by (destruct (close b); [reflexivity | contradiction]).
  rewrite Hclose.
  destruct (cell_log_ret_clean df i Hc ltac:(lia)) as [r Hr]. rewrite Hr.
  cbn [isna fin negb andb].
  assert (Hhv : forallb (fun c : nat * float => negb (isna (snd c)))
                  (map (fun w => (w, cell (hv_col df w) i)) ws) = true).
  { apply forallb_forall. intros c Hcin. apply in_map_iff in Hcin as (w & <- & Hw).
    destruct (Hin w Hw) as [Hw2 Hwi].
    destruct (cell_hv_col_clean df w i Hc Hw2 Hwi) as (x & E & _).
    cbn [snd]. now rewrite E. }
  rewrite Hhv. cbn [andb].
  unfold has_rms_pair in Hpair.
  destruct (has_window 7 ws && has_window 14 ws) eqn:E714;
    destruct (has_window 2 ws && has_window 3 ws) eqn:E23;
    cbn [present]; rewrite ?(Hrms 7%nat 14%nat E714), ?(Hrms 2%nat 3%nat E23);
    try reflexivity; discriminate.
Qed.

Lemma filter_all_true {A} (f : A -> bool) (l : list A) :
  (forall x, In x l -> f x = true) -> filter f l = l.
Proof.
  induction l as [|x l IH]; intros H; cbn [filter]; [reflexivity|].
  rewrite (H x (or_introl eq_refl)). f_equal. apply IH. intros y Hy. apply H. now right.
Qed.

Lemma combine_skipn {A B} (n : nat) (a : list A) (b : list B) :
  skipn n (combine a b) = combine (skipn n a) (skipn n b).
Proof.
  revert a b. induction n as [|n IH]; intros [|x a] [|y b]; cbn; try reflexivity.
  - now destruct (skipn n a).
  - apply IH.
Qed.

(** On clean data with at least one RMS pair and every window at least 2, the
    screener returns exactly the rows from position [max(vol_windows)] on. *)
Lemma returned_clean (df : list ohlcv) (ws : list nat) :
  Forall clean df -> Forall (fun w => (2 <= w)%nat) ws -> has_rms_pair ws = true ->
  returned (calculate_hv_metrics (Some df) ws) = skipn (max_window ws) (all_rows df ws).
Proof.
  intros Hc Hws Hpair.
  assert (Hne : ws <> []) by (intros ->; discriminate).
  rewrite calculate_hv_metrics_rows by assumption. cbn [returned].
  rewrite dropna_skips_early by assumption.
  apply filter_all_true. intros m Hm. unfold all_rows in Hm.
  rewrite skipn_map, combine_skipn, skipn_seq in Hm.
  apply in_map_iff in Hm as ([i b] & <- & Hin). cbn [fst snd].
  pose proof (in_combine_l _ _ _ _ Hin) as Hi. apply in_seq in Hi.
  pose proof (in_combine_r _ _ _ _ Hin) as Hb.
  apply metrics_at_complete; try assumption.
  - rewrite Forall_forall in Hc. apply Hc.
    rewrite <- (firstn_skipn (max_window ws) df). apply in_or_app. now right.
  - lia.
Qed.

End ScreenerCleanRows.

(** ** The screener: RMS columns and windows that empty the result *)

Section ScreenerRms.
Import Pandas LogReturns Spec Screener ScreenerNotions MetricNotions Bars.
Local Open Scope R_scope.

Lemma returned_row_shape (df : list ohlcv) (ws : list nat) (m : metrics_row) :
  In m (returned (calculate_hv_metrics (Some df) ws)) ->
  exists i b, m = metrics_at df ws i b /\ complete m = true.
Proof.
  destruct ws as [|w0 ws].
  - unfold calculate_hv_metrics. destruct df; contradiction.
  - rewrite calculate_hv_metrics_rows by congruence. cbn [returned].
    intros H. apply filter_In in H as [Hin Hc]. unfold all_rows in Hin.
    apply in_map_iff in Hin as ([i b] & <- & _). now exists i, b.
Qed.

Lemma complete_parts (m : metrics_row) :
  complete m = true ->
  (forall e, In e (hv m) -> isna (snd e) = false) /\
  present (rms_2_3 m) = true /\ present (rms_7_14 m) = true /\
  isna (rms_vol m) = false.
Proof.
  unfold complete. rewrite !andb_true_iff.
  intros [[[[_ Hh] H23] H714] Hv]. rewrite negb_true_iff in Hv.
  repeat split; try assumption.
  intros e He. rewrite forallb_forall in Hh. specialize (Hh e He).
  now rewrite negb_true_iff in Hh.
Qed.

Lemma complete_pair (df : list ohlcv) (ws : list nat) (i u v : nat) (b : ohlcv) :
  complete (metrics_at df ws i b) = true ->
  has_window u ws && has_window v ws = true ->
  exists x y,
    In (u, fin x) (hv (metrics_at df ws i b)) /\
    In (v, fin y) (hv (metrics_at df ws i b)) /\
    rms (cell (hv_col df u) i) (cell (hv_col df v) i) =
    fin (sqrt ((x * x + y * y) / 2)) /\
    Rmin x y <= sqrt ((x * x + y * y) / 2) <= Rmax x y.
Proof.
  intros Hc H. apply andb_true_iff in H as [Hu Hv]. apply has_window_In in Hu, Hv.
  destruct (complete_parts _ Hc) as (Hh & _).
  assert (Hcell : forall w, In w ws ->
            exists x, cell (hv_col df w) i = fin x /\ 0 <= x /\
                      In (w, fin x) (hv (metrics_at df ws i b))).
  { intros w Hw.
    assert (Hin : In (w, cell (hv_col df w) i) (hv (metrics_at df ws i b))).
    { cbn [hv metrics_at]. apply in_map_iff. now exists w. }
    pose proof (Hh _ Hin) as Hna. cbn [snd] in Hna.
    pose proof (cell_hv_col_nonneg df w i) as Hnn.
    destruct (cell (hv_col df w) i) as [x|] eqn:E; [|discriminate].
    exists x. repeat split; assumption. }
  destruct (Hcell u Hu) as (x & Ex & Hx & Hinx).
  destruct (Hcell v Hv) as (y & Ey & Hy & Hiny).
  exists x, y. rewrite Ex, Ey. destruct (rms_fin x y Hx Hy). auto.
Qed.

(** X6. In every row the screener returns, [rms_2_3] (when windows 2 and 3
    are configured) is the root mean square of that row's [hv_2] and [hv_3]
    and lies between them, likewise [rms_7_14] for windows 7 and 14;
    [rms_vol] repeats [rms_7_14] when it exists and [rms_2_3] otherwise. *)
Theorem returned_rms_blends (df : list ohlcv) (ws : list nat) (m : metrics_row) :
  In m (returned (calculate_hv_metrics (Some df) ws)) ->
  (has_window 2 ws && has_window 3 ws = true ->
   exists a b,
     In (2%nat, fin a) (hv m) /\ In (3%nat, fin b) (hv m) /\
     rms_2_3 m = Some (fin (sqrt ((a * a + b * b) / 2))) /\
     Rmin a b <= sqrt ((a * a + b * b) / 2) <= Rmax a b) /\
  (has_window 7 ws && has_window 14 ws = true ->
   exists a b,
     In (7%nat, fin a) (hv m) /\ In (14%nat, fin b) (hv m) /\
     rms_7_14 m = Some (fin (sqrt ((a * a + b * b) / 2))) /\
     rms_vol m = fin (sqrt ((a * a + b * b) / 2)) /\
     Rmin a b <= sqrt ((a * a + b * b) / 2) <= Rmax a b) /\
  (has_window 7 ws && has_window 14 ws = false -> rms_2_3 m = Some (rms_vol m)).
Proof.
  intros Hin. destruct (returned_row_shape df ws m Hin) as (i & b & -> & Hc).
  split; [|split].
  - intros H. destruct (complete_pair df ws i 2 3 b Hc H) as (x & y & Hx & Hy & E & Hb).
    exists x, y. repeat split; try assumption; try apply Hb.
    cbn [rms_2_3 metrics_at]. now rewrite H, E.
  - intros H. destruct (complete_pair df ws i 7 14 b Hc H) as (x & y & Hx & Hy & E & Hb).
    exists x, y. repeat split; try assumption; try apply Hb.
    + cbn [rms_7_14 metrics_at]. now rewrite H, E.
    + cbn [rms_vol metrics_at]. now rewrite H, E.
  - intros H. destruct (complete_parts _ Hc) as (_ & _ & _ & Hv).
    cbn [rms_2_3 rms_vol metrics_at] in *. rewrite H in *.
    destruct (has_window 2 ws && has_window 3 ws); [reflexivity | discriminate].
Qed.

Lemma daily_bars_clean_5 : Forall clean (daily_bars [100; 101; 99; 102; 98]).
Proof. repeat constructor; cbn; lra. Qed.

Lemma daily_bars_clean_16 :
  Forall clean
    (daily_bars [100; 101; 99; 102; 98; 97; 103; 104; 100; 99; 101; 105; 102; 98; 100; 103]).
Proof. repeat constructor; cbn; lra. Qed.

Lemma returned_rms_blends_witness :
  let df :=
    daily_bars [100; 101; 99; 102; 98; 97; 103; 104; 100; 99; 101; 105; 102; 98; 100; 103] in
  let ws := [2; 3; 7; 14]%nat in
  let m := metrics_at df ws 14 (mkBar 14 (fin 100) (fin 100) (fin 100) (fin 100) (fin 0)) in
  (exists a b,
     In (2%nat, fin a) (hv m) /\ In (3%nat, fin b) (hv m) /\
     rms_2_3 m = Some (fin (sqrt ((a * a + b * b) / 2))) /\
     Rmin a b <= sqrt ((a * a + b * b) / 2) <= Rmax a b) /\
  (exists a b,
     In (7%nat, fin a) (hv m) /\ In (14%nat, fin b) (hv m) /\
     rms_7_14 m = Some (fin (sqrt ((a * a + b * b) / 2))) /\
     rms_vol m = fin (sqrt ((a * a + b * b) / 2)) /\
     Rmin a b <= sqrt ((a * a + b * b) / 2) <= Rmax a b).
Proof.
  cbv zeta.
  assert (Hin : In (metrics_at
                      (daily_bars [100; 101; 99; 102; 98; 97; 103; 104; 100; 99; 101;
                                   105; 102; 98; 100; 103])
                      [2; 3; 7; 14]%nat 14
                      (mkBar 14 (fin 100) (fin 100) (fin 100) (fin 100) (fin 0)))
                (returned (calculate_hv_metrics
                   (Some (daily_bars [100; 101; 99; 102; 98; 97; 103; 104; 100; 99;
                                      101; 105; 102; 98; 100; 103]))
                   [2; 3; 7; 14]%nat))).
  { rewrite returned_clean.
    - left. reflexivity.
    - exact daily_bars_clean_16.
    - repeat constructor.
    - reflexivity. }
  destruct (returned_rms_blends _ _ _ Hin) as (H23 & H714 & _).
  split; [apply H23 | apply H714]; reflexivity.
Defined.

(** X7. On clean data (positive closes, no missing input cell), with every
    window at least 2 and one of the pairs (7, 14), (2, 3) configured, the
    screener returns the rows from position [max(vol_windows)] on, all of
    them and in order. *)
Theorem screener_returns_rows_after_longest_window (df : list ohlcv) (ws : list nat) :
  Forall clean df -> Forall (fun w => (2 <= w)%nat) ws -> has_rms_pair ws = true ->
  map bar (returned (calculate_hv_metrics (Some df) ws)) = skipn (max_window ws) df.
Proof.
  intros Hc Hws Hp. rewrite returned_clean by assumption.
  now rewrite <- skipn_map, all_rows_bar.
Qed.

Lemma screener_returns_rows_after_longest_window_witness :
  map bar
    (returned (calculate_hv_metrics (Some (daily_bars [100; 101; 99; 102; 98]))
                 [2; 3]%nat)) =
  skipn 3 (daily_bars [100; 101; 99; 102; 98]).
Proof.
  apply (screener_returns_rows_after_longest_window
           (daily_bars [100; 101; 99; 102; 98]) [2; 3]%nat).
  - exact daily_bars_clean_5.
  - repeat constructor.
  - reflexivity.
Defined.

(** X8. Unless windows 7 and 14, or windows 2 and 3, are both configured,
    [rms_vol] is NaN in every row and the screener returns no row at all,
    whatever the data. *)
Theorem no_rms_pair_empties_result (df : list ohlcv) (ws : list nat) :
  has_rms_pair ws = false ->
  returned (calculate_hv_metrics (Some df) ws) = [].
Proof.
  intros Hp.
  destruct (returned (calculate_hv_metrics (Some df) ws)) as [|m l] eqn:E;
    [reflexivity|].
  assert (Hin : In m (returned (calculate_hv_metrics (Some df) ws)))
    by (rewrite E; now left).
  destruct (returned_row_shape df ws m Hin) as (i & b & -> & Hc).
  destruct (complete_parts _ Hc) as (_ & _ & _ & Hv).
  unfold has_rms_pair in Hp. apply orb_false_iff in Hp as [H714 H23].
  cbn [rms_vol metrics_at] in Hv. rewrite H714, H23 in Hv. discriminate.
Qed.

Lemma no_rms_pair_empties_result_witness :
  returned (calculate_hv_metrics (Some (daily_bars [100; 101; 99; 102; 98]))
              [2; 7; 30]%nat) = [].
Proof.
  apply (no_rms_pair_empties_result (daily_bars [100; 101; 99; 102; 98]) [2; 7; 30]%nat).
  reflexivity.
Defined.

Lemma rolling_std_at_window_1 (s : series) (i : nat) : rolling_std_at 1 s i = NaN.
Proof.
  unfold rolling_std_at.
  destruct (length (dropna (tail 1 (firstn (S i) s))) <? 1)%nat eqn:E; [reflexivity|].
  unfold std.
  pose proof (dropna_length_le (tail 1 (firstn (S i) s))) as H.
  rewrite tail_length in H.
  destruct (Nat.leb_spec (length (dropna (tail 1 (firstn (S i) s)))) 1);
    [reflexivity | lia].
Qed.

(** X9. A window of 1 has no standard deviation: [hv_1] is NaN at every date,
    and with 1 among the windows the screener returns no row, whatever the
    data. *)
Theorem window_1_empties_result (df : list ohlcv) (ws : list nat) :
  In 1%nat ws ->
  (forall i, cell (hv_col df 1) i = NaN) /\
  returned (calculate_hv_metrics (Some df) ws) = [].
Proof.
  intros H1.
  assert (Hcell : forall i, cell (hv_col df 1) i = NaN).
  { intros i. destruct (Nat.lt_ge_cases i (length df)) as [Hn|Hn].
    - rewrite cell_hv_col by assumption. now rewrite rolling_std_at_window_1.
    - apply cell_nan_beyond. unfold hv_col, rolling_std.
      now rewrite !length_map, length_seq, log_ret_col_length. }
  split; [exact Hcell|].
  destruct (returned (calculate_hv_metrics (Some df) ws)) as [|m l] eqn:E;
    [reflexivity|].
  assert (Hin : In m (returned (calculate_hv_metrics (Some df) ws)))
    by (rewrite E; now left).
  destruct (returned_row_shape df ws m Hin) as (i & b & -> & Hc).
  destruct (complete_parts _ Hc) as (Hh & _).
  assert (Hm : In (1%nat, cell (hv_col df 1) i) (hv (metrics_at df ws i b))).
  { cbn [hv metrics_at]. apply in_map_iff. now exists 1%nat. }
  specialize (Hh _ Hm). cbn [snd] in Hh. rewrite Hcell in Hh. discriminate.
Qed.

Lemma window_1_empties_result_witness :
  returned (calculate_hv_metrics (Some (daily_bars [100; 101; 99; 102; 98]))
              [1; 2; 3]%nat) = [].
Proof.
  apply (proj2 (window_1_empties_result (daily_bars [100; 101; 99; 102; 98])
                  [1; 2; 3]%nat ltac:(now left))).
Defined.

End ScreenerRms.

(** ** The window list of the sidebar *)

Section SidebarWindows.
Import Ascii Sidebar ScreenerNotions.

Example parse_windows_default :
  parse_windows "2,3,7,14,30,60,90" = [2; 3; 7; 14; 30; 60; 90].
Proof. reflexivity. Qed.

Example parse_windows_untidy :
  parse_windows " 14, 7,x, 7 ,0,,-3" = [7; 14].
Proof. reflexivity. Qed.

Lemma insert_unique_In x y l : In y (insert_unique x l) <-> y = x \/ In y l.
Proof.
  induction l as [|z l IH]; cbn [insert_unique].
  - simpl. intuition.
  - destruct (Nat.ltb_spec x z); [simpl; intuition|].
    destruct (Nat.eqb_spec x z); [subst; simpl; intuition|].
    simpl. rewrite IH. intuition.
Qed.

Lemma insert_unique_sorted x l :
  StronglySorted lt l -> StronglySorted lt (insert_unique x l).
Proof.
  induction 1 as [|z l Hl IH Hz]; cbn [insert_unique].
  - repeat constructor.
  - destruct (Nat.ltb_spec x z).
    + constructor; [now constructor|]. constructor; [assumption|].
      rewrite Forall_forall in *. intros y Hy. specialize (Hz y Hy). lia.
    + destruct (Nat.eqb_spec x z); [now constructor|].
      constructor; [assumption|]. rewrite Forall_forall in *.
      intros y Hy. apply insert_unique_In in Hy as [->|Hy]; [lia | now apply Hz].
Qed.

Lemma sorted_set_sorted l : StronglySorted lt (sorted_set l).
Proof. induction l; cbn; [constructor | now apply insert_unique_sorted]. Qed.

Lemma sorted_set_In y l : In y (sorted_set l) <-> In y l.
Proof.
  induction l as [|x l IH]; cbn [sorted_set fold_right]; [reflexivity|].
  fold (sorted_set l). rewrite insert_unique_In, IH. simpl. intuition.
Qed.

Lemma parsed_positive (cands : list chars) :
  Forall (fun w => 0 < w)
    (sorted_set (map int (filter (fun x => isdigit x && (0 <? int x)) cands))).
Proof.
  apply Forall_forall. intros w Hw. apply (proj1 (sorted_set_In _ _)) in Hw.
  apply in_map_iff in Hw as (x & <- & Hx).
  apply filter_In in Hx as [_ Hx]. apply andb_true_iff in Hx as [_ Hx].
  now apply Nat.ltb_lt in Hx.
Qed.

(** X10. Whatever ASCII text is typed, the window list is not empty,
    strictly increasing (so without duplicates) and positive: non-numeric
    and non-positive entries are dropped, and an empty result is replaced by
    7, 14, 30.  So [calculate_hv_metrics] never raises on it. *)
Theorem parse_windows_well_formed (windows_input : string) :
  let ws := parse_windows windows_input in
  ws <> [] /\ StronglySorted lt ws /\ Forall (fun w => 0 < w) ws /\
  forall df, Screener.calculate_hv_metrics df ws <> Screener.ValueError.
Proof.
  cbv zeta. unfold parse_windows.
  pose proof (parsed_positive
                (map strip (split ","%char (list_ascii_of_string windows_input))))
    as Hpos.
  pose proof (sorted_set_sorted
                (map int
                   (filter (fun x => isdigit x && (0 <? int x))
                      (map strip
                         (split ","%char (list_ascii_of_string windows_input))))))
    as Hs.
  assert (Hgoal : forall ws, ws <> [] -> StronglySorted lt ws ->
            Forall (fun w => 0 < w) ws ->
            ws <> [] /\ StronglySorted lt ws /\ Forall (fun w => 0 < w) ws /\
            forall df, Screener.calculate_hv_metrics df ws <> Screener.ValueError).
  { intros ws Hne H1 H2. repeat split; try assumption.
    intros df. unfold Screener.calculate_hv_metrics.
    destruct df as [[|b d]|]; try discriminate.
    destruct ws; [congruence|].
    destruct (length (b :: d) <? Screener.max_window (n :: ws) + 1); discriminate. }
  destruct (sorted_set _) as [|w ws].
  - apply Hgoal; [discriminate | repeat constructor; lia | repeat constructor; lia].
  - apply Hgoal; [discriminate | assumption | assumption].
Qed.

End SidebarWindows.

(** ** The collector: latest volatility, Parkinson, and the record list *)

Section CollectorLatest.
Import Pandas LogReturns Collector CollectorNotions Realized.
Local Open Scope Z_scope.

Lemma sorted_filter {A} (R : A -> A -> Prop) (p : A -> bool) (l : list A) :
  StronglySorted R l -> StronglySorted R (filter p l).
Proof.
  induction 1 as [|x l Hl IH Hx]; cbn [filter]; [constructor|].
  destruct (p x); [|assumption]. constructor; [assumption|].
  now apply Forall_filter_sub.
Qed.

Lemma prepared_sorted (l : list row) : StronglySorted by_date (prepared l).
Proof. unfold prepared, dropna_price. apply sorted_filter, sort_values_sorted. Qed.

Lemma sorted_last {A} (R : A -> A -> Prop) (l : list A) (x : A) :
  StronglySorted R (l ++ [x]) -> Forall (fun y => R y x) l.
Proof.
  induction l as [|y l IH]; cbn [app]; intros H; [constructor|].
  inversion H as [|? ? Hs Hf]; subst. constructor.
  - rewrite Forall_forall in Hf. apply Hf. apply in_or_app. right. now left.
  - now apply IH.
Qed.

Lemma filter_upto_last (l : list row) (r : row) :
  StronglySorted by_date (l ++ [r]) ->
  filter (fun x => date x <=? date r) (l ++ [r]) = l ++ [r].
Proof.
  intros H. apply filter_all_true. intros x Hx.
  apply in_app_or in Hx as [Hx|[<-|[]]]; [|apply Z.leb_refl].
  pose proof (sorted_last _ _ _ H) as Hf. rewrite Forall_forall in Hf.
  apply Z.leb_le. now apply Hf.
Qed.

Lemma tail_map {A B} (g : A -> B) (n : nat) (l : list A) :
  tail n (map g l) = map g (tail n l).
Proof. unfold tail. now rewrite length_map, skipn_map. Qed.

Lemma hv_of_latest f (pd : list row) (init : list row) (r : row) (w : nat) :
  pd = init ++ [r] -> StronglySorted by_date pd -> (w <= length pd)%nat ->
  hv_of f pd (date r) w = calculate_historical_volatility (tail w (map price pd)) w.
Proof.
  intros E Hs Hw. unfold hv_of, window_metrics, historical_data.
  subst pd. rewrite filter_upto_last by assumption.
  rewrite tail_length. replace (Nat.min w (length (init ++ [r]))) with w by lia.
  destruct (Nat.leb_spec (Nat.max 2 (w / 2)) w) as [H|H]; cbn [fst].
  - now rewrite tail_map.
  - assert (Hw2 : (w < 2)%nat).
    { destruct (Nat.lt_ge_cases w 2) as [|H2]; [assumption|].
      assert (w / 2 <= w)%nat by (apply Nat.Div0.div_le_upper_bound; lia). lia. }
    unfold calculate_historical_volatility.
    rewrite tail_length, length_map.
    destruct (Nat.ltb_spec (Nat.min w (length (init ++ [r]))) 2); [reflexivity | lia].
Qed.

(** X11. The [hv_{w}d] values of the latest record are what
    [calculate_realized_volatility] gives on the whole price column, for
    every window no longer than the series; for a longer window
    [calculate_realized_volatility] gives NaN. *)
Theorem latest_record_is_realized_volatility f symbol ws (init : list row) (r : row) :
  prepared (rows f) = init ++ [r] ->
  (Forall (fun w => (w <= length (prepared (rows f)))%nat) ws ->
   hv (record_of f symbol ws (prepared (rows f)) r) =
   calculate_realized_volatility (map price (prepared (rows f))) ws) /\
  (Forall (fun w => (length (prepared (rows f)) < w)%nat) ws ->
   Forall (fun e => snd e = NaN)
     (calculate_realized_volatility (map price (prepared (rows f))) ws)).
Proof.
  intros E. split; intros Hws.
  - cbn [hv record_of]. unfold calculate_realized_volatility.
    apply map_ext_in. intros w Hw. rewrite Forall_forall in Hws.
    specialize (Hws w Hw). rewrite length_map.
    destruct (Nat.leb_spec w (length (prepared (rows f)))); [|lia].
    f_equal. apply (hv_of_latest f _ init r w E); [apply prepared_sorted | assumption].
  - unfold calculate_realized_volatility. apply Forall_forall.
    intros e He. apply in_map_iff in He as (w & <- & Hw). cbn [snd].
    rewrite Forall_forall in Hws. specialize (Hws w Hw). rewrite length_map.
    destruct (Nat.leb_spec w (length (prepared (rows f)))); [lia | reflexivity].
Qed.

Lemma latest_record_is_realized_volatility_witness :
  let f := price_frame (daily [100; 101; 99; 102]%R) in
  hv (record_of f "X" [2; 3; 4]%nat (prepared (rows f)) (price_row 3 102)) =
  calculate_realized_volatility (map price (prepared (rows f))) [2; 3; 4]%nat /\
  Forall (fun e => snd e = NaN)
    (calculate_realized_volatility (map price (prepared (rows f))) [7; 14]%nat).
Proof.
  cbv zeta. split.
  - apply (proj1 (latest_record_is_realized_volatility
                    (price_frame (daily [100; 101; 99; 102]%R)) "X" [2; 3; 4]%nat
                    (daily [100; 101; 99]%R) (price_row 3 102) eq_refl)).
    repeat constructor.
  - apply (proj2 (latest_record_is_realized_volatility
                    (price_frame (daily [100; 101; 99; 102]%R)) "X" [7; 14]%nat
                    (daily [100; 101; 99]%R) (price_row 3 102) eq_refl)).
    repeat constructor; cbn; lia.
Defined.

Lemma filter_insert_length (p : row -> bool) (r : row) (l : list row) :
  length (filter p (insert_by_date r l)) = length (filter p (r :: l)).
Proof.
  induction l as [|x l IH]; [reflexivity|]. cbn [insert_by_date].
  destruct (date r <=? date x); [reflexivity|].
  cbn [filter] in *. destruct (p x), (p r); cbn [length] in *; lia.
Qed.

Lemma filter_sort_values_length (p : row -> bool) (l : list row) :
  length (filter p (sort_values l)) = length (filter p l).
Proof.
  induction l as [|r l IH]; [reflexivity|]. cbn [sort_values fold_right].
  fold (sort_values l). rewrite filter_insert_length. cbn [filter].
  destruct (p r); cbn [length]; now rewrite IH.
Qed.

(** X12. For a frame of at least two rows the collector returns one record per
    row with a price, in ascending date order; each record carries the
    symbol, the date and price of its row, and one [hv] entry for each of
    the windows 7, 14, 30, 60, 90. *)
Theorem records_in_date_order f symbol :
  (2 <= length (rows f))%nat ->
  let out := calculate_hv_metrics (Some f) symbol in
  StronglySorted Z.le (map r_date out) /\
  length out = length (filter (fun r => negb (isna (price r))) (rows f)) /\
  Forall (fun rec =>
            r_symbol rec = symbol /\ map fst (hv rec) = windows /\
            exists r, In r (rows f) /\ r_date rec = date r /\ close_price rec = price r)
    out.
Proof.
  intros Hn. cbv zeta. unfold calculate_hv_metrics, hv_metrics_for.
  destruct (Nat.ltb_spec (length (rows f)) 2); [lia|].
  fold (prepared (rows f)). split; [|split].
  - rewrite map_map. cbn [r_date record_of].
    pose proof (prepared_sorted (rows f)) as Hs.
    induction Hs as [|x l Hl IH Hx]; cbn [map]; constructor; [assumption|].
    rewrite Forall_forall in *. intros d Hd. apply in_map_iff in Hd as (y & <- & Hy).
    now apply Hx.
  - rewrite length_map. unfold prepared, dropna_price.
    apply filter_sort_values_length.
  - apply Forall_forall. intros rec Hrec. apply in_map_iff in Hrec as (r & <- & Hr).
    cbn [r_symbol hv r_date close_price record_of].
    split; [reflexivity|]. split.
    + rewrite map_map. cbn [fst]. apply map_id.
    + exists r. repeat split. unfold prepared, dropna_price in Hr.
      apply filter_In in Hr as [Hr _]. now apply sort_values_In.
Qed.

Lemma records_in_date_order_witness :
  StronglySorted Z.le
    (map r_date
       (calculate_hv_metrics
          (Some (price_frame [price_row 2 99; price_row 0 100; price_row 1 101])) "X")).
Proof.
  apply (records_in_date_order
           (price_frame [price_row 2 99; price_row 0 100; price_row 1 101]) "X").
  cbn. lia.
Defined.

End CollectorLatest.

Section Parkinson.
Import Pandas LogReturns Collector CollectorNotions Realized.
Local Open Scope R_scope.

Lemma smean_zeros (s : series) :
  s <> [] -> Forall (eq (fin 0)) s -> smean s = fin 0.
Proof.
  intros Hne H. unfold smean.
  assert (Hd : dropna s = map (fun _ => 0) s).
  { clear Hne. induction H as [|x s <- _ IH]; [reflexivity|].
    unfold fin. cbn [dropna map]. now rewrite IH. }
  rewrite Hd, length_map. destruct s as [|x s]; [congruence|].
  cbn [length Nat.eqb]. unfold fin. f_equal. unfold mean.
  rewrite sum_zeros; [unfold Rdiv; ring|].
  clear. induction (x :: s); cbn [map]; constructor; auto.
Qed.

(** X14. The Parkinson estimate is NaN when the frame lacks a [high] or a
    [low] column or the slice is empty, and exactly 0 on a non-empty slice
    whose rows all have [high] equal to [low] and positive. *)
Theorem parkinson_edge_cases (f : frame) (data : list row) :
  (has_high f && has_low f = false -> calculate_parkinson_volatility f data = NaN) /\
  (data = [] -> calculate_parkinson_volatility f data = NaN) /\
  (has_high f && has_low f = true -> data <> [] ->
   Forall (fun r => high r = low r /\ positive (high r)) data ->
   calculate_parkinson_volatility f data = fin 0).
Proof.
  unfold calculate_parkinson_volatility. split; [|split].
  - intros ->. reflexivity.
  - intros ->. destruct (negb (has_high f && has_low f)); reflexivity.
  - intros -> Hne H. cbn [negb].
    assert (Hz : Forall (eq (fin 0))
                   (map (fun x => fsq (flog x)) (zip_with fdiv (map high data) (map low data)))).
    { clear Hne. unfold zip_with.
      induction H as [|r l [Hr Hp] _ IH]; cbn [map combine]; constructor; [|exact IH].
      cbn [fst snd]. rewrite <- Hr. destruct (high r) as [h|]; [|contradiction].
      cbn in Hp. change (Some h) with (fin h). rewrite flog_fdiv_pos by assumption.
      replace (h / h) with 1 by (field; lra). rewrite ln_1.
      unfold fsq, fmul, fin. f_equal. ring. }
    rewrite smean_zeros; [|destruct data; [congruence | discriminate] | exact Hz].
    unfold fdiv, fin.
    pose proof ln_2_pos as Hl.
    destruct (Req_dec_T (4 * ln 2) 0); [lra|].
    unfold fmul, fsqrt.
    replace (0 / (4 * ln 2) * 365) with 0 by (unfold Rdiv; ring).
    destruct (Rle_dec 0 0); [|lra]. now rewrite sqrt_0.
Qed.

Lemma parkinson_edge_cases_witness :
  let f := mkFrame true false false true true [] in
  let bar := mkRow 0 (fin 100) (fin 5) NaN NaN NaN NaN NaN (fin 100) (fin 100) in
  calculate_parkinson_volatility (price_frame []) [bar] = NaN /\
  calculate_parkinson_volatility f [] = NaN /\
  calculate_parkinson_volatility f [bar] = fin 0.
Proof.
  cbv zeta. split; [|split].
  - apply (proj1 (parkinson_edge_cases (price_frame []) _)). reflexivity.
  - apply (proj1 (proj2 (parkinson_edge_cases _ []))). reflexivity.
  - apply (proj2 (proj2 (parkinson_edge_cases (mkFrame true false false true true []) _))).
    + reflexivity.
    + discriminate.
    + repeat constructor. cbn. lra.
Defined.

End Parkinson.

(** ** Paginated fetches *)

Section PagingLoop.
Import Paging.

Context {A : Type}.
Variable stamp : A -> Z.
Variable limit : nat.
Variable step : Z.
Variable end_time : Z.

Lemma fst_cons_request {R} (p : R * list Z) (c : Z) :
  fst (let (r, reqs) := p in (r, c :: reqs)) = fst p.
Proof. now destruct p. Qed.

Lemma snd_cons_request {R} (p : R * list Z) (c : Z) :
  snd (let (r, reqs) := p in (r, c :: reqs)) = c :: snd p.
Proof. now destruct p. Qed.

(** X15. Rate-limit answers change nothing but the number of requests: the
    outcome of a fetch is the one it has on the script with every 429
    answer removed. *)
Theorem rate_limits_are_transparent (script : list (response A)) (c : Z) (all : list A) :
  fst (fetch_pages stamp limit step end_time (filter (fun r => negb (is_rate_limited r)) script) c all) =
  fst (fetch_pages stamp limit step end_time script c all).
Proof.
  revert c all. induction script as [|resp rest IH]; intros c all; [reflexivity|].
  destruct resp as [data| |]; cbn [filter is_rate_limited negb fetch_pages].
  - destruct (c <? end_time)%Z; [|reflexivity].
    destruct (last_error data); [|reflexivity].
    destruct (length data <? limit); [reflexivity|].
    now rewrite !fst_cons_request, IH.
  - rewrite IH. destruct (c <? end_time)%Z eqn:E.
    + now rewrite fst_cons_request.
    + destruct rest; cbn [fetch_pages]; now rewrite E.
  - destruct (c <? end_time)%Z; reflexivity.
Qed.

(** X16. There is no bound on the retries: after any number of 429 answers
    the fetch is still waiting, and every request so far asked for the same
    page. *)
Theorem rate_limits_are_retried_forever (n : nat) (c : Z) (all : list A) :
  (c < end_time)%Z ->
  fetch_pages stamp limit step end_time (repeat RateLimited n) c all = (Pending, repeat c n).
Proof.
  intros H. apply Z.ltb_lt in H.
  induction n as [|n IH]; cbn [repeat fetch_pages]; rewrite H; [reflexivity|].
  now rewrite IH.
Qed.

Lemma finish_some (all d : list A) : finish all = Some d -> d = all /\ d <> [].
Proof. destruct all; cbn; [discriminate|]. intros [= <-]. split; [reflexivity | discriminate]. Qed.

Lemma finish_none (all : list A) : finish all = None -> all = [].
Proof. destruct all; cbn; [reflexivity | discriminate]. Qed.

Lemma last_error_none (data : list A) : last_error data = None -> data = [].
Proof.
  unfold last_error. destruct (rev data) eqn:E; [|discriminate].
  intros _. apply (f_equal (@rev A)) in E. now rewrite rev_involutive in E.
Qed.

Lemma fetch_pages_some_nonempty (script : list (response A)) (c : Z) (all d : list A) :
  fst (fetch_pages stamp limit step end_time script c all) = Finished (Some d) -> d <> [].
Proof.
  revert c all. induction script as [|resp rest IH]; intros c all; cbn [fetch_pages].
  - destruct (c <? end_time)%Z; cbn [fst]; [discriminate|].
    intros [= E]. now destruct (finish_some _ _ E).
  - destruct (c <? end_time)%Z; cbn [fst].
    2:{ intros [= E]. now destruct (finish_some _ _ E). }
    destruct resp as [data| |]; cbn [fst].
    + destruct (last_error data) as [x|]; cbn [fst].
      * destruct (length data <? limit); cbn [fst].
        -- intros [= E]. now destruct (finish_some _ _ E).
        -- rewrite fst_cons_request. apply IH.
      * intros [= E]. now destruct (finish_some _ _ E).
    + rewrite fst_cons_request. apply IH.
    + discriminate.
Qed.

(** X17. All or nothing.  With [consumed] the answers a fetch has used: if it
    returns rows, they are the rows it started with followed by the rows of
    the pages among [consumed], in order, and no answer was a failure; if an
    answer was a failure it returns [None], whatever pages came before; if
    it is still waiting it has used the whole script. *)
Theorem fetch_pages_all_or_nothing (script : list (response A)) (c : Z) (all : list A) :
  let res := fetch_pages stamp limit step end_time script c all in
  let consumed := firstn (length (snd res)) script in
  (existsb is_failure consumed = true -> fst res = Finished None) /\
  match fst res with
  | Finished (Some d) =>
      d = all ++ pages consumed /\ d <> [] /\ existsb is_failure consumed = false
  | Finished None => existsb is_failure consumed = true \/ all ++ pages consumed = []
  | Pending => consumed = script
  end.
Proof.
  cbv zeta. revert c all. induction script as [|resp rest IH]; intros c all.
  - cbn [fetch_pages]. destruct (c <? end_time)%Z; cbn.
    + split; [discriminate | reflexivity].
    + split; [discriminate|]. rewrite app_nil_r.
      destruct (finish all) as [d|] eqn:E.
      * destruct (finish_some _ _ E). now repeat split.
      * right. now apply finish_none.
  - cbn [fetch_pages]. destruct (c <? end_time)%Z.
    2:{ cbn. split; [discriminate|]. rewrite app_nil_r.
        destruct (finish all) as [d|] eqn:E.
        - destruct (finish_some _ _ E). now repeat split.
        - right. now apply finish_none. }
    destruct resp as [data| |].
    + destruct (last_error data) as [x|] eqn:El.
      * destruct (length data <? limit).
        -- cbn. rewrite app_nil_r. split; [discriminate|].
           destruct (finish (all ++ data)) as [d|] eqn:E.
           ++ destruct (finish_some _ _ E). now repeat split.
           ++ right. now apply finish_none.
        -- rewrite fst_cons_request, snd_cons_request. cbn [length firstn].
           specialize (IH (stamp x + step)%Z (all ++ data)).
           cbn [existsb is_failure orb pages flat_map].
           fold (pages (firstn (length (snd (fetch_pages stamp limit step end_time rest (stamp x + step)%Z (all ++ data)))) rest)).
           rewrite <- app_assoc in IH. destruct IH as [IH1 IH2].
           split; [exact IH1|].
           destruct (fst (fetch_pages stamp limit step end_time rest
                            (stamp x + step)%Z (all ++ data))) as [[d|]|];
             try exact IH2.
           now f_equal.
      * cbn. apply last_error_none in El. subst data. rewrite !app_nil_r.
        split; [discriminate|].
        destruct (finish all) as [d|] eqn:E.
        -- destruct (finish_some _ _ E). now repeat split.
        -- right. now apply finish_none.
    + rewrite fst_cons_request, snd_cons_request. cbn [length firstn].
      specialize (IH c all). cbn [existsb is_failure orb pages flat_map app].
      fold (pages (firstn (length (snd (fetch_pages stamp limit step end_time rest c all))) rest)).
      destruct IH as [IH1 IH2]. split; [exact IH1|].
      destruct (fst (fetch_pages stamp limit step end_time rest c all)) as [[d|]|]; try exact IH2.
      now f_equal.
    + cbn. split; [reflexivity | now left].
Qed.

End PagingLoop.

Section PagingWitnesses.
Import Paging.

Lemma rate_limits_are_retried_forever_witness :
  fetch_pages (fun x : Z => x) 1500 1 100 (repeat RateLimited 3) 0 [] =
  (Pending, repeat 0%Z 3).
Proof.
  apply (rate_limits_are_retried_forever (fun x : Z => x) 1500 1 100 3 0 []). lia.
Defined.

Lemma fetch_pages_all_or_nothing_witness :
  fst (fetch_pages (fun x : Z => x) 2 1 100 [Page [1; 2]; Failure]%Z 0 []) =
  Finished None.
Proof.
  apply (proj1 (fetch_pages_all_or_nothing (fun x : Z => x) 2 1 100
                  [Page [1; 2]; Failure]%Z 0 [])).
  reflexivity.
Defined.

End PagingWitnesses.

(* ===================================================================== *)
(** ** The provider frames *)
(* ===================================================================== *)

Section FundingByDay.
Import Pandas Collector Paging Binance ProviderNotions.

Lemma insert_day_In d l x : In x (insert_day d l) <-> x = d \/ In x l.
Proof.
  induction l as [|y l IH]; cbn [insert_day In]; [intuition|].
  destruct (d <? y)%Z; [cbn [In]; intuition|].
  destruct (d =? y)%Z eqn:E.
  - apply Z.eqb_eq in E. subst. cbn [In]. intuition.
  - cbn [In]. rewrite IH. intuition.
Qed.

Lemma insert_day_sorted d l :
  StronglySorted Z.lt l -> StronglySorted Z.lt (insert_day d l).
Proof.
  induction 1 as [|y l Hl IH Hy]; cbn [insert_day].
  - repeat constructor.
  - destruct (d <? y)%Z eqn:E1.
    + apply Z.ltb_lt in E1. constructor; [now constructor|].
      constructor; [assumption|].
      eapply Forall_impl; [|exact Hy]. intros a Ha. cbn in Ha. lia.
    + destruct (d =? y)%Z eqn:E2; [now constructor|].
      apply Z.ltb_ge in E1. apply Z.eqb_neq in E2.
      constructor; [assumption|].
      apply Forall_forall. intros a Ha. apply insert_day_In in Ha.
      destruct Ha as [->|Ha]; [lia|].
      rewrite Forall_forall in Hy. now apply Hy.
Qed.

Lemma days_sorted l : StronglySorted Z.lt (days l).
Proof.
  unfold days. induction (map _ l) as [|d ds IH]; cbn [fold_right].
  - constructor.
  - now apply insert_day_sorted.
Qed.

Lemma days_In l d :
  In d (days l) <-> exists e, In e l /\ midnight (fundingTime e) = d.
Proof.
  unfold days. induction l as [|e l IH]; cbn [map fold_right In].
  - split; [tauto | intros (e & [] & _)].
  - rewrite insert_day_In, IH. split.
    + intros [->|(e' & He' & E)]; [exists e; auto | exists e'; auto].
    + intros (e' & [->|He'] & E); [left; now symmetry | right; exists e'; auto].
Qed.

Lemma sorted_lt_NoDup l : StronglySorted Z.lt l -> NoDup l.
Proof.
  induction 1 as [|y l Hl IH Hy]; constructor; [|assumption].
  intros Hin. rewrite Forall_forall in Hy. specialize (Hy _ Hin). lia.
Qed.

Lemma daily_funding_dates l : map fst (daily_funding l) = days l.
Proof.
  unfold daily_funding. rewrite map_map. cbn [fst]. apply map_id.
Qed.

(** X18. The daily funding table holds one row per calendar day on which a
    funding event fell: its dates are midnights, strictly ascending (so no
    day twice), they are exactly the days of the events, and the rate of a
    day is the mean of that day's rates. *)
Theorem daily_funding_one_row_per_day (l : list funding_event) :
  StronglySorted Z.lt (map fst (daily_funding l))
  /\ (forall d, In d (map fst (daily_funding l)) <->
                exists e, In e l /\ midnight (fundingTime e) = d)
  /\ (forall d v, In (d, v) (daily_funding l) ->
                  midnight d = d /\ v = smean (rates_of_day l d)).
Proof.
  rewrite daily_funding_dates. split; [apply days_sorted|].
  split; [apply days_In|].
  intros d v H. unfold daily_funding in H. apply in_map_iff in H.
  destruct H as (d' & E & Hd). inversion E; subst d' v. split; [|reflexivity].
  apply days_In in Hd. destruct Hd as (e & _ & <-).
  unfold midnight. f_equal.
  rewrite Z.mul_comm, Z.div_mul; [reflexivity | unfold day_ms; lia].
Qed.

End FundingByDay.

Section BinanceFrame.
Import Pandas Collector Paging Binance ProviderNotions CollectorNotions.

Lemma filter_unique_key {B : Type} (right : list (Z * B)) (d : Z) :
  NoDup (map fst right) ->
  filter (fun e => (fst e =? d)%Z) right =
  match find (fun e => (fst e =? d)%Z) right with
  | Some e => [e]
  | None => []
  end.
Proof.
  induction right as [|e right IH]; cbn [map filter find]; [reflexivity|].
  intros H. inversion H as [|? ? Hn Hr]; subst.
  destruct (fst e =? d)%Z eqn:E.
  - f_equal. apply Z.eqb_eq in E.
    assert (Hnone : forall l, ~ In d (map fst l) ->
              filter (fun e0 : Z * B => (fst e0 =? d)%Z) l = []).
    { clear. induction l as [|x l IHl]; cbn [map filter In]; [reflexivity|].
      intros Hx. destruct (fst x =? d)%Z eqn:Ex.
      - apply Z.eqb_eq in Ex. tauto.
      - apply IHl. tauto. }
    apply Hnone. now rewrite <- E.
  - now apply IH.
Qed.

Lemma flat_map_step {X Y : Type} (f : X -> list Y) (x : X) (l : list X) :
  flat_map f (x :: l) = f x ++ flat_map f l.
Proof. reflexivity. Qed.

Lemma merge_left_unique {B : Type} (set : row -> option B -> row)
  (left : list row) (right : list (Z * B)) :
  NoDup (map fst right) ->
  merge_left set left right = map (fun r => set r (lookup right (date r))) left.
Proof.
  intros H. unfold merge_left.
  induction left as [|r left IH]; [reflexivity|].
  rewrite flat_map_step, IH. cbn [map].
  rewrite (filter_unique_key right (date r) H). unfold lookup.
  destruct (find (fun e : Z * B => (fst e =? date r)%Z) right); reflexivity.
Qed.

Lemma merge_left_length_ge {B : Type} (set : row -> option B -> row)
  (left : list row) (right : list (Z * B)) :
  (length left <= length (merge_left set left right))%nat.
Proof.
  unfold merge_left. induction left as [|r left IH]; [cbn [flat_map length]; lia|].
  rewrite flat_map_step, length_app.
  set (n := length (flat_map _ left)) in *. clearbody n.
  destruct (filter _ right) as [|m ms]; cbn [map length]; lia.
Qed.

Lemma insert_by_date_map (g : row -> row) r l :
  (forall x, date (g x) = date x) ->
  insert_by_date (g r) (map g l) = map g (insert_by_date r l).
Proof.
  intros Hg. induction l as [|x l IH]; cbn [map insert_by_date]; [reflexivity|].
  rewrite !Hg. destruct (date r <=? date x)%Z; cbn [map]; [reflexivity|].
  now rewrite IH.
Qed.

Lemma sort_values_map (g : row -> row) l :
  (forall x, date (g x) = date x) ->
  sort_values (map g l) = map g (sort_values l).
Proof.
  intros Hg. induction l as [|r l IH]; cbn [map sort_values fold_right]; [reflexivity|].
  fold (sort_values (map g l)). fold (sort_values l).
  rewrite IH. now apply insert_by_date_map.
Qed.

Lemma insert_by_date_length r l : length (insert_by_date r l) = S (length l).
Proof.
  induction l as [|x l IH]; cbn [insert_by_date length]; [reflexivity|].
  destruct (date r <=? date x)%Z; cbn [length]; congruence.
Qed.

Lemma sort_values_length l : length (sort_values l) = length l.
Proof.
  induction l as [|r l IH]; cbn [sort_values fold_right length]; [reflexivity|].
  fold (sort_values l). now rewrite insert_by_date_length, IH.
Qed.

Lemma find_daily_funding fs d :
  match lookup (daily_funding fs) d with Some x => x | None => NaN end
  = smean (rates_of_day fs d).
Proof.
  unfold lookup, daily_funding.
  assert (Hfind : forall L,
            find (fun e : Z * float => (fst e =? d)%Z)
                 (map (fun d0 => (d0, smean (rates_of_day fs d0))) L)
            = if existsb (Z.eqb d) L then Some (d, smean (rates_of_day fs d)) else None).
  { induction L as [|y L IHL]; cbn [map find existsb fst]; [reflexivity|].
    rewrite (Z.eqb_sym d y). destruct (y =? d)%Z eqn:E; cbn [orb].
    - apply Z.eqb_eq in E. now subst.
    - exact IHL. }
  change (map _ (days fs)) with (map (fun d0 => (d0, smean (rates_of_day fs d0))) (days fs)).
  rewrite Hfind. destruct (existsb (Z.eqb d) (days fs)) eqn:E; [reflexivity|].
  cbn [option_map].
  assert (Hempty : filter (fun e => (midnight (fundingTime e) =? d)%Z) fs = []).
  { destruct (filter _ fs) as [|e l] eqn:F; [reflexivity|].
    assert (He : In e (filter (fun e => (midnight (fundingTime e) =? d)%Z) fs))
      by (rewrite F; now left).
    apply filter_In in He. destruct He as [He1 He2]. apply Z.eqb_eq in He2.
    assert (Hd : In d (days fs)) by (apply days_In; eauto).
    assert (Hex : existsb (Z.eqb d) (days fs) = true).
    { apply existsb_exists. exists d. split; [assumption | apply Z.eqb_refl]. }
    congruence. }
  unfold rates_of_day. rewrite Hempty. reflexivity.
Qed.

(** X19. With the daily funding table merged in, and open-interest entries
    of pairwise distinct dates (or none), the Binance frame has exactly one
    row per kline, in date order with the kline's close as price, and the
    funding rate of a row is the mean of the rates of the funding events of
    the day that starts at the row's date; it is missing when there is none,
    in particular when the date is not a midnight. *)
Theorem binance_frame_rows (all_klines : list kline) (fs : list funding_event)
  (open_interest : option (list (Z * (float * float)))) :
  distinct_dates open_interest ->
  let f := binance_frame all_klines (Some (daily_funding fs)) open_interest in
  map (fun r => (date r, price r)) (rows f)
  = map (fun r => (date r, price r)) (sort_values (map kline_row all_klines))
  /\ Forall (fun r => funding_rate r = smean (rates_of_day fs (date r))) (rows f).
Proof.
  intros Hoi f.
  pose (g1 := fun r => set_funding r (lookup (daily_funding fs) (date r))).
  pose (g2 := fun r : row =>
                match open_interest with
                | Some oi => set_oi r (lookup oi (date r))
                | None => r
                end).
  assert (Hrows : rows f = map g2 (map g1 (sort_values (map kline_row all_klines)))).
  { unfold f, binance_frame. cbn [rows].
    rewrite (merge_left_unique set_funding _ (daily_funding fs))
      by (rewrite daily_funding_dates; apply sorted_lt_NoDup, days_sorted).
    fold g1.
    assert (E : match open_interest with
                | Some oi => merge_left set_oi (map g1 (map kline_row all_klines)) oi
                | None => map g1 (map kline_row all_klines)
                end = map g2 (map g1 (map kline_row all_klines))).
    { unfold g2. destruct open_interest as [oi|].
      - now apply merge_left_unique.
      - now rewrite map_id. }
    rewrite E.
    rewrite sort_values_map by (intros x; unfold g2; now destruct open_interest).
    now rewrite sort_values_map by reflexivity. }
  rewrite Hrows. split.
  - rewrite !map_map. apply map_ext. intros r. unfold g2, g1.
    now destruct open_interest.
  - apply Forall_forall. intros r Hr. apply in_map_iff in Hr.
    destruct Hr as (r1 & <- & Hr1). apply in_map_iff in Hr1.
    destruct Hr1 as (r0 & <- & _).
    assert (E : funding_rate (g2 (g1 r0)) = funding_rate (g1 r0)
                /\ date (g2 (g1 r0)) = date r0)
      by (unfold g2, g1; now destruct open_interest).
    destruct E as [-> ->]. unfold g1. cbn [set_funding funding_rate].
    apply find_daily_funding.
Qed.

(** X20. A failed funding or open-interest fetch does not fail the Binance
    price fetch: once the two auxiliary fetches have returned, the result is
    [None] exactly when the kline loop gave nothing, and a returned frame is
    never empty, has no high or low column, and has the funding and the
    open-interest columns exactly when the respective fetch succeeded. *)
Theorem binance_auxiliary_failures_tolerated (start_time end_time : Z)
  (klines : list (response kline)) (funding : list (response funding_event))
  (oi : list (response oi_entry)) funding_rates open_interest :
  fetch_binance_funding_rates start_time end_time funding = Finished funding_rates ->
  fetch_binance_open_interest start_time end_time oi = Finished open_interest ->
  (fetch_binance_futures_data start_time end_time klines funding oi = Finished None
   <-> fst (fetch_pages k_timestamp 1500 1 end_time klines start_time []) = Finished None)
  /\ forall f,
       fetch_binance_futures_data start_time end_time klines funding oi = Finished (Some f) ->
       rows f <> []
       /\ has_high f = false /\ has_low f = false
       /\ has_funding f = present funding_rates
       /\ has_oi f = present open_interest.
Proof.
  intros Hf Ho. unfold fetch_binance_futures_data. rewrite Hf, Ho.
  pose proof (fetch_pages_some_nonempty k_timestamp 1500%nat 1%Z end_time
                klines start_time []) as Hall.
  destruct (fst (fetch_pages k_timestamp 1500 1 end_time klines start_time []))
    as [[ks|]|] eqn:E.
  - split; [split; discriminate|].
    intros f Hfr. inversion Hfr; subst f. unfold binance_frame.
    cbn [rows has_high has_low has_funding has_oi].
    assert (Hks : ks <> []) by (exact (Hall ks eq_refl)).
    split.
    + intros Hnil. apply (f_equal (@length row)) in Hnil.
      rewrite sort_values_length in Hnil. cbn [length] in Hnil.
      assert (Hlen : (length ks <= 0)%nat).
      { rewrite <- Hnil.
        destruct open_interest as [o|], funding_rates as [fr|];
          repeat (etransitivity; [|apply merge_left_length_ge]);
          now rewrite length_map. }
      destruct ks; [congruence | cbn [length] in Hlen; lia].
    + now destruct funding_rates, open_interest.
  - split; [split; reflexivity | discriminate].
  - split; [split; discriminate | discriminate].
Qed.

End BinanceFrame.

Section BinanceFrameWitnesses.
Import Pandas Collector Paging Binance ProviderNotions.

Lemma binance_frame_rows_witness :
  Forall (fun r => funding_rate r
                   = smean (rates_of_day [mkFunding 1000 (fin 1); mkFunding 28800000 (fin 3)]
                              (date r)))
    (rows (binance_frame
             [mkKline 0 (fin 1) (fin 2) (fin 1) (fin 2) (fin 5) 86399999 (fin 9) (fin 4)
                (fin 1) (fin 1) (fin 0)]
             (Some (daily_funding [mkFunding 1000 (fin 1); mkFunding 28800000 (fin 3)]))
             (Some [(0%Z, (fin 7, fin 8)); (86400000%Z, (fin 7, fin 9))]))).
Proof.
  apply (proj2 (binance_frame_rows
                  [mkKline 0 (fin 1) (fin 2) (fin 1) (fin 2) (fin 5) 86399999 (fin 9) (fin 4)
                     (fin 1) (fin 1) (fin 0)]
                  [mkFunding 1000 (fin 1); mkFunding 28800000 (fin 3)]
                  (Some [(0%Z, (fin 7, fin 8)); (86400000%Z, (fin 7, fin 9))])
                  ltac:(cbn; constructor;
                        [intros [H|[]]; discriminate H
                        | constructor; [intros [] | constructor]]))).
Defined.

Lemma binance_auxiliary_failures_tolerated_witness :
  fetch_binance_futures_data 0 100
    [Page [mkKline 0 (fin 1) (fin 2) (fin 1) (fin 2) (fin 5) 99 (fin 9) (fin 4)
             (fin 1) (fin 1) (fin 0)]]
    [Failure] [RateLimited; Failure] = Finished None
  <-> fst (fetch_pages k_timestamp 1500 1 100
             [Page [mkKline 0 (fin 1) (fin 2) (fin 1) (fin 2) (fin 5) 99 (fin 9) (fin 4)
                      (fin 1) (fin 1) (fin 0)]] 0 []) = Finished None.
Proof.
  apply (proj1 (binance_auxiliary_failures_tolerated 0 100
                  [Page [mkKline 0 (fin 1) (fin 2) (fin 1) (fin 2) (fin 5) 99 (fin 9) (fin 4)
                           (fin 1) (fin 1) (fin 0)]]
                  [Failure] [RateLimited; Failure] None None eq_refl eq_refl)).
Defined.

End BinanceFrameWitnesses.

(* ===================================================================== *)
(** ** CoinGecko, Kraken and the Parkinson column *)
(* ===================================================================== *)

Section SingleRequestProviders.
Import Pandas Collector Paging Binance Providers ProviderNotions CollectorNotions.

(** X21. A frame from CoinGecko comes from the first answer that is not a
    429: with [n] requests sent, the first [n - 1] answers were 429s and
    answer [n] was a non-empty price array, of which the frame is the rows in
    date order.  So the frame is never empty, and the asset has a CoinGecko
    id. *)
Theorem fetch_coingecko_data_first_answer (coin_id : option string)
  (script : list (response (Z * float))) (f : frame) (n : nat) :
  fetch_coingecko_data coin_id script = (Finished (Some f), n) ->
  no_coin_id coin_id = false
  /\ (1 <= n)%nat
  /\ firstn (n - 1) script = repeat RateLimited (n - 1)
  /\ (exists prices,
        nth_error script (n - 1) = Some (Page prices)
        /\ prices <> []
        /\ f = coingecko_frame prices)
  /\ rows f <> []
  /\ StronglySorted by_date (rows f).
Proof.
  revert n. induction script as [|resp rest IH]; intros n; cbn [fetch_coingecko_data].
  - destruct (no_coin_id coin_id); discriminate.
  - destruct (no_coin_id coin_id) eqn:Eid; [discriminate|].
    destruct resp as [[|p ps]| |].
    + discriminate.
    + intros [= <- <-]. split; [reflexivity|]. split; [lia|]. split; [reflexivity|].
      split; [exists (p :: ps); repeat split; discriminate|].
      split.
      * intros H. apply (f_equal (@length row)) in H. unfold coingecko_frame in H.
        cbn [rows] in H. rewrite sort_values_length in H. discriminate H.
      * apply sort_values_sorted.
    + destruct (fetch_coingecko_data coin_id rest) as [r m] eqn:E.
      intros [= -> <-]. destruct (IH m) as (_ & Hm & Hfirst & (prices & Hnth & Hp & Hf) & Hrows & Hs).
      { rewrite <- E. cbn [fetch_coingecko_data]. destruct rest; now rewrite ?Eid. }
      split; [reflexivity|]. split; [lia|].
      destruct m as [|m]; [lia|]. cbn [Nat.sub] in *. rewrite Nat.sub_0_r in *.
      split; [cbn [firstn repeat]; now rewrite Hfirst|].
      split; [exists prices; now repeat split|]. now split.
    + discriminate.
Qed.

(** X22. Kraken is asked at most once, and only for the eleven symbols of
    its pair table; no answer is retried.  A frame it returns is in date
    order and holds only rows inside the collection's date range. *)
Theorem fetch_kraken_options_iv_in_range (start_date end_date : Z) (symbol : string)
  (answer : kraken_response) :
  (snd (fetch_kraken_options_iv start_date end_date symbol answer) <= 1)%nat
  /\ (has_kraken_pair symbol = false ->
      fetch_kraken_options_iv start_date end_date symbol answer = (None, 0%nat))
  /\ forall f,
       fst (fetch_kraken_options_iv start_date end_date symbol answer) = Some f ->
       has_kraken_pair symbol = true
       /\ StronglySorted by_date (rows f)
       /\ Forall (fun r => (start_date <= date r <= end_date)%Z) (rows f).
Proof.
  unfold fetch_kraken_options_iv.
  destruct (has_kraken_pair symbol); cbn [negb].
  - split; [destruct answer as [[?|]|]; cbn [snd]; lia|].
    split; [discriminate|].
    intros f. destruct answer as [[ohlc|]|]; cbn [fst]; try discriminate.
    intros [= <-]. split; [reflexivity|]. unfold kraken_frame. cbn [rows]. split.
    + apply sorted_filter, sort_values_sorted.
    + apply Forall_forall. intros r Hr. apply filter_In in Hr. destruct Hr as [_ Hr].
      unfold in_range in Hr. apply andb_prop in Hr. destruct Hr as [H1 H2].
      apply Z.leb_le in H1, H2. lia.
  - split; [cbn [snd]; lia|]. split; [reflexivity|]. intros f. discriminate.
Qed.

(** X23. No provider delivers high and low columns, so the collector never
    reports a Parkinson number: a record computed from a provider's frame
    carries a Parkinson entry only if the frame is Binance's, only for a
    window whose [hv] is undefined at that date, and the entry is NaN. *)
Theorem parkinson_never_a_number (f : frame) (ws : list nat) (symbol : string)
  (rec : hv_record) (w : nat) (v : float) :
  provider_frame f ->
  In rec (hv_metrics_for ws (Some f) symbol) ->
  In (w, v) (parkinson_vol rec) ->
  v = NaN
  /\ In (w, NaN) (hv rec)
  /\ exists all_klines funding_rates open_interest,
       f = binance_frame all_klines funding_rates open_interest.
Proof.
  intros Hf Hrec Hv.
  assert (Hhl : has_high f && has_low f = false).
  { destruct Hf as [(p & ->)|[(ks & fr & oi & ->)|(s & e & o & ->)]]; reflexivity. }
  unfold hv_metrics_for in Hrec.
  destruct (length (rows f) <? 2)%nat; [destruct Hrec|].
  apply in_map_iff in Hrec. destruct Hrec as (r & <- & _).
  cbn [parkinson_vol hv record_of] in *.
  apply in_flat_map in Hv. destruct Hv as (w' & Hw' & Hv).
  unfold parkinson_of in Hv.
  destruct (snd (window_metrics f _ (date r) w')) as [v'|] eqn:E; [|destruct Hv].
  destruct Hv as [[= -> ->]|[]].
  assert (Hwm : window_metrics f (dropna_price (sort_values (rows f))) (date r) w
                = (NaN, Some NaN) /\ has_volume f = true).
  { unfold window_metrics in *. rewrite Hhl in *.
    destruct (Nat.max 2 (w / 2) <=? length _)%nat; cbn [snd] in E; [discriminate|].
    destruct (has_volume f); [now split | discriminate]. }
  destruct Hwm as [Hwm Hvol]. rewrite Hwm in E. cbn [snd] in E. inversion E; subst v.
  split; [reflexivity|]. split.
  - apply in_map_iff. exists w. split; [|assumption].
    unfold hv_of. now rewrite Hwm.
  - destruct Hf as [(p & ->)|[(ks & fr & oi & ->)|(s & e & o & ->)]];
      [discriminate Hvol | now exists ks, fr, oi | discriminate Hvol].
Qed.

End SingleRequestProviders.

Section SingleRequestWitnesses.
Import Pandas Collector Paging Binance Providers ProviderNotions CollectorNotions.

Lemma fetch_coingecko_data_first_answer_witness :
  firstn (2 - 1) [RateLimited; Page [(0%Z, fin 1)]]
  = repeat (@RateLimited (Z * float)) (2 - 1).
Proof.
  apply (fetch_coingecko_data_first_answer (Some "bitcoin"%string)
           [RateLimited; Page [(0%Z, fin 1)]]
           (coingecko_frame [(0%Z, fin 1)]) 2 eq_refl).
Defined.

Lemma parkinson_never_a_number_witness :
  In (7%nat, NaN)
    (hv (record_of
           (binance_frame
              [mkKline 0 (fin 1) (fin 2) (fin 1) (fin 2) (fin 5) 99 (fin 9) (fin 4)
                 (fin 1) (fin 1) (fin 0);
               mkKline 1 (fin 1) (fin 2) (fin 1) (fin 2) (fin 5) 99 (fin 9) (fin 4)
                 (fin 1) (fin 1) (fin 0)] None None)
           "BTC" [7%nat]
           (map kline_row
              [mkKline 0 (fin 1) (fin 2) (fin 1) (fin 2) (fin 5) 99 (fin 9) (fin 4)
                 (fin 1) (fin 1) (fin 0);
               mkKline 1 (fin 1) (fin 2) (fin 1) (fin 2) (fin 5) 99 (fin 9) (fin 4)
                 (fin 1) (fin 1) (fin 0)])
           (kline_row
              (mkKline 0 (fin 1) (fin 2) (fin 1) (fin 2) (fin 5) 99 (fin 9) (fin 4)
                 (fin 1) (fin 1) (fin 0))))).
Proof.
  refine (proj1 (proj2 (parkinson_never_a_number _ [7%nat] "BTC"%string _ 7%nat NaN
                          _ _ _))).
  - right; left. now exists
      [mkKline 0 (fin 1) (fin 2) (fin 1) (fin 2) (fin 5) 99 (fin 9) (fin 4)
         (fin 1) (fin 1) (fin 0);
       mkKline 1 (fin 1) (fin 2) (fin 1) (fin 2) (fin 5) 99 (fin 9) (fin 4)
         (fin 1) (fin 1) (fin 0)], None, None.
  - left. reflexivity.
  - left. reflexivity.
Defined.

End SingleRequestWitnesses.

(* ===================================================================== *)
(** ** The pricer in binary64 arithmetic *)
(* ===================================================================== *)

Section RoundedPricer.
Import Options Rounded.
Local Open Scope R_scope.

Lemma clamp_range (x : R) : 0 <= clamp x <= 1.
Proof.
  unfold clamp, Rmax, Rmin.
  destruct (Rle_dec 1 x); destruct (Rle_dec 0 _); lra.
Qed.

Lemma clamp_inside (x : R) : 0 <= x <= 1 -> clamp x = x.
Proof.
  intros H. unfold clamp, Rmax, Rmin.
  destruct (Rle_dec 1 x); destruct (Rle_dec 0 _); lra.
Qed.

Lemma clamp_symmetric (a b b' : R) :
  0 <= b -> 0 <= b' -> Rabs (clamp (a + b) + clamp (1 - a + b') - 1) <= b + b'.
Proof.
  intros Hb Hb'. unfold clamp, Rmax, Rmin.
  destruct (Rle_dec 1 (a + b)); destruct (Rle_dec 1 (1 - a + b'));
    repeat destruct (Rle_dec 0 _); apply Rabs_le; lra.
Qed.

(** The distribution function near the middle: between [1/2] and
    [1/2 + x/2] for [x >= 0]. *)
Lemma norm_cdf_middle (x : R) : 0 <= x -> 1 / 2 <= norm_cdf x <= 1 / 2 + x / 2.
Proof.
  intros Hx. unfold norm_cdf.
  pose proof sqrt_2PI_gt_2 as Hs.
  assert (H0 : 0 <= RiemannInt (gauss_integrable 0 x)).
  { apply RiemannInt_P19 with (pr1 := RiemannInt_P14 0 x 0) (pr2 := gauss_integrable 0 x)
      in Hx as H.
    - rewrite RiemannInt_P15 in H. lra.
    - intros t _. unfold fct_cte. left. apply gauss_pos. }
  assert (H1 : RiemannInt (gauss_integrable 0 x) <= x).
  { apply RiemannInt_P19 with (pr1 := gauss_integrable 0 x) (pr2 := RiemannInt_P14 0 x 1)
      in Hx as H.
    - rewrite RiemannInt_P15 in H. lra.
    - intros t _. unfold fct_cte. apply gauss_le_1. }
  split.
  - assert (0 <= RiemannInt (gauss_integrable 0 x) / sqrt (2 * PI)); [|lra].
    apply Rmult_le_pos; [assumption|]. left. apply Rinv_0_lt_compat. lra.
  - assert (RiemannInt (gauss_integrable 0 x) / sqrt (2 * PI) <= x / 2); [|lra].
    apply Rle_trans with (RiemannInt (gauss_integrable 0 x) / 2).
    + apply Rmult_le_compat_l; [assumption|]. apply Rinv_le_contravar; lra.
    + lra.
Qed.

Lemma accurate_nonneg (u eps : R) (P : platform) : accurate u eps P -> 0 <= u /\ 0 <= eps.
Proof.
  intros H. split.
  - pose proof (acc_rnd _ _ _ H 1) as H1. rewrite Rabs_R1 in H1.
    pose proof (Rabs_pos (rnd P 1 - 1)). lra.
  - pose proof (acc_cdf_sym _ _ _ H 0) as H1.
    pose proof (Rabs_pos (lib_cdf P 0 + lib_cdf P (- 0) - 1)). lra.
Qed.

Lemma rnd_0 (u : R) (P : platform) : rounds_within u P -> rnd P 0 = 0.
Proof.
  intros H. pose proof (H 0) as H0. rewrite Rabs_R0, Rmult_0_r in H0.
  pose proof (Rabs_pos (rnd P 0 - 0)).
  assert (E : Rabs (rnd P 0 - 0) = 0) by lra.
  destruct (Req_dec (rnd P 0 - 0) 0) as [E0|E0]; [lra|].
  apply Rabs_no_R0 in E0. contradiction.
Qed.

(** A rounded value against a bound on the exact one. *)
Lemma rnd_close (u : R) (P : platform) (x M : R) :
  rounds_within u P -> 0 <= u -> Rabs x <= M ->
  - (u * M) <= rnd P x - x <= u * M /\ Rabs (rnd P x) <= M * (1 + u).
Proof.
  intros Hr Hu Hx. pose proof (Hr x) as H.
  assert (H1 : u * Rabs x <= u * M) by (apply Rmult_le_compat_l; assumption).
  assert (H2 : Rabs (rnd P x - x) <= u * M) by lra.
  split.
  - pose proof (Rle_abs (rnd P x - x)). pose proof (Rle_abs (- (rnd P x - x))).
    rewrite Rabs_Ropp in *. lra.
  - replace (rnd P x) with ((rnd P x - x) + x) by ring.
    eapply Rle_trans; [apply Rabs_triang|]. lra.
Qed.

Lemma rnd_nonneg (u : R) (P : platform) (x : R) :
  rounds_within u P -> u < 1 -> 0 <= x -> 0 <= rnd P x.
Proof.
  intros Hr Hu Hx. pose proof (Hr x) as H. rewrite (Rabs_pos_eq x Hx) in H.
  pose proof (Rle_abs (- (rnd P x - x))) as H1. rewrite Rabs_Ropp in H1.
  assert (0 <= x * (1 - u)) by (apply Rmult_le_pos; lra). lra.
Qed.

Lemma rnd_pos (u : R) (P : platform) (x : R) :
  rounds_within u P -> u < 1 -> 0 < x -> 0 < rnd P x.
Proof.
  intros Hr Hu Hx. pose proof (Hr x) as H. rewrite (Rabs_pos_eq x (Rlt_le _ _ Hx)) in H.
  pose proof (Rle_abs (- (rnd P x - x))) as H1. rewrite Rabs_Ropp in H1.
  assert (0 < x * (1 - u)) by (apply Rmult_lt_0_compat; lra). lra.
Qed.

Lemma Rabs_bound_mult (a b A B : R) :
  Rabs a <= A -> Rabs b <= B -> Rabs (a * b) <= A * B.
Proof.
  intros Ha Hb. rewrite Rabs_mult.
  apply Rmult_le_compat; try apply Rabs_pos; assumption.
Qed.

(** The difference of the two price lines, whatever [d1] and [d2] are. *)
Lemma call_put_gap (u eps : R) (P : platform) (S KE x1 x2 : R) :
  accurate u eps P -> 0 <= S ->
  Rabs (rnd P (rnd P (S * lib_cdf P x1) - rnd P (KE * lib_cdf P x2))
        - rnd P (rnd P (KE * lib_cdf P (- x2)) - rnd P (S * lib_cdf P (- x1)))
        - (S - KE))
  <= (S + Rabs KE) * (eps + 2 * u * (2 + u)).
Proof.
  intros Hacc HS.
  destruct (accurate_nonneg _ _ _ Hacc) as [Hu He].
  pose proof (acc_rnd _ _ _ Hacc) as Hr.
  pose proof (acc_cdf_range _ _ _ Hacc) as Hrange.
  pose proof (acc_cdf_sym _ _ _ Hacc x1) as Hs1.
  pose proof (acc_cdf_sym _ _ _ Hacc x2) as Hs2.
  pose proof (Hrange x1) as Hp. pose proof (Hrange x2) as Hq.
  pose proof (Hrange (- x2)) as Hp'. pose proof (Hrange (- x1)) as Hq'.
  set (p := lib_cdf P x1) in *. set (q := lib_cdf P x2) in *.
  set (p' := lib_cdf P (- x2)) in *. set (q' := lib_cdf P (- x1)) in *.
  set (k := Rabs KE). assert (Hk : 0 <= k) by apply Rabs_pos.
  assert (HA : Rabs (S * p) <= S).
  { replace S with (S * 1) at 2 by ring. apply Rabs_bound_mult.
    - rewrite Rabs_pos_eq; lra.
    - rewrite Rabs_pos_eq; lra. }
  assert (HB' : Rabs (S * q') <= S).
  { replace S with (S * 1) at 2 by ring. apply Rabs_bound_mult.
    - rewrite Rabs_pos_eq; lra.
    - rewrite Rabs_pos_eq; lra. }
  assert (HB : Rabs (KE * q) <= k).
  { replace k with (k * 1) by ring. apply Rabs_bound_mult; [unfold k; lra|].
    rewrite Rabs_pos_eq; lra. }
  assert (HA' : Rabs (KE * p') <= k).
  { replace k with (k * 1) by ring. apply Rabs_bound_mult; [unfold k; lra|].
    rewrite Rabs_pos_eq; lra. }
  destruct (rnd_close u P _ _ Hr Hu HA) as [Ea Ma].
  destruct (rnd_close u P _ _ Hr Hu HB) as [Eb Mb].
  destruct (rnd_close u P _ _ Hr Hu HA') as [Ea' Ma'].
  destruct (rnd_close u P _ _ Hr Hu HB') as [Eb' Mb'].
  set (a := rnd P (S * p)) in *. set (b := rnd P (KE * q)) in *.
  set (a' := rnd P (KE * p')) in *. set (b' := rnd P (S * q')) in *.
  assert (Hab : Rabs (a - b) <= (S + k) * (1 + u)).
  { unfold Rminus. eapply Rle_trans; [apply Rabs_triang|]. rewrite Rabs_Ropp. lra. }
  assert (Hab' : Rabs (a' - b') <= (S + k) * (1 + u)).
  { unfold Rminus. eapply Rle_trans; [apply Rabs_triang|]. rewrite Rabs_Ropp. lra. }
  destruct (rnd_close u P _ _ Hr Hu Hab) as [Ec _].
  destruct (rnd_close u P _ _ Hr Hu Hab') as [Ep _].
  (* the symmetry of the distribution function *)
  assert (H1 : - (S * eps) <= S * p + S * q' - S <= S * eps).
  { replace (S * p + S * q' - S) with (S * (p + q' - 1)) by ring.
    pose proof (Rle_abs (p + q' - 1)). pose proof (Rle_abs (- (p + q' - 1))).
    rewrite Rabs_Ropp in *.
    assert (S * (p + q' - 1) <= S * eps) by (apply Rmult_le_compat_l; lra).
    assert (S * (- (p + q' - 1)) <= S * eps) by (apply Rmult_le_compat_l; lra).
    lra. }
  assert (H2 : Rabs (KE * q + KE * p' - KE) <= k * eps).
  { replace (KE * q + KE * p' - KE) with (KE * (q + p' - 1)) by ring.
    apply Rabs_bound_mult; [unfold k; lra|].
    unfold p', q. replace x2 with (- - x2) at 1 by ring.
    rewrite Rplus_comm. apply (acc_cdf_sym _ _ _ Hacc (- x2)). }
  pose proof (Rle_abs (KE * q + KE * p' - KE)) as H3.
  pose proof (Rle_abs (- (KE * q + KE * p' - KE))) as H4. rewrite Rabs_Ropp in H4.
  clearbody a b a' b' k.
  generalize dependent (rnd P (a - b)). generalize dependent (rnd P (a' - b')).
  intros put Ep call Ec.
  apply Rabs_le. split; nra.
Qed.

(** Without rounding the pricer is the one of the exact model. *)
Lemma unrounded_black_scholes (S K T r sigma : R) (option_type : string) :
  Rounded.black_scholes unrounded S K T r sigma option_type =
  Options.black_scholes S K T r sigma option_type.
Proof. reflexivity. Qed.

Lemma skewed_accurate (u eps x0 : R) :
  0 <= u -> 0 <= eps -> 0 < x0 -> accurate u eps (skewed u eps x0).
Proof.
  intros Hu He Hx0.
  constructor; cbn [rnd lib_log lib_exp lib_sqrt lib_square lib_cdf lib_pdf skewed].
  - intros x. rewrite Rminus_diag, Rabs_R0. pose proof (Rabs_pos x). nra.
  - intros x _. rewrite Rminus_diag, Rabs_R0. pose proof (Rabs_pos (ln x)). nra.
  - intros x. rewrite Rminus_diag, Rabs_R0. pose proof (exp_pos x). nra.
  - apply exp_0.
  - intros x Hx. rewrite Rminus_diag, Rabs_R0. pose proof (sqrt_pos x). nra.
  - intros x. replace (x ^ 2 * (1 + u) - x ^ 2) with (u * x ^ 2) by ring.
    rewrite Rabs_pos_eq; [lra|]. pose proof (pow2_ge_0 x). nra.
  - intros x. apply clamp_range.
  - intros x. rewrite norm_cdf_opp.
    replace (1 - norm_cdf x + (if Req_dec_T (- x) x0 then eps else 0))
      with (1 - norm_cdf x + (if Req_dec_T (- x) x0 then eps else 0)) by reflexivity.
    eapply Rle_trans; [apply clamp_symmetric|].
    + destruct (Req_dec_T x x0); lra.
    + destruct (Req_dec_T (- x) x0); lra.
    + destruct (Req_dec_T x x0), (Req_dec_T (- x) x0); lra.
  - intros x. left. apply norm_pdf_pos.
Qed.





(** X3. Gamma and vega are never negative, for either option type and
    whatever rounds to zero on the way: on a platform that meets its
    contract with [u < 1], for a positive spot, strike, time to expiry and
    volatility. *)
Theorem gamma_and_vega_never_negative (u eps : R) (P : platform)
  (S K T r sigma : R) (option_type : string) :
  accurate u eps P -> u < 1 -> 0 < S -> 0 < K -> 0 < T -> 0 < sigma ->
  0 <= gamma (black_scholes P S K T r sigma option_type)
  /\ 0 <= vega (black_scholes P S K T r sigma option_type).
Proof.
  intros Hacc Hu HS _ HT Hs. unfold black_scholes.
  destruct (Rle_dec T 0); [lra|].
  destruct (Rle_dec sigma 0); [lra|].
  cbn [gamma vega].
  pose proof (acc_rnd _ _ _ Hacc) as Hr.
  destruct (accurate_nonneg _ _ _ Hacc) as [Hu0 _].
  assert (Hq : 0 < lib_sqrt P T).
  { pose proof (acc_sqrt _ _ _ Hacc T (Rlt_le _ _ HT)) as H.
    pose proof (sqrt_lt_R0 T HT) as Hq.
    pose proof (Rle_abs (- (lib_sqrt P T - sqrt T))) as H1. rewrite Rabs_Ropp in H1.
    assert (0 < sqrt T * (1 - u)) by (apply Rmult_lt_0_compat; lra). lra. }
  match goal with
  | |- context [lib_pdf P ?d] => pose proof (acc_pdf_nonneg _ _ _ Hacc d) as Hp;
                                set (pd := lib_pdf P d) in *
  end.
  split.
  - apply (rnd_nonneg u P _ Hr Hu).
    apply Rmult_le_pos; [assumption|]. left. apply Rinv_0_lt_compat.
    apply (rnd_pos u P _ Hr Hu). apply Rmult_lt_0_compat; [|assumption].
    apply (rnd_pos u P _ Hr Hu). now apply Rmult_lt_0_compat.
  - apply (rnd_nonneg u P _ Hr Hu).
    apply Rmult_le_pos; [|lra].
    apply (rnd_nonneg u P _ Hr Hu). apply Rmult_le_pos; [|lra].
    apply (rnd_nonneg u P _ Hr Hu). apply Rmult_le_pos; lra.
Qed.

Lemma gamma_and_vega_never_negative_witness :
  0 <= gamma (black_scholes (skewed 0 0 1) 100 150 (1 / 365) 0.05 0.2 "put").
Proof.
  apply (gamma_and_vega_never_negative 0 0 (skewed 0 0 1) 100 150 (1 / 365) 0.05 0.2 "put"
           (skewed_accurate 0 0 1 ltac:(lra) ltac:(lra) ltac:(lra))); lra.
Defined.

End RoundedPricer.


Section RoundedPricerCounterexample.
Import PrimFloat.
Import Options Rounded.
Local Open Scope R_scope.

(** The pricer on [skewed u eps ((1 + u) / 10)] at the money with
    [sigma = 0.2], [T = 1] and a zero rate: the call exceeds the put by
    [S * eps]. *)
Lemma skewed_atm_gap (u eps S : R) :
  0 < u < 1 -> 0 <= eps <= / 4 -> 0 < S ->
  price (black_scholes (skewed u eps ((1 + u) / 10)) S S 1 0 0.2 "call")
  - price (black_scholes (skewed u eps ((1 + u) / 10)) S S 1 0 0.2 "put")
  = S * eps.
Proof.
  intros Hu He HS. unfold black_scholes, discounted_strike.
  destruct (Rle_dec 1 0); [lra|].
  destruct (Rle_dec 0.2 0); [lra|].
  cbn [price String.eqb Ascii.eqb Bool.eqb rnd lib_log lib_exp lib_sqrt lib_square
       lib_cdf skewed].
  rewrite sqrt_1.
  replace (- 0 * 1) with 0 by ring. rewrite exp_0.
  replace (S / S) with 1 by (field; lra). rewrite ln_1.
  set (x0 := (1 + u) / 10). set (y := (1 - u) / 10).
  replace ((0 + (0 + 0.5 * (0.2 ^ 2 * (1 + u))) * 1) / (0.2 * 1)) with x0
    by (unfold x0; replace 0.5 with (1 / 2) by lra; replace 0.2 with (1 / 5) by lra; field).
  replace (x0 - 0.2 * 1) with (- y) by (unfold x0, y; lra).
  rewrite Ropp_involutive.
  destruct (Req_dec_T x0 x0) as [_|E]; [|contradiction].
  destruct (Req_dec_T (- y) x0) as [E|_]; [unfold x0, y in E; lra|].
  destruct (Req_dec_T y x0) as [E|_]; [unfold x0, y in E; lra|].
  destruct (Req_dec_T (- x0) x0) as [E|_]; [unfold x0 in E; lra|].
  rewrite !norm_cdf_opp, !Rplus_0_r.
  pose proof (norm_cdf_middle x0 ltac:(unfold x0; lra)) as Hx.
  pose proof (norm_cdf_middle y ltac:(unfold y; lra)) as Hy.
  rewrite !clamp_inside by (unfold x0, y in *; lra).
  ring.
Qed.

Lemma skewed_cdf_close (u eps x0 x : R) :
  0 <= eps -> -1 <= x <= 1 ->
  Rabs (lib_cdf (skewed u eps x0) x - norm_cdf x) <= eps.
Proof.
  intros He Hx. cbn [lib_cdf skewed].
  assert (Hr : 0 <= norm_cdf x <= 1).
  { destruct (Rle_dec 0 x) as [H|H].
    - pose proof (norm_cdf_middle x H). lra.
    - pose proof (norm_cdf_middle (- x) ltac:(lra)) as H1.
      rewrite norm_cdf_opp in H1. lra. }
  set (b := if Req_dec_T x x0 then eps else 0).
  assert (Hb : 0 <= b <= eps) by (unfold b; destruct (Req_dec_T x x0); lra).
  clearbody b. unfold clamp, Rmax, Rmin.
  destruct (Rle_dec 1 (norm_cdf x + b)); destruct (Rle_dec 0 _); apply Rabs_le; lra.
Qed.


End RoundedPricerCounterexample.


(* ===================================================================== *)
(** ** Scaling the prices in binary64 arithmetic *)
(* ===================================================================== *)

Section RoundedColumns.
Import Pandas Rounded.
Local Open Scope R_scope.

(** Without rounding the columns and the estimators are those of the exact
    model. *)
Lemma unrounded_round_cell (a : float) : round_cell unrounded a = a.
Proof. now destruct a. Qed.

Lemma unrounded_fsq (a : float) : Rounded.fsq unrounded a = Pandas.fsq a.
Proof. destruct a as [x|]; cbn; [f_equal; ring | reflexivity]. Qed.

Lemma unrounded_flog (a : float) : Rounded.flog unrounded a = Pandas.flog a.
Proof. reflexivity. Qed.

Lemma unrounded_log_returns (s : series) :
  Rounded.log_returns unrounded s = Pandas.log_returns s.
Proof.
  unfold Rounded.log_returns, Pandas.log_returns, zip_with. rewrite !map_map.
  apply map_ext. intros [a b]. cbn [fst snd].
  unfold Rounded.fdiv. now rewrite unrounded_round_cell.
Qed.

Lemma unrounded_calculate_historical_volatility (prices : series) (w : nat) :
  Rounded.calculate_historical_volatility unrounded prices w =
  Collector.calculate_historical_volatility prices w.
Proof.
  unfold Rounded.calculate_historical_volatility, Collector.calculate_historical_volatility.
  destruct (length prices <? 2)%nat; [reflexivity|].
  rewrite unrounded_log_returns. unfold Rounded.fmul.
  rewrite unrounded_round_cell. unfold Rounded.std, Pandas.std.
  destruct (length (dropna (Pandas.log_returns prices)) <=? 1)%nat; reflexivity.
Qed.

Lemma unrounded_calculate_parkinson_volatility f (data : list Collector.row) :
  Rounded.calculate_parkinson_volatility unrounded f data =
  Collector.calculate_parkinson_volatility f data.
Proof.
  unfold Rounded.calculate_parkinson_volatility, Collector.calculate_parkinson_volatility.
  destruct (negb _); [reflexivity|].
  unfold Rounded.fmul, Rounded.fdiv. rewrite !unrounded_round_cell.
  assert (E : map (fun x => Rounded.fsq unrounded (Rounded.flog unrounded x))
                (zip_with (fun a b => round_cell unrounded (Pandas.fdiv a b))
                   (map Collector.high data) (map Collector.low data))
              = map (fun x => Pandas.fsq (Pandas.flog x))
                  (zip_with Pandas.fdiv (map Collector.high data) (map Collector.low data))).
  { unfold zip_with. rewrite !map_map. apply map_ext. intros [a b]. cbn [fst snd].
    now rewrite unrounded_round_cell, unrounded_fsq. }
  unfold Rounded.fdiv in *. rewrite E. unfold Rounded.smean, Pandas.smean.
  destruct (length (dropna _) =? 0)%nat; reflexivity.
Qed.

Lemma unrounded_rolling_std (w : nat) (s : series) :
  Rounded.rolling_std unrounded w s = Pandas.rolling_std w s.
Proof.
  unfold Rounded.rolling_std, Pandas.rolling_std. apply map_ext. intros i.
  unfold Rounded.rolling_std_at, Pandas.rolling_std_at, Pandas.std.
  destruct (length (dropna (tail w (firstn (S i) s))) <? w)%nat; [reflexivity|].
  destruct (length (dropna (tail w (firstn (S i) s))) <=? 1)%nat; reflexivity.
Qed.

Lemma unrounded_hv_col (df : list Screener.ohlcv) (w : nat) :
  Rounded.hv_col unrounded df w = Screener.hv_col df w.
Proof.
  unfold Rounded.hv_col, Screener.hv_col, Rounded.log_ret_col, Screener.log_ret_col.
  rewrite unrounded_log_returns, unrounded_rolling_std. apply map_ext. intros x.
  unfold Rounded.fmul. now rewrite unrounded_round_cell.
Qed.

Lemma unrounded_rms (a b : float) : Rounded.rms unrounded a b = Screener.rms a b.
Proof.
  unfold Rounded.rms, Screener.rms, Rounded.fdiv, Rounded.fadd.
  rewrite !unrounded_round_cell, !unrounded_fsq. reflexivity.
Qed.

Lemma unrounded_calculate_hv_metrics (df : option (list Screener.ohlcv)) (ws : list nat) :
  Rounded.calculate_hv_metrics unrounded df ws = Screener.calculate_hv_metrics df ws.
Proof.
  unfold Rounded.calculate_hv_metrics, Screener.calculate_hv_metrics.
  destruct df as [[|b d]|]; try reflexivity. destruct ws as [|w ws]; [reflexivity|].
  destruct (_ <? _)%nat; [reflexivity|]. do 2 f_equal.
  unfold Rounded.all_rows, Screener.all_rows. apply map_ext. intros [i x].
  unfold Rounded.metrics_at, Screener.metrics_at. cbn [fst snd].
  unfold Rounded.log_ret_col, Screener.log_ret_col.
  rewrite unrounded_log_returns, !unrounded_hv_col, !unrounded_rms.
  f_equal. apply map_ext. intros w'. now rewrite unrounded_hv_col.
Qed.

End RoundedColumns.

Section RoundedScaling.
Import Pandas Rounded.
Local Open Scope R_scope.

Variable P : platform.
Variable c : R.
Hypothesis c_pos : 0 < c.
Hypothesis c_exact : forall x, representable P x -> rnd P (c * x) = c * x.

Lemma fmul_scale_exact (a : float) :
  representable_cell P a -> Rounded.fmul P (fin c) a = Pandas.fmul (fin c) a.
Proof.
  destruct a as [x|]; cbn; [|reflexivity]. intros H. f_equal. now apply c_exact.
Qed.

Lemma rounded_fdiv_scale (a b : float) :
  representable_cell P a -> representable_cell P b ->
  Rounded.fdiv P (Rounded.fmul P (fin c) a) (Rounded.fmul P (fin c) b) = Rounded.fdiv P a b.
Proof.
  intros Ha Hb. rewrite !fmul_scale_exact by assumption.
  unfold Rounded.fdiv. now rewrite (fdiv_scale c c_pos).
Qed.

Lemma rounded_zip_with_fdiv_scale (a b : series) :
  Forall (representable_cell P) a -> Forall (representable_cell P) b ->
  zip_with (Rounded.fdiv P) (map (Rounded.fmul P (fin c)) a) (map (Rounded.fmul P (fin c)) b)
  = zip_with (Rounded.fdiv P) a b.
Proof.
  unfold zip_with. intros Ha. revert b.
  induction Ha as [|x a Hx Ha IH]; intros [|y b] Hb; cbn [map combine]; try reflexivity.
  inversion Hb; subst. cbn [fst snd]. rewrite rounded_fdiv_scale by assumption.
  f_equal. now apply IH.
Qed.

Lemma shift_scale (s : series) :
  shift (map (Rounded.fmul P (fin c)) s) = map (Rounded.fmul P (fin c)) (shift s).
Proof.
  unfold shift. rewrite length_map.
  change (NaN :: map (Rounded.fmul P (fin c)) s)
    with (map (Rounded.fmul P (fin c)) (NaN :: s)).
  apply firstn_map.
Qed.

Lemma shift_representable (s : series) :
  Forall (representable_cell P) s -> Forall (representable_cell P) (shift s).
Proof.
  intros H. unfold shift. apply Forall_firstn_sub. constructor; [exact I | assumption].
Qed.

Lemma rounded_log_returns_scale (s : series) :
  Forall (representable_cell P) s ->
  Rounded.log_returns P (map (Rounded.fmul P (fin c)) s) = Rounded.log_returns P s.
Proof.
  intros H. unfold Rounded.log_returns.
  rewrite shift_scale, rounded_zip_with_fdiv_scale;
    [reflexivity | assumption | now apply shift_representable].
Qed.

Lemma rounded_calculate_historical_volatility_scale (s : series) (w : nat) :
  Forall (representable_cell P) s ->
  Rounded.calculate_historical_volatility P (map (Rounded.fmul P (fin c)) s) w =
  Rounded.calculate_historical_volatility P s w.
Proof.
  intros H. unfold Rounded.calculate_historical_volatility.
  now rewrite length_map, rounded_log_returns_scale.
Qed.

Lemma rounded_calculate_parkinson_volatility_scale f (data : list Collector.row) :
  Forall (fun r => representable_cell P (Collector.high r)
                   /\ representable_cell P (Collector.low r)) data ->
  Rounded.calculate_parkinson_volatility P f (map (scale_high_low P c) data) =
  Rounded.calculate_parkinson_volatility P f data.
Proof.
  intros H. unfold Rounded.calculate_parkinson_volatility.
  rewrite !map_map. cbn [Collector.high Collector.low scale_high_low].
  rewrite <- (map_map Collector.high (Rounded.fmul P (fin c))).
  rewrite <- (map_map Collector.low (Rounded.fmul P (fin c))).
  rewrite rounded_zip_with_fdiv_scale; [reflexivity| |].
  - apply Forall_map. eapply Forall_impl; [|exact H]. now intros r [Hh _].
  - apply Forall_map. eapply Forall_impl; [|exact H]. now intros r [_ Hl].
Qed.

Lemma rounded_log_ret_col_scale (df : list Screener.ohlcv) :
  Forall (fun b => representable_cell P (Screener.close b)) df ->
  log_ret_col P (map (scale_bar P c) df) = log_ret_col P df.
Proof.
  intros H. unfold log_ret_col. rewrite map_map. cbn [Screener.close scale_bar].
  rewrite <- (map_map Screener.close (Rounded.fmul P (fin c))).
  apply rounded_log_returns_scale. now apply Forall_map.
Qed.

Lemma rounded_hv_col_scale (df : list Screener.ohlcv) (w : nat) :
  Forall (fun b => representable_cell P (Screener.close b)) df ->
  hv_col P (map (scale_bar P c) df) w = hv_col P df w.
Proof. intros H. unfold hv_col. now rewrite rounded_log_ret_col_scale. Qed.

Lemma rounded_metrics_at_scale df ws i b :
  Forall (fun b => representable_cell P (Screener.close b)) df ->
  Rounded.metrics_at P (map (scale_bar P c) df) ws i (scale_bar P c b) =
  scale_input P c (Rounded.metrics_at P df ws i b).
Proof.
  intros H. unfold Rounded.metrics_at, scale_input. cbn.
  rewrite rounded_log_ret_col_scale, !rounded_hv_col_scale by assumption. f_equal.
  apply map_ext. intros w. now rewrite rounded_hv_col_scale.
Qed.

Lemma rounded_all_rows_scale df ws :
  Forall (fun b => representable_cell P (Screener.close b)) df ->
  Rounded.all_rows P (map (scale_bar P c) df) ws =
  map (scale_input P c) (Rounded.all_rows P df ws).
Proof.
  intros H. unfold Rounded.all_rows. rewrite length_map, map_map.
  generalize (seq 0 (length df)). intros idx.
  transitivity
    (map (fun p => Rounded.metrics_at P (map (scale_bar P c) df) ws (fst p)
                     (scale_bar P c (snd p))) (combine idx df)).
  - clear H. revert idx.
    generalize (Rounded.metrics_at P (map (scale_bar P c) df) ws) as g.
    intros g. induction df as [|b l IH]; intros [|i idx]; cbn [map combine];
      try reflexivity.
    cbn [fst snd]. now rewrite IH.
  - apply map_ext. intros [i b]. now apply rounded_metrics_at_scale.
Qed.

Lemma rounded_isna_scale (x : float) : isna (Rounded.fmul P (fin c) x) = isna x.
Proof. now destruct x. Qed.

Lemma rounded_complete_scale m :
  Screener.complete (scale_input P c m) = Screener.complete m.
Proof.
  unfold Screener.complete, scale_input.
  cbn [Screener.bar Screener.open Screener.high Screener.low Screener.close
       Screener.volume Screener.log_ret Screener.hv Screener.rms_2_3
       Screener.rms_7_14 Screener.rms_vol scale_bar].
  now rewrite !rounded_isna_scale.
Qed.

Lemma rounded_filter_complete_scale l :
  filter Screener.complete (map (scale_input P c) l) =
  map (scale_input P c) (filter Screener.complete l).
Proof.
  induction l as [|m l IH]; cbn [map filter]; [reflexivity|].
  rewrite rounded_complete_scale.
  destruct (Screener.complete m); cbn [map]; now rewrite IH.
Qed.

Lemma rounded_calculate_hv_metrics_scale df ws :
  Forall (fun b => representable_cell P (Screener.close b)) df ->
  Rounded.calculate_hv_metrics P (Some (map (scale_bar P c) df)) ws =
  Scaling.outcome_map (map (scale_input P c)) (Rounded.calculate_hv_metrics P (Some df) ws).
Proof.
  intros H. unfold Rounded.calculate_hv_metrics.
  destruct df as [|b df]; [reflexivity|]. cbn [map].
  destruct ws as [|w ws]; [reflexivity|].
  change (scale_bar P c b :: map (scale_bar P c) df) with (map (scale_bar P c) (b :: df)).
  rewrite length_map.
  destruct (length (b :: df) <? Screener.max_window (w :: ws) + 1)%nat;
    [reflexivity|].
  cbn [Scaling.outcome_map].
  now rewrite rounded_all_rows_scale, rounded_filter_complete_scale.
Qed.

End RoundedScaling.

Section RoundedEstimators.
Import Pandas Rounded.
Local Open Scope R_scope.


Lemma unrounded_scales_exactly : scales_exactly unrounded.
Proof. intros k x _. reflexivity. Qed.


End RoundedEstimators.

Section Binary64Scaling.
Import PrimFloat.
Import Binary64.
Local Open Scope R_scope.

Lemma ln_lt_minus_1 (z : R) : 0 < z -> z <> 1 -> ln z < z - 1.
Proof.
  intros Hz Hn. apply exp_lt_inv. rewrite exp_ln by assumption.
  pose proof (exp_ineq1 (z - 1) ltac:(lra)). lra.
Qed.


End Binary64Scaling.
